(** * sl-live: the realtime reconciliation engine

    A shallow embedding of the vehicle resolver ([SLService.getLiveVehicles]),
    the line search ([SLService.searchLines]), the history endpoints
    ([api/ingest], [api/history]) with their client
    ([SLService.getVehicleHistory]) and the display poll ([App.fetchLive]),
    followed by the properties of the specification that concern them. *)

From Stdlib Require Import ZArith NArith List Bool Ascii String Lia Permutation Sorted.
From Stdlib Require Import DecimalString DecimalPos DecimalN DecimalZ.
From Stdlib Require Floats.PrimFloat.
From Stdlib Require HexadecimalString HexadecimalN.
From stdpp Require Import base option list gmap strings fin_maps.

Local Open Scope string_scope.
Local Open Scope Z_scope.

(** ** JavaScript values and operators used by the sources *)

Module JS.

(** An optional string field: [None] is [undefined]. A string is truthy
    when it is not empty. *)
Definition truthy (o : option string) : bool :=
  match o with
  | Some s => negb (String.eqb s "")
  | None => false
  end.

(** The string held by a truthy value: the [s] of [if (s) { ... }]. *)
Definition nonempty (o : option string) : option string :=
  match o with
  | Some s => if String.eqb s "" then None else Some s
  | None => None
  end.

(** [a || b] on optional strings. *)
Definition or (a b : option string) : option string :=
  if truthy a then a else b.

(** [a ?? b]: only [undefined]/[null] falls through. *)
Definition nullish {A} (a b : option A) : option A :=
  match a with
  | Some _ => a
  | None => b
  end.

(** Truthiness of a number: [0], [-0] and [NaN] are falsy. *)
Definition truthy_num (o : option PrimFloat.float) : bool :=
  match o with
  | Some x => negb (PrimFloat.is_zero x || PrimFloat.is_nan x)
  | None => false
  end.

(** [x || 0] on an optional number. *)
Definition or_zero (o : option PrimFloat.float) : PrimFloat.float :=
  match o with
  | Some x => if truthy_num o then x else PrimFloat.zero
  | None => PrimFloat.zero
  end.

(** [String(n)] for an unsigned integer: its decimal digits. *)
Definition String_of_uint (n : N) : string :=
  NilZero.string_of_uint (N.to_uint n).

(** [String(n)] for a signed integer. *)
Definition String_of_int (n : Z) : string :=
  NilZero.string_of_int (Z.to_int n).

(** [parseInt(s)] on a string that is a decimal integer; [None] is [NaN]. *)
Definition parseInt_string (s : string) : option Z :=
  Z.of_int <$> NilZero.int_of_string s.

(** [parseInt(n)] applied to an integer: the argument is first converted
    to its decimal string. The [NaN] branch is unreachable
    (see [parseInt_int]); it falls back to the argument. *)
Definition parseInt (n : Z) : Z :=
  default n (parseInt_string (String_of_int n)).

(** Lower case of an ASCII character: the letters A-Z are mapped, every
    other byte is left as it is. *)
Definition lower_ascii (c : ascii) : ascii :=
  let n := nat_of_ascii c in
  if (65 <=? n)%nat && (n <=? 90)%nat then ascii_of_nat (n + 32) else c.

(** A string of ASCII characters: no byte of it is above 127. *)
Fixpoint ascii_only (s : string) : bool :=
  match s with
  | EmptyString => true
  | String c s' => (nat_of_ascii c <? 128)%nat && ascii_only s'
  end.

(** [s.toLowerCase()] of a string of ASCII characters. On other strings
    [String.prototype.toLowerCase] follows the case mapping of Unicode,
    which is not written out here: the functions that call it on the data
    of the service take it as a parameter [toLowerCase], of which the
    theorems assume at most that it is this function on ASCII strings. *)
Fixpoint toLowerCase_ascii (s : string) : string :=
  match s with
  | EmptyString => EmptyString
  | String c s' => String (lower_ascii c) (toLowerCase_ascii s')
  end.

(** The property names that every plain object inherits from
    [Object.prototype]: [obj[key]] is a function, or the prototype itself
    for [__proto__], when [key] is one of them and not a key of [obj]. *)
Definition Object_prototype_keys : list string :=
  ["constructor"; "hasOwnProperty"; "isPrototypeOf"; "propertyIsEnumerable";
   "toLocaleString"; "toString"; "valueOf"; "__proto__";
   "__defineGetter__"; "__defineSetter__"; "__lookupGetter__"; "__lookupSetter__"].

(** [s.startsWith(p)]. *)
Definition startsWith (s p : string) : bool := String.prefix p s.

End JS.

(** ** The decoded realtime feed

    The objects produced by [FeedMessage.toObject] without [defaults]: an
    optional field that is absent on the wire is absent in the object. The
    sources read both the camelCase and the snake_case spelling of a field,
    so both are kept. *)

Module Feed.

Record TripDescriptor := {
  td_tripId : option string;
  td_trip_id : option string;
  td_routeId : option string;
  td_route_id : option string;
  td_directionId : option N;
  td_direction_id : option N
}.

Record VehicleDescriptor := {
  vd_id : option string;
  vd_label : option string
}.

Record Position := {
  latitude : PrimFloat.float;
  longitude : PrimFloat.float;
  bearing : option PrimFloat.float;
  speed : option PrimFloat.float
}.

Record VehiclePosition := {
  vp_trip : option TripDescriptor;
  vp_vehicle : option VehicleDescriptor;
  vp_position : option Position
}.

Record StopTimeEvent := {
  ste_delay : option Z
}.

Record StopTimeUpdate := {
  stu_stopId : option string;
  stu_stop_id : option string;
  stu_arrival : option StopTimeEvent;
  stu_departure : option StopTimeEvent
}.

Record TripUpdate := {
  tu_trip : option TripDescriptor;
  tu_stopTimeUpdate : option (list StopTimeUpdate)
}.

Record FeedEntity := {
  fe_id : string;
  fe_tripUpdate : option TripUpdate;
  fe_vehicle : option VehiclePosition
}.

(** [FeedMessage.toObject(...).entity]: absent when the feed is empty. *)
Record FeedMessage := {
  entity : option (list FeedEntity)
}.

End Feed.

Import Feed.

(** ** Outcomes of asynchronous calls *)

Inductive Outcome (A : Type) : Type :=
| Resolved (a : A)
| Rejected (msg : string).

Arguments Resolved {A} a.
Arguments Rejected {A} msg.

(** [await]: a rejected promise aborts the rest of the body. *)
#[export] Instance Outcome_bind : MBind Outcome := fun A B k m =>
  match m with
  | Resolved a => k a
  | Rejected msg => Rejected msg
  end.

(** [try { body } catch (e) { return d }] *)
Definition try_catch {A} (body : Outcome A) (d : A) : Outcome A :=
  match body with
  | Resolved a => Resolved a
  | Rejected _ => Resolved d
  end.

(** ** Sorting

    [Array.prototype.sort] with a comparator and the ordered scan of an
    index, both as a stable insertion sort on a boolean order. *)

Section Sort.
Context {A : Type} (leb : A -> A -> bool).

Fixpoint insert_sorted (x : A) (l : list A) : list A :=
  match l with
  | [] => [x]
  | y :: l' => if leb x y then x :: l else y :: insert_sorted x l'
  end.

Definition sort_by (l : list A) : list A := foldr insert_sorted [] l.
End Sort.

(** ** The history endpoints (api/ingest.ts, api/history.ts) *)

Module HistoryApi.

(** An element of [trail], and of the [path] that is read back. *)
Record TrailPoint := {
  lat : option PrimFloat.float;
  lng : option PrimFloat.float;
  ts : Z
}.

(** A document of the collection [vehicle_trails]. *)
Record TrailDoc := {
  line : option string;
  vehicleId : option string;
  expireAt : Z;
  lastUpdate : Z;
  trail : list TrailPoint
}.

(** The store: [vehicle_trails] has a unique index on [tripId], so it is
    a map from trip id to document. [connected] tells whether
    [clientPromise] resolves. *)
Record Database := {
  connected : bool;
  vehicle_trails : gmap string TrailDoc
}.

Definition clientPromise (db : Database) : Outcome (gmap string TrailDoc) :=
  if connected db then Resolved (vehicle_trails db)
  else Rejected "MongoNetworkError".

(** An element of [req.body.vehicles]. [iv_tripId] is [None] when the
    field is absent or not a string. *)
Record IngestVehicle := {
  iv_tripId : option string;
  iv_line : option string;
  iv_id : option string;
  iv_lat : option PrimFloat.float;
  iv_lng : option PrimFloat.float
}.

Record IngestRequest := {
  method : string;
  vehicles : option (list IngestVehicle)
}.

Inductive IngestJson :=
| IJ_error (msg : string)
| IJ_message (msg : string)
| IJ_success (count modified upserted : nat).

Record IngestResponse := {
  i_status : N;
  i_json : IngestJson
}.

(** [updateOne] with [$set], [$push] and [upsert: true]. *)
Definition updateOne (now expireTime : Z) (coll : gmap string TrailDoc)
    (tripId : string) (v : IngestVehicle) : gmap string TrailDoc :=
  let point := {| lat := iv_lat v; lng := iv_lng v; ts := now |} in
  let old := default [] (trail <$> coll !! tripId) in
  <[tripId := {| line := iv_line v; vehicleId := iv_id v;
                 expireAt := expireTime; lastUpdate := now;
                 trail := old ++ [point] |}]> coll.

(** The valid vehicles, each with its (non-empty, string) trip id. *)
Definition validVehicles (vs : list IngestVehicle)
    : list (string * IngestVehicle) :=
  omap (fun v => (fun t => (t, v)) <$> JS.nonempty (iv_tripId v)) vs.

(** [collection.bulkWrite(ops, { ordered: false })]: the operations
    applied one after the other, counting the documents modified and the
    documents created. The server may apply them in another order, which
    permutes the points pushed onto a trail ([bulkWrite_unordered]). *)
Definition bulkWrite (now expireTime : Z) (ops : list (string * IngestVehicle))
    (coll : gmap string TrailDoc) : gmap string TrailDoc * nat * nat :=
  foldl (fun '(c, modified, upserted) '(tripId, v) =>
           let c' := updateOne now expireTime c tripId v in
           match c !! tripId with
           | Some _ => (c', S modified, upserted)
           | None => (c', modified, S upserted)
           end)
        (coll, 0%nat, 0%nat) ops.

(** [handler] of api/ingest.ts on a request that has a body and a database
    that, once the client is connected, carries out every command. [now]
    is [Date.now()]. The ways through the handler when a command throws or
    the body is missing are in [IngestFaults.handler]. *)
Definition ingest_handler (MONGODB_URI : bool) (now : Z) (req : IngestRequest)
    (db : Database) : IngestResponse * Database :=
  if negb (String.eqb (method req) "POST")
  then ({| i_status := 405; i_json := IJ_error "Method not allowed" |}, db)
  else if negb MONGODB_URI
  then ({| i_status := 500; i_json := IJ_error "Server misconfiguration" |}, db)
  else
    match vehicles req with
    | None | Some [] => ({| i_status := 200; i_json := IJ_message "No data" |}, db)
    | Some vs =>
        match clientPromise db with
        | Rejected _ => ({| i_status := 500; i_json := IJ_error "Database error" |}, db)
        | Resolved collection =>
            let expireTime := now + 4 * 60 * 60 * 1000 in
            match validVehicles vs with
            | [] => ({| i_status := 200;
                        i_json := IJ_message "No valid vehicles found" |}, db)
            | ops =>
                let '(collection', modified, upserted) :=
                  bulkWrite now expireTime ops collection in
                ({| i_status := 200;
                    i_json := IJ_success (List.length ops) modified upserted |},
                 {| connected := connected db; vehicle_trails := collection' |})
            end
        end
    end.

(** [req.query.tripId]: a string, or an array when the parameter is
    repeated. *)
Inductive QueryValue :=
| QString (s : string)
| QArray (l : list string).

Inductive HistoryJson :=
| HJ_error (msg : string)
| HJ_path (path : list TrailPoint).

Record HistoryResponse := {
  h_status : N;
  h_json : HistoryJson
}.

(** [(a, b) => a.ts - b.ts] as an order. *)
Definition ts_leb (a b : TrailPoint) : bool := (ts a <=? ts b)%Z.

(** The body of the [try] block of the history handler. *)
Definition history_try (tripId : string) (db : Database) : Outcome HistoryResponse :=
  collection ← clientPromise db;
  match collection !! tripId with
  | None => Resolved {| h_status := 200; h_json := HJ_path [] |}
  | Some trip =>
      let path :=
        (fun p => {| lat := lat p; lng := lng p; ts := ts p |})
          <$> sort_by ts_leb (trail trip) in
      Resolved {| h_status := 200; h_json := HJ_path path |}
  end.

(** [handler] of api/history.ts. *)
Definition history_handler (tripId : option QueryValue) (db : Database) : HistoryResponse :=
  match tripId with
  | Some (QString tripId) =>
      if String.eqb tripId ""
      then {| h_status := 400; h_json := HJ_error "Missing tripId" |}
      else
        match history_try tripId db with
        | Resolved res => res
        | Rejected _ => {| h_status := 200; h_json := HJ_path [] |}
        end
  | _ => {| h_status := 400; h_json := HJ_error "Missing tripId" |}
  end.

(** What [fetch] sees of a response of the history endpoint. *)
Record HttpResponse := {
  res_ok : bool;
  res_json : Outcome HistoryJson
}.

Definition to_http (res : HistoryResponse) : HttpResponse :=
  {| res_ok := (200 <=? h_status res)%N && (h_status res <? 300)%N;
     res_json := Resolved (h_json res) |}.

Fixpoint strip_prefix (p s : string) : option string :=
  match p, s with
  | EmptyString, _ => Some s
  | String a p', String b s' =>
      if Ascii.eqb a b then strip_prefix p' s' else None
  | String _ _, EmptyString => None
  end.

Section Endpoint.
(** [req.query.tripId] for the text that follows [tripId=] in the URL. The
    client puts the trip id there as it is, without encoding it, so the
    URL parser of the browser and the query parser of the platform decide
    what the handler gets: an id of letters and digits arrives as it is,
    one with [&], [#], [+] or [%] arrives as another id, and a repeated
    key as an array. The parsers are not written out. *)
Variable query_tripId : string -> option QueryValue.

(** The endpoint as reached by [fetch(url)] when the network works. *)
Definition endpoint (db : Database) (url : string) : Outcome HttpResponse :=
  match strip_prefix "/api/history?tripId=" url with
  | Some q => Resolved (to_http (history_handler (query_tripId q) db))
  | None => Rejected "404"
  end.
End Endpoint.

End HistoryApi.

(** ** The ingest handler when a command fails (api/ingest.ts) *)

Module IngestFaults.
Import HistoryApi.

(** What the database does inside the [try] block once the client is
    connected: every command succeeds, a [createIndex] throws, or the
    unordered [bulkWrite] throws after it has applied some of the
    operations; [applied] tells for each operation of the batch, in order,
    whether it went through. *)
Inductive Fault :=
| no_fault
| createIndex_throws
| bulkWrite_throws (applied : list bool).

Fixpoint applied_ops {A} (applied : list bool) (ops : list A) : list A :=
  match applied, ops with
  | true :: applied, op :: ops => op :: applied_ops applied ops
  | false :: applied, _ :: ops => applied_ops applied ops
  | _, _ => []
  end.

Definition Database_error : IngestResponse :=
  {| i_status := 500; i_json := IJ_error "Database error" |}.

(** [handler] of api/ingest.ts. [body] is [req.body], [None] when the
    request has none: destructuring it throws before the [try] block and
    the handler rejects without an answer. Inside [body], the [vehicles]
    are [None] when the field is absent or not an array. *)
Definition handler (MONGODB_URI : bool) (now : Z) (method : string)
    (body : option (option (list IngestVehicle))) (fault : Fault) (db : Database)
    : Outcome IngestResponse * Database :=
  if negb (String.eqb method "POST")
  then (Resolved {| i_status := 405; i_json := IJ_error "Method not allowed" |}, db)
  else if negb MONGODB_URI
  then (Resolved {| i_status := 500; i_json := IJ_error "Server misconfiguration" |}, db)
  else
    match body with
    | None => (Rejected "TypeError: Cannot destructure property 'vehicles'", db)
    | Some vehicles =>
        match vehicles with
        | None | Some [] =>
            (Resolved {| i_status := 200; i_json := IJ_message "No data" |}, db)
        | Some vs =>
            match clientPromise db with
            | Rejected _ => (Resolved Database_error, db)
            | Resolved collection =>
                match fault with
                | createIndex_throws => (Resolved Database_error, db)
                | _ =>
                    let expireTime := now + 4 * 60 * 60 * 1000 in
                    match validVehicles vs with
                    | [] => (Resolved {| i_status := 200;
                                         i_json := IJ_message "No valid vehicles found" |},
                             db)
                    | ops =>
                        match fault with
                        | bulkWrite_throws applied =>
                            let '(collection', _, _) :=
                              bulkWrite now expireTime (applied_ops applied ops) collection in
                            (Resolved Database_error,
                             {| connected := connected db;
                                vehicle_trails := collection' |})
                        | _ =>
                            let '(collection', modified, upserted) :=
                              bulkWrite now expireTime ops collection in
                            (Resolved {| i_status := 200;
                                         i_json := IJ_success (List.length ops)
                                                              modified upserted |},
                             {| connected := connected db;
                                vehicle_trails := collection' |})
                        end
                    end
                end
            end
        end
    end.

End IngestFaults.

(** ** The client service (services/slService.ts) *)

Module SLService.

(** The literal [3.6] of [speed * 3.6]: metres per second to kilometres
    per hour. *)
Section Literals.
Import PrimFloat.
#[warnings="-inexact-float"]
Definition MS_TO_KMH : float := 3.6%float.
End Literals.

Record LineManifestEntry := {
  lm_id : string;
  lm_line : string;
  lm_description : string;
  lm_from : string;
  lm_to : string
}.

Record TripMapEntry := {
  r : string;  (* route_id *)
  h : string   (* headsign *)
}.

Record TripUpdateInfo := {
  ti_delay : option Z;
  ti_directionId : option N;
  ti_routeId : option string;
  ti_lastStopId : option string
}.

Record SLLineRoute := {
  lr_id : string;
  lr_line : string;
  lr_trip_ids : list string
}.

Record SLVehicle := {
  sv_id : string;
  sv_line : string;
  sv_tripId : string;
  sv_operator : string;
  sv_vehicleNumber : string;
  sv_lat : PrimFloat.float;
  sv_lng : PrimFloat.float;
  sv_bearing : PrimFloat.float;
  sv_speed : PrimFloat.float;
  sv_destination : string;
  sv_type : string;
  sv_delay : option Z
}.

(** The fields of the initialised service that the functions below read.
    [routes] is the IndexedDB object store of the manifest, keyed by
    [id]. *)
Record State := {
  tripToRouteMap : option (gmap string TripMapEntry);
  routeDirections : option (gmap string (gmap string string));
  stopsMap : gmap string string;
  routes : gmap string LineManifestEntry
}.

(** A fetched body: its length and what [FeedMessage.decode] followed by
    [toObject] makes of it ([Rejected] when decoding throws). *)
Record Body := {
  byteLength : N;
  decode : Outcome FeedMessage
}.

Record Response := {
  ok : bool;
  status : N;
  body : Body
}.

(** What the two realtime endpoints answer during one call. *)
Record Network := {
  fetch_RT_VEHICLE_URL : Outcome Response;
  fetch_RT_TRIP_UPDATES_URL : Outcome Response
}.

(** The placeholder destination. *)
Definition Okand : string := "Okänd".

(** The delay of [updates[0]]. *)
Definition firstUpdate_delay (firstUpdate : StopTimeUpdate) : option Z :=
  match stu_arrival firstUpdate ≫= ste_delay with
  | Some d => Some (JS.parseInt d)
  | None =>
      match stu_departure firstUpdate ≫= ste_delay with
      | Some d => Some (JS.parseInt d)
      | None => None
      end
  end.

(** The value stored under a trip id by the trip-update loop. *)
Definition tripInfoOf (tu : TripUpdate) (trip : TripDescriptor) : TripUpdateInfo :=
  let routeId := JS.or (td_routeId trip) (td_route_id trip) in
  let directionId := JS.nullish (td_directionId trip) (td_direction_id trip) in
  let '(delay, lastStopId) :=
    match tu_stopTimeUpdate tu with
    | Some ((firstUpdate :: _) as updates) =>
        (firstUpdate_delay firstUpdate,
         last updates ≫= fun lastUpdate =>
           JS.or (stu_stopId lastUpdate) (stu_stop_id lastUpdate))
    | _ => (None, None)
    end in
  {| ti_delay := delay; ti_directionId := directionId;
     ti_routeId := routeId; ti_lastStopId := lastStopId |}.

(** One iteration of [for (const e of updateEntities)]. *)
Definition indexTripUpdate (tripInfoMap : gmap string TripUpdateInfo)
    (e : FeedEntity) : gmap string TripUpdateInfo :=
  match fe_tripUpdate e with
  | Some tu =>
      match tu_trip tu with
      | Some trip =>
          match JS.nonempty (JS.or (td_tripId trip) (td_trip_id trip)) with
          | Some tripId => <[tripId := tripInfoOf tu trip]> tripInfoMap
          | None => tripInfoMap
          end
      | None => tripInfoMap
      end
  | None => tripInfoMap
  end.

Definition buildTripInfoMap (updateEntities : list FeedEntity)
    : gmap string TripUpdateInfo :=
  foldl indexTripUpdate ∅ updateEntities.

(** [!headsign || headsign === "Okänd"] *)
Definition unresolved (headsign : string) : bool :=
  String.eqb headsign "" || String.eqb headsign Okand.

(** One iteration of [for (const e of posEntities)]: [None] is
    [continue], [Some x] is [allVehicles.push(x)]. *)
Definition resolveEntity (svc : State)
    (tripInfoMap : gmap string TripUpdateInfo) (e : FeedEntity)
    : option SLVehicle :=
  match fe_vehicle e with
  | None => None
  | Some v =>
    match vp_position v, vp_trip v with
    | Some position, Some trip =>
      match JS.nonempty (JS.or (td_tripId trip) (td_trip_id trip)) with
      | None => None
      | Some tripId =>
        let routeId := JS.or (td_routeId trip) (td_route_id trip) in
        let directionId := JS.nullish (td_directionId trip) (td_direction_id trip) in
        let info := tripInfoMap !! tripId in
        let directionId :=
          match info, directionId with
          | Some i, None => ti_directionId i
          | _, _ => directionId
          end in
        let routeId :=
          match info with
          | Some i => if JS.truthy routeId then routeId else ti_routeId i
          | None => routeId
          end in
        let headsign := Okand in
        let mapEntry := tripToRouteMap svc ≫= fun m => m !! tripId in
        let routeId :=
          match mapEntry with
          | Some me => if JS.truthy routeId then routeId else Some (r me)
          | None => routeId
          end in
        let headsign :=
          match mapEntry with
          | Some me => if JS.truthy (Some (h me)) then h me else headsign
          | None => headsign
          end in
        let headsign :=
          match JS.nonempty routeId, directionId, routeDirections svc with
          | Some rid, Some dir, Some rd =>
              if unresolved headsign then
                let dirStr := JS.String_of_uint dir in
                let fallbackHeadsign := rd !! rid ≫= fun ds => ds !! dirStr in
                match JS.nonempty fallbackHeadsign with
                | Some fh => fh
                | None => headsign
                end
              else headsign
          | _, _, _ => headsign
          end in
        let headsign :=
          match JS.nonempty (info ≫= ti_lastStopId) with
          | Some lastStopId =>
              if unresolved headsign then
                match JS.nonempty (stopsMap svc !! lastStopId) with
                | Some stopName => stopName
                | None => headsign
                end
              else headsign
          | None => headsign
          end in
        match JS.nonempty routeId with
        | None => None
        | Some line =>
          Some {| sv_id := default (fe_id e) (JS.nonempty (vp_vehicle v ≫= vd_id));
                  sv_line := line;
                  sv_tripId := tripId;
                  sv_operator := "SL / Entreprenör";
                  sv_vehicleNumber := default "N/A" (JS.nonempty (vp_vehicle v ≫= vd_label));
                  sv_lat := latitude position;
                  sv_lng := longitude position;
                  sv_bearing := JS.or_zero (bearing position);
                  sv_speed := PrimFloat.mul (JS.or_zero (speed position)) MS_TO_KMH;
                  sv_destination := headsign;
                  sv_type := "Buss";
                  sv_delay := info ≫= ti_delay |}
        end
      end
    | _, _ => None
    end
  end.

(** The position loop. *)
Definition resolveVehicles (svc : State)
    (tripInfoMap : gmap string TripUpdateInfo) (posEntities : list FeedEntity)
    : list SLVehicle :=
  omap (resolveEntity svc tripInfoMap) posEntities.

(** The tail of [getLiveVehicles] once a route is given (the
    specification's [filterByRoute]). *)
Definition filterByRoute (allVehicles : list SLVehicle) (route : SLLineRoute)
    : list SLVehicle :=
  let tripIdSet : gset string := list_to_set (lr_trip_ids route) in
  let filteredVehicles := filter (fun v => sv_tripId v ∈ tripIdSet) allVehicles in
  if bool_decide (List.length filteredVehicles = 0%nat)
     && negb (bool_decide (List.length allVehicles = 0%nat))
  then filter (fun v => sv_line v = lr_id route) allVehicles
  else filteredVehicles.

(** The body of the [try] block of [getLiveVehicles]. *)
Definition getLiveVehicles_try (svc : State) (net : Network)
    (route : option SLLineRoute) : Outcome (list SLVehicle) :=
  posRes ← fetch_RT_VEHICLE_URL net;
  let updatesRes :=
    match fetch_RT_TRIP_UPDATES_URL net with
    | Resolved res => Some res
    | Rejected _ => None
    end in
  if negb (ok posRes)
  then Rejected ("API Error: " ++ JS.String_of_uint (status posRes))
  else
    let posBuffer := body posRes in
    if (byteLength posBuffer <? 20)%N then Resolved []
    else
      posObject ← decode posBuffer;
      let posEntities := default [] (entity posObject) in
      tripInfoMap ←
        match updatesRes with
        | Some res =>
            if ok res then
              updatesObject ← decode (body res);
              Resolved (buildTripInfoMap (default [] (entity updatesObject)))
            else Resolved ∅
        | None => Resolved ∅
        end;
      let allVehicles := resolveVehicles svc tripInfoMap posEntities in
      match route with
      | None => Resolved allVehicles
      | Some route => Resolved (filterByRoute allVehicles route)
      end.

(** [getLiveVehicles] of an initialised service: every exception of the
    body is caught and turned into the empty list. *)
Definition getLiveVehicles (svc : State) (net : Network)
    (route : option SLLineRoute) : Outcome (list SLVehicle) :=
  try_catch (getLiveVehicles_try svc net route) [].

(** *** Line search *)

Inductive ResultType := line_result | stop_result.

Record SearchResult := {
  sr_type : ResultType;
  sr_id : string;
  sr_title : string;
  sr_subtitle : string
}.

(** [manifest.forEach(route => routeStore.put(route))] on the cleared
    store: a later entry replaces an earlier one with the same [id]. *)
Definition putRoutes (manifest : list LineManifestEntry)
    : gmap string LineManifestEntry :=
  foldl (fun store route => <[lm_id route := route]> store) ∅ manifest.

(** The order of the index [line]: by key, then by primary key. *)
Definition index_line_leb (a b : LineManifestEntry) : bool :=
  match String.compare (lm_line a) (lm_line b) with
  | Lt => true
  | Eq => String.leb (lm_id a) (lm_id b)
  | Gt => false
  end.

(** [store.index('line').openCursor()]: the records in index order. *)
Definition openCursor_line (store : gmap string LineManifestEntry)
    : list LineManifestEntry :=
  sort_by index_line_leb (snd <$> map_to_list store).

Definition lineResult (route : LineManifestEntry) : SearchResult :=
  {| sr_type := line_result;
     sr_id := lm_id route;
     sr_title := "Linje " ++ lm_line route;
     sr_subtitle := lm_from route ++ " - " ++ lm_to route |}.

Section SearchLines.
(** [String.prototype.toLowerCase] *)
Variable toLowerCase : string -> string.

(** The [onsuccess] callback, once per cursor position: [cursor] is the
    rest of the scan, [results] the array filled so far. *)
Fixpoint searchLines_onsuccess (query : string)
    (cursor : list LineManifestEntry) (results : list SearchResult)
    : list SearchResult :=
  match cursor with
  | [] => results
  | route :: continue =>
      let results :=
        if JS.startsWith (toLowerCase (lm_line route)) query
        then (results ++ [lineResult route])%list
        else results in
      if (List.length results <? 10)%nat
      then searchLines_onsuccess query continue results
      else results
  end.

Definition searchLines (query : string) (db : gmap string LineManifestEntry)
    : list SearchResult :=
  searchLines_onsuccess query (openCursor_line db) [].
End SearchLines.

(** *** History of a vehicle *)

Definition getVehicleHistory_try
    (fetch : string -> Outcome HistoryApi.HttpResponse) (tripId : string)
    : Outcome (list HistoryApi.TrailPoint) :=
  res ← fetch ("/api/history?tripId=" ++ tripId);
  if negb (HistoryApi.res_ok res) then Resolved []
  else
    data ← HistoryApi.res_json res;
    match data with
    | HistoryApi.HJ_path path => Resolved path
    | HistoryApi.HJ_error _ => Resolved []
    end.

Definition getVehicleHistory
    (fetch : string -> Outcome HistoryApi.HttpResponse) (tripId : string)
    : Outcome (list HistoryApi.TrailPoint) :=
  try_catch (getVehicleHistory_try fetch tripId) [].

End SLService.

(** ** The display poll (App.tsx) *)

Module App.

Inductive LiveStatus := loading | ok | error.

Record State := {
  vehicles : list SLService.SLVehicle;
  liveStatus : LiveStatus
}.

(** One tick of [fetchLive]. [liveStatus_seen] is the value of
    [liveStatus] captured by the closure when the effect was set up. *)
Definition fetchLive (liveStatus_seen : LiveStatus) (svc : SLService.State)
    (net : SLService.Network) (st : State) : State :=
  match SLService.getLiveVehicles svc net None with
  | Resolved data =>
      {| vehicles := data;
         liveStatus := match liveStatus_seen with
                       | ok => liveStatus st
                       | _ => ok
                       end |}
  | Rejected _ =>
      {| vehicles := vehicles st; liveStatus := error |}
  end.

End App.

(** ** The specification's resolution rules

    The fallback chains of the resolver as the specification words them,
    to be compared with what [SLService.resolveEntity] computes. *)

Module Spec.
Import SLService.

(** "First non-empty wins". *)
Fixpoint first_nonempty (candidates : list (option string)) : option string :=
  match candidates with
  | [] => None
  | c :: rest =>
      match JS.nonempty c with
      | Some s => Some s
      | None => first_nonempty rest
      end
  end.

(** "First non-empty, non-placeholder wins". *)
Fixpoint first_resolved (candidates : list (option string)) : option string :=
  match candidates with
  | [] => None
  | c :: rest =>
      match JS.nonempty c with
      | Some s => if String.eqb s Okand then first_resolved rest else Some s
      | None => first_resolved rest
      end
  end.

(** The ids carried by a trip descriptor. *)
Definition tripId_of (trip : TripDescriptor) : option string :=
  JS.nonempty (JS.or (td_tripId trip) (td_trip_id trip)).

Definition routeId_of (trip : TripDescriptor) : option string :=
  JS.or (td_routeId trip) (td_route_id trip).

Definition directionId_of (trip : TripDescriptor) : option N :=
  JS.nullish (td_directionId trip) (td_direction_id trip).

(** The trip-update entity joined by a trip id: the last one of the feed
    that carries this id. *)
Definition joined (updateEntities : list FeedEntity) (tripId : string)
    : option (TripUpdate * TripDescriptor) :=
  foldl (fun found e =>
           match fe_tripUpdate e with
           | Some tu =>
               match tu_trip tu with
               | Some trip =>
                   if decide (tripId_of trip = Some tripId)
                   then Some (tu, trip) else found
               | None => found
               end
           | None => found
           end)
        None updateEntities.

(** What the index holds for a joined trip-update entity. *)
Definition info_of (j : TripUpdate * TripDescriptor) : TripUpdateInfo :=
  tripInfoOf (fst j) (snd j).

(** The entities of the two feeds that a call gets to see. *)
Definition entities_of (res : Outcome Response) : list FeedEntity :=
  match res with
  | Resolved res =>
      if ok res then
        match decode (body res) with
        | Resolved obj => default [] (entity obj)
        | Rejected _ => []
        end
      else []
  | Rejected _ => []
  end.

Definition positions (net : Network) : list FeedEntity :=
  entities_of (fetch_RT_VEHICLE_URL net).

Definition updates (net : Network) : list FeedEntity :=
  entities_of (fetch_RT_TRIP_UPDATES_URL net).

(** Rule 2: the route id. *)
Definition routeId (svc : State) (updateEntities : list FeedEntity)
    (trip : TripDescriptor) (tripId : string) : option string :=
  first_nonempty
    [ routeId_of trip;
      joined updateEntities tripId ≫= (fun j => routeId_of (snd j));
      (tripToRouteMap svc ≫= fun m => m !! tripId) ≫= (fun me => Some (r me)) ].

(** Rule 3: the direction id. *)
Definition directionId (updateEntities : list FeedEntity)
    (trip : TripDescriptor) (tripId : string) : option N :=
  JS.nullish (directionId_of trip)
    (joined updateEntities tripId ≫= fun j => directionId_of (snd j)).

(** The stop name of the last stop-time update of a trip update. *)
Definition last_stop_name (svc : State) (tu : TripUpdate) : option string :=
  stopTimeUpdates ← tu_stopTimeUpdate tu;
  lastUpdate ← last stopTimeUpdates;
  stopId ← JS.nonempty (JS.or (stu_stopId lastUpdate) (stu_stop_id lastUpdate));
  stopsMap svc !! stopId.

(** Rule 4: the destination of a vehicle resolved to route [line]. *)
Definition destination (svc : State) (updateEntities : list FeedEntity)
    (trip : TripDescriptor) (tripId line : string) : string :=
  default Okand
    (first_resolved
       [ (tripToRouteMap svc ≫= fun m => m !! tripId) ≫= (fun me => Some (h me));
         (rd ← routeDirections svc;
          dir ← directionId updateEntities trip tripId;
          byDirection ← rd !! line;
          byDirection !! JS.String_of_uint dir);
         joined updateEntities tripId ≫= (fun j => last_stop_name svc (fst j)) ]).

(** One step of the destination chain: a candidate is taken only while
    the destination is still empty or the placeholder. *)
Definition headsign_step (headsign : string) (candidate : option string) : string :=
  if unresolved headsign then
    match JS.nonempty candidate with
    | Some x => x
    | None => headsign
    end
  else headsign.

(** Rule 5: the delay of a stop-time update, arrival first. *)
Definition delay_of (u : StopTimeUpdate) : option Z :=
  match stu_arrival u ≫= ste_delay with
  | Some d => Some d
  | None => stu_departure u ≫= ste_delay
  end.

End Spec.

(** ** Appending to and reading the history store *)

Module HistorySpec.
Import HistoryApi.

(** The trail stored under a trip id; empty when there is no document. *)
Definition trail_of (coll : gmap string TrailDoc) (tripId : string) : list TrailPoint :=
  default [] (trail <$> coll !! tripId).

(** The point that an ingest at time [now] appends for a vehicle. *)
Definition point_of (now : Z) (v : IngestVehicle) : TrailPoint :=
  {| lat := iv_lat v; lng := iv_lng v; ts := now |}.

(** The points that a list of write operations appends under a trip id. *)
Definition points_for (tripId : string) (now : Z)
    (ops : list (string * IngestVehicle)) : list TrailPoint :=
  omap (fun op => if decide (fst op = tripId)
                  then Some (point_of now (snd op)) else None) ops.

(** A POST of [vs] at time [now], and the database it leaves. *)
Definition post (db : Database) (call : Z * list IngestVehicle) : Database :=
  snd (ingest_handler true (fst call) {| method := "POST"; vehicles := Some (snd call) |} db).

(** A series of such requests. *)
Definition post_all (db : Database) (calls : list (Z * list IngestVehicle)) : Database :=
  foldl post db calls.

End HistorySpec.

(** ** Sample data

    The position entity and the manifest of the specification's examples,
    and a few feeds around them. *)

Module Examples.
Import SLService.
Import PrimFloat.

Definition trip_14 : TripDescriptor :=
  {| td_tripId := Some "14010000123456789"; td_trip_id := None;
     td_routeId := Some ""; td_route_id := None;
     td_directionId := None; td_direction_id := None |}.

#[warnings="-inexact-float"]
Definition pos_14 : Position :=
  {| latitude := 59.33%float; longitude := 18.06%float;
     bearing := Some 90%float; speed := Some 8.0%float |}.

Definition vp_14 : VehiclePosition :=
  {| vp_trip := Some trip_14;
     vp_vehicle := Some {| vd_id := None; vd_label := Some "4711" |};
     vp_position := Some pos_14 |}.

Definition entity_14 : FeedEntity :=
  {| fe_id := "e14"; fe_tripUpdate := None; fe_vehicle := Some vp_14 |}.

(** A position without a trip id. *)
Definition trip_anon : TripDescriptor :=
  {| td_tripId := None; td_trip_id := None;
     td_routeId := Some "9011001001200000"; td_route_id := None;
     td_directionId := None; td_direction_id := None |}.

Definition vp_anon : VehiclePosition :=
  {| vp_trip := Some trip_anon; vp_vehicle := None; vp_position := Some pos_14 |}.

Definition entity_anon : FeedEntity :=
  {| fe_id := "e0"; fe_tripUpdate := None; fe_vehicle := Some vp_anon |}.

(** A position that stands still and reports no speed. *)
Definition pos_still : Position :=
  {| latitude := latitude pos_14; longitude := longitude pos_14;
     bearing := None; speed := None |}.

Definition entity_still : FeedEntity :=
  {| fe_id := "e15"; fe_tripUpdate := None;
     fe_vehicle := Some {| vp_trip := Some trip_14; vp_vehicle := None;
                           vp_position := Some pos_still |} |}.

(** A trip update for the same trip: 120 s late on arrival, 90 s late on
    departure at the first stop, two more stops. *)
Definition stu_first : StopTimeUpdate :=
  {| stu_stopId := Some "s1"; stu_stop_id := None;
     stu_arrival := Some {| ste_delay := Some 120 |};
     stu_departure := Some {| ste_delay := Some 90 |} |}.

Definition stu_last : StopTimeUpdate :=
  {| stu_stopId := Some "s9"; stu_stop_id := None;
     stu_arrival := None; stu_departure := None |}.

Definition update_14 : TripUpdate :=
  {| tu_trip := Some {| td_tripId := Some "14010000123456789"; td_trip_id := None;
                        td_routeId := None; td_route_id := None;
                        td_directionId := Some 1%N; td_direction_id := None |};
     tu_stopTimeUpdate := Some [stu_first; stu_last] |}.

Definition update_entity_14 : FeedEntity :=
  {| fe_id := "u14"; fe_tripUpdate := Some update_14; fe_vehicle := None |}.

(** The catalog of the specification's example. *)
Definition catalog : State :=
  {| tripToRouteMap :=
       Some {[ "14010000123456789" :=
                 {| r := "9011001001200000"; h := "Sollentuna" |} ]};
     routeDirections := None;
     stopsMap := {[ "s9" := "Kista" ]};
     routes := ∅ |}.

(** A catalog whose trip map knows the route but no headsign. *)
Definition catalog_no_headsign : State :=
  {| tripToRouteMap :=
       Some {[ "14010000123456789" := {| r := "9011001001200000"; h := "" |} ]};
     routeDirections := None;
     stopsMap := {[ "s9" := "Kista" ]};
     routes := ∅ |}.

Definition feed (es : list FeedEntity) : Response :=
  {| ok := true; status := 200;
     body := {| byteLength := 4096; decode := Resolved {| entity := Some es |} |} |}.

(** Both feeds answer. *)
Definition net_ok : Network :=
  {| fetch_RT_VEHICLE_URL := Resolved (feed [entity_anon; entity_14]);
     fetch_RT_TRIP_UPDATES_URL := Resolved (feed [update_entity_14]) |}.

(** The position feed answers 502. *)
Definition net_502 : Network :=
  {| fetch_RT_VEHICLE_URL :=
       Resolved {| ok := false; status := 502;
                   body := {| byteLength := 0; decode := Rejected "index out of range" |} |};
     fetch_RT_TRIP_UPDATES_URL := Resolved (feed [update_entity_14]) |}.

(** The position feed answers bytes that do not decode. *)
Definition net_garbled : Network :=
  {| fetch_RT_VEHICLE_URL :=
       Resolved {| ok := true; status := 200;
                   body := {| byteLength := 4096;
                              decode := Rejected "invalid wire type" |} |};
     fetch_RT_TRIP_UPDATES_URL := Rejected "Failed to fetch" |}.

(** The vehicle that the example resolves to. *)
#[warnings="-inexact-float"]
Definition vehicle_14 : SLVehicle :=
  {| sv_id := "e14"; sv_line := "9011001001200000";
     sv_tripId := "14010000123456789";
     sv_operator := "SL / Entreprenör"; sv_vehicleNumber := "4711";
     sv_lat := 59.33%float; sv_lng := 18.06%float;
     sv_bearing := 90%float; sv_speed := 28.8%float;
     sv_destination := "Sollentuna"; sv_type := "Buss";
     sv_delay := Some 120 |}.

(** The same vehicle when the trip map has no headsign: the name of the
    last stop of the trip update stands in. *)
Definition vehicle_14_last_stop : SLVehicle :=
  {| sv_id := sv_id vehicle_14; sv_line := sv_line vehicle_14;
     sv_tripId := sv_tripId vehicle_14;
     sv_operator := sv_operator vehicle_14;
     sv_vehicleNumber := sv_vehicleNumber vehicle_14;
     sv_lat := sv_lat vehicle_14; sv_lng := sv_lng vehicle_14;
     sv_bearing := sv_bearing vehicle_14; sv_speed := sv_speed vehicle_14;
     sv_destination := "Kista"; sv_type := sv_type vehicle_14;
     sv_delay := sv_delay vehicle_14 |}.

#[warnings="-inexact-float"]
Definition speed_8 : float := 8.0%float.

#[warnings="-inexact-float"]
Definition kmh_28_8 : float := 28.8%float.

Definition route_12 : SLLineRoute :=
  {| lr_id := "9011001001200000"; lr_line := "12";
     lr_trip_ids := ["14010000999999999"] |}.

(** Two ingests for one trip, the later one stamped earlier. *)
#[warnings="-inexact-float"]
Definition sighting (tripId : string) (x : float) : HistoryApi.IngestVehicle :=
  {| HistoryApi.iv_tripId := Some tripId;
     HistoryApi.iv_line := Some "9011001001200000";
     HistoryApi.iv_id := Some "v1";
     HistoryApi.iv_lat := Some x; HistoryApi.iv_lng := Some 18.06%float |}.

#[warnings="-inexact-float"]
Definition calls : list (Z * list HistoryApi.IngestVehicle) :=
  [ (2000%Z, [sighting "14010000123456789" 59.34%float]);
    (1000%Z, [sighting "14010000123456789" 59.33%float; sighting "T2" 59.0%float]) ].

Definition empty_db : HistoryApi.Database :=
  {| HistoryApi.connected := true; HistoryApi.vehicle_trails := ∅ |}.

Definition db_down : HistoryApi.Database :=
  {| HistoryApi.connected := false; HistoryApi.vehicle_trails := ∅ |}.

(** The unreserved characters of a URL: letters, digits, [-], [.], [_]
    and [~]. *)
Definition unreserved (c : ascii) : bool :=
  let n := nat_of_ascii c in
  ((48 <=? n) && (n <=? 57) || (65 <=? n) && (n <=? 90) || (97 <=? n) && (n <=? 122)
   || (n =? 45) || (n =? 46) || (n =? 95) || (n =? 126))%nat.

(** What the parsers of the URL and of the query make of a trip id of
    unreserved characters, which arrives as it is. For any other id this
    stand-in answers that no parameter arrived. *)
Definition query_unreserved (t : string) : option HistoryApi.QueryValue :=
  if forallb unreserved (list_ascii_of_string t)
  then Some (HistoryApi.QString t) else None.

Definition manifest_entry (id line : string) : LineManifestEntry :=
  {| lm_id := id; lm_line := line; lm_description := "";
     lm_from := "A"; lm_to := "B" |}.

(** The manifest of the search example. *)
Definition manifest : list LineManifestEntry :=
  [manifest_entry "r40" "40"; manifest_entry "r14" "14"; manifest_entry "r4" "4"].

End Examples.

(** ** The effect of a batch on the documents *)

Module HistoryDocs.
Import HistoryApi.

(** The last vehicle of a batch that is written under a trip id: its
    [$set] is the one that stays. *)
Fixpoint last_for (tripId : string) (ops : list (string * IngestVehicle))
    : option IngestVehicle :=
  match ops with
  | [] => None
  | (t, v) :: rest =>
      match last_for tripId rest with
      | Some v' => Some v'
      | None => if decide (t = tripId) then Some v else None
      end
  end.

(** The four-hour window of api/ingest.ts and the two-hour window of
    api/cron.ts, in milliseconds. *)
Definition INGEST_WINDOW : Z := 4 * 60 * 60 * 1000.
Definition CRON_WINDOW : Z := 2 * 60 * 60 * 1000.

End HistoryDocs.

(** ** The scheduled writer (api/cron.ts) *)

Module Cron.
Import HistoryApi.

(** One element of [entities.map(...)] that passes the [filter]: the trip
    id with the fields that are written. [None] is an element that is
    [null] or lacks a coordinate. *)
Definition validVehicle (now : Z) (e : FeedEntity) : option (string * IngestVehicle) :=
  match fe_vehicle e with
  | None => None
  | Some vehicle =>
      match vp_trip vehicle with
      | None => None
      | Some trip =>
          let tripId := JS.or (td_tripId trip) (td_trip_id trip) in
          let routeId := JS.or (td_routeId trip) (td_route_id trip) in
          match JS.nonempty tripId with
          | None => None
          | Some tripId =>
              let vehicleId := default (fe_id e) (JS.nonempty (vp_vehicle vehicle ≫= vd_id)) in
              match vp_position vehicle with
              | None => None
              | Some position =>
                  Some (tripId,
                        {| iv_tripId := Some tripId;
                           iv_line := routeId;
                           iv_id := Some vehicleId;
                           iv_lat := Some (latitude position);
                           iv_lng := Some (longitude position) |})
              end
          end
      end
  end.

Inductive SaveResult :=
| SR_message (saved : nat) (message : string)
| SR_saved (saved modified upserted : nat).

(** [fetchAndSaveData]: [response] is what the upstream feed answers,
    [now] is [Date.now()], [coll] the collection [vehicle_trails]. A
    rejection is the exception that the caller's loop logs. *)
Definition fetchAndSaveData (response : Outcome SLService.Response) (now : Z)
    (coll : gmap string TrailDoc) : Outcome SaveResult * gmap string TrailDoc :=
  match response with
  | Rejected msg => (Rejected msg, coll)
  | Resolved response =>
      if negb (SLService.ok response)
      then (Rejected ("Upstream API failed: "
                      ++ JS.String_of_uint (SLService.status response)), coll)
      else
        match SLService.decode (SLService.body response) with
        | Rejected msg => (Rejected msg, coll)
        | Resolved object =>
            match default [] (entity object) with
            | [] => (Resolved (SR_message 0 "0 entities returned"), coll)
            | entities =>
                let expireTime := now + 2 * 60 * 60 * 1000 in
                match omap (validVehicle now) entities with
                | [] => (Resolved (SR_message 0 "No valid vehicles found"), coll)
                | ops =>
                    let '(coll', modified, upserted) :=
                      bulkWrite now expireTime ops coll in
                    (Resolved (SR_saved (List.length ops) modified upserted), coll')
                end
            end
        end
  end.

End Cron.

(** The operations that a run of [fetchAndSaveData] hands to [bulkWrite];
    none when the run stops before. *)
Module CronSpec.
Import HistoryApi.

Definition written (response : Outcome SLService.Response) (now : Z)
    : list (string * IngestVehicle) :=
  match response with
  | Resolved response =>
      if SLService.ok response then
        match SLService.decode (SLService.body response) with
        | Resolved object => omap (Cron.validVehicle now) (default [] (entity object))
        | Rejected _ => []
        end
      else []
  | Rejected _ => []
  end.

End CronSpec.

(** ** More string methods *)

Module JSString.

(** The white space that [trim] and [parseInt] strip is the code points
    WhiteSpace and LineTerminator of the language. Strings are held in
    UTF-8, so a code point is one to three bytes here.

    One byte: tab, line feed, vertical tab, form feed, carriage return and
    space. *)
Definition is_space (c : ascii) : bool :=
  let n := nat_of_ascii c in
  (n =? 32)%nat || ((9 <=? n)%nat && (n <=? 13)%nat).

(** Two bytes: U+00A0 (C2 A0). *)
Definition is_space2 (c1 c2 : ascii) : bool :=
  (nat_of_ascii c1 =? 194)%nat && (nat_of_ascii c2 =? 160)%nat.

(** Three bytes: U+1680 (E1 9A 80), U+2000 to U+200A (E2 80 80 to
    E2 80 8A), U+2028 and U+2029 (E2 80 A8, E2 80 A9), U+202F (E2 80 AF),
    U+205F (E2 81 9F), U+3000 (E3 80 80) and U+FEFF (EF BB BF). *)
Definition is_space3 (c1 c2 c3 : ascii) : bool :=
  let '(n1, n2, n3) := (nat_of_ascii c1, nat_of_ascii c2, nat_of_ascii c3) in
  ((n1 =? 225) && (n2 =? 154) && (n3 =? 128))%nat
  || ((n1 =? 226) && (n2 =? 128)
      && (((128 <=? n3) && (n3 <=? 138)) || (n3 =? 168) || (n3 =? 169) || (n3 =? 175)))%nat
  || ((n1 =? 226) && (n2 =? 129) && (n3 =? 159))%nat
  || ((n1 =? 227) && (n2 =? 128) && (n3 =? 128))%nat
  || ((n1 =? 239) && (n2 =? 187) && (n3 =? 191))%nat.

(** The leading white space taken off; [two] and [three] tell the
    sequences of two and of three bytes that are white space. *)
Fixpoint strip (two : ascii -> ascii -> bool) (three : ascii -> ascii -> ascii -> bool)
    (s : string) : string :=
  match s with
  | EmptyString => EmptyString
  | String c1 s1 =>
      if is_space c1 then strip two three s1
      else
        match s1 with
        | EmptyString => s
        | String c2 s2 =>
            if two c1 c2 then strip two three s2
            else
              match s2 with
              | EmptyString => s
              | String c3 s3 => if three c1 c2 c3 then strip two three s3 else s
              end
        end
  end.

(** [s.trimStart()] *)
Definition trimStart (s : string) : string := strip is_space2 is_space3 s.

Definition reverse (s : string) : string :=
  string_of_list_ascii (rev (list_ascii_of_string s)).

(** [s.trimEnd()]: the white space is taken off the reversed string, where
    the bytes of a code point come last byte first. *)
Definition trimEnd (s : string) : string :=
  reverse (strip (fun c2 c1 => is_space2 c1 c2)
                 (fun c3 c2 c1 => is_space3 c1 c2 c3)
                 (reverse s)).

(** [s.trim()] *)
Definition trim (s : string) : string := trimEnd (trimStart s).

(** [s.endsWith(t)] *)
Definition endsWith (s t : string) : bool :=
  bool_decide (list_ascii_of_string t `suffix_of` list_ascii_of_string s).

(** The UTF-16 code units of the character that starts with the byte [c]:
    none for a continuation byte, two when the character lies beyond
    U+FFFF and takes four bytes, one otherwise. *)
Definition code_units (c : ascii) : nat :=
  let n := nat_of_ascii c in
  if (n <? 128)%nat then 1%nat
  else if (n <? 192)%nat then 0%nat
  else if (n <? 240)%nat then 1%nat
  else 2%nat.

(** The second half of a character of four bytes, when a slice cuts it in
    two: the low surrogate, written as three bytes in the manner of
    UTF-8. *)
Definition low_surrogate (bytes : list ascii) : list ascii :=
  match bytes with
  | [_; _; b3; b4] =>
      [ascii_of_nat 237;
       ascii_of_nat (176 + nat_of_ascii b3 `mod` 16);
       b4]
  | _ => []
  end.

(** The last [n] code units of a string whose bytes are given last byte
    first; [pending] holds the continuation bytes of the character being
    read. *)
Fixpoint slice_last_rev (n : nat) (reversed pending : list ascii) : list ascii :=
  match reversed with
  | [] => []
  | c :: rest =>
      match code_units c with
      | O => slice_last_rev n rest (c :: pending)
      | S _ as u =>
          if (u <=? n)%nat
          then (slice_last_rev (n - u) rest [] ++ c :: pending)%list
          else if (n =? 1)%nat then low_surrogate (c :: pending)
          else []
      end
  end.

(** [s.slice(-n)]: the last [n] code units, all of [s] when it is
    shorter. *)
Definition slice_last (n : nat) (s : string) : string :=
  string_of_list_ascii (slice_last_rev n (rev (list_ascii_of_string s)) []).

(** [s.includes(q)] *)
Fixpoint includes (s q : string) : bool :=
  String.prefix q s ||
  match s with
  | EmptyString => false
  | String _ s' => includes s' q
  end.

End JSString.

(** ** Search for a vehicle by its number ([SLService.findVehicle]) *)

Module FindVehicle.
Import SLService.

(** [v.vehicle.label ? String(v.vehicle.label).trim() : ''], and the same
    for [v.vehicle.id]. *)
Definition trimmed (field : option string) : string :=
  match JS.nonempty field with
  | Some s => JSString.trim s
  | None => ""
  end.

(** [label === target || (vid && vid.endsWith(target))] *)
Definition matches (target : string) (vd : VehicleDescriptor) : bool :=
  let label := trimmed (vd_label vd) in
  let vid := trimmed (vd_id vd) in
  String.eqb label target
  || (negb (String.eqb vid "") && JSString.endsWith vid target).

(** [this.tripToRouteMap[tripId].r] when [this.tripToRouteMap[tripId]] is
    truthy, for a trip map [m] parsed from JSON: an entry of the map gives
    its route; a name that the object inherits gives a function, or the
    prototype, whose [r] is [undefined]; any other trip id leaves the
    route of the feed. *)
Definition mapped_route (m : gmap string TripMapEntry) (tripId : string)
    (routeId : option string) : option string :=
  match m !! tripId with
  | Some mapEntry => Some (r mapEntry)
  | None =>
      if bool_decide (tripId ∈ JS.Object_prototype_keys) then None else routeId
  end.

(** The [for] loop over the position entities. A rejection is the
    [TypeError] of reading [v.position.latitude] when the entity has no
    position. *)
Fixpoint findVehicle_loop (svc : State) (target : string)
    (posEntities : list FeedEntity) : Outcome (option (SLVehicle * string)) :=
  match posEntities with
  | [] => Resolved None
  | e :: rest =>
      match fe_vehicle e with
      | None => findVehicle_loop svc target rest
      | Some v =>
          match vp_vehicle v with
          | None => findVehicle_loop svc target rest
          | Some vd =>
              if matches target vd then
                let vid := trimmed (vd_id vd) in
                let tripId :=
                  vp_trip v ≫= fun trip => JS.or (td_tripId trip) (td_trip_id trip) in
                let routeId :=
                  vp_trip v ≫= fun trip => JS.or (td_routeId trip) (td_route_id trip) in
                let routeId :=
                  match JS.nonempty tripId, tripToRouteMap svc with
                  | Some tid, Some m => mapped_route m tid routeId
                  | _, _ => routeId
                  end in
                match JS.nonempty routeId with
                | None => findVehicle_loop svc target rest
                | Some routeId =>
                    match vp_position v with
                    | None =>
                        Rejected "TypeError: Cannot read properties of undefined"
                    | Some position =>
                        Resolved (Some
                          ({| sv_id := default (fe_id e) (JS.nonempty (vd_id vd));
                              sv_line := routeId;
                              sv_tripId := default "" (JS.nonempty tripId);
                              sv_operator := "SL";
                              sv_vehicleNumber :=
                                default (JSString.slice_last 4 vid)
                                        (JS.nonempty (vd_label vd));
                              sv_lat := latitude position;
                              sv_lng := longitude position;
                              sv_bearing := JS.or_zero (bearing position);
                              sv_speed :=
                                PrimFloat.mul (JS.or_zero (speed position)) MS_TO_KMH;
                              sv_destination := "";
                              sv_type := "Buss";
                              sv_delay := None |},
                           routeId))
                    end
                end
              else findVehicle_loop svc target rest
          end
      end
  end.

(** The body of the second [try] block. *)
Definition findVehicle_try (svc : State) (fetch_RT_VEHICLE_URL : Outcome Response)
    (vehicleNumber : string) : Outcome (option (SLVehicle * string)) :=
  posRes ← fetch_RT_VEHICLE_URL;
  if negb (ok posRes)
  then Rejected ("API Error: " ++ JS.String_of_uint (status posRes))
  else
    posObject ← decode (body posRes);
    let posEntities := default [] (entity posObject) in
    let target := JSString.trim vehicleNumber in
    findVehicle_loop svc target posEntities.

(** [findVehicle] of an initialised service. *)
Definition findVehicle (svc : State) (fetch_RT_VEHICLE_URL : Outcome Response)
    (vehicleNumber : string) : Outcome (option (SLVehicle * string)) :=
  try_catch (findVehicle_try svc fetch_RT_VEHICLE_URL vehicleNumber) None.

End FindVehicle.

(** ** Search for lines and stops ([SLService.search]) *)

Module Search.
Import SLService.

Record SLStop := {
  st_id : string;
  st_name : string;
  st_lat : PrimFloat.float;
  st_lng : PrimFloat.float;
  st_lines : list string
}.

(** An [SLLineRoute] with its path and its stops. *)
Record SLLineRouteFull := {
  lrf_route : SLLineRoute;
  lrf_path : list (PrimFloat.float * PrimFloat.float);
  lrf_stops : option (list SLStop)
}.

(** The two object stores of the database. *)
Record IDB := {
  idb_stops : gmap string SLStop;
  idb_routes : gmap string LineManifestEntry
}.

(** The order of the index [name]: by key, then by primary key. *)
Definition index_name_leb (a b : SLStop) : bool :=
  match String.compare (st_name a) (st_name b) with
  | Lt => true
  | Eq => String.leb (st_id a) (st_id b)
  | Gt => false
  end.

Definition openCursor_name (store : gmap string SLStop) : list SLStop :=
  sort_by index_name_leb (snd <$> map_to_list store).

Definition stopResult (stop : SLStop) : SearchResult :=
  {| sr_type := stop_result; sr_id := st_id stop;
     sr_title := st_name stop; sr_subtitle := "Hållplats" |}.

Section WithToLowerCase.
(** [String.prototype.toLowerCase] *)
Variable toLowerCase : string -> string.

Fixpoint searchStops_onsuccess (query : string) (cursor : list SLStop)
    (results : list SearchResult) : list SearchResult :=
  match cursor with
  | [] => results
  | stop :: continue =>
      let results :=
        if JSString.includes (toLowerCase (st_name stop)) query
        then (results ++ [stopResult stop])%list
        else results in
      if (List.length results <? 10)%nat
      then searchStops_onsuccess query continue results
      else results
  end.

Definition searchStops (query : string) (db : IDB) : list SearchResult :=
  searchStops_onsuccess query (openCursor_name (idb_stops db)) [].

(** The stop results of a search within an active route. *)
Definition routeStopResult (activeRoute : SLLineRouteFull) (stop : SLStop) : SearchResult :=
  {| sr_type := stop_result; sr_id := st_id stop; sr_title := st_name stop;
     sr_subtitle := "På linje " ++ lr_line (lrf_route activeRoute) |}.

(** [search] of an initialised service. *)
Definition search (db : IDB) (query : string) (activeRoute : option SLLineRouteFull)
    : list SearchResult :=
  if (String.length (JSString.trim query) <? 1)%nat then []
  else
    let q := toLowerCase query in
    let global :=
      let stops := searchStops q db in
      let lines := searchLines toLowerCase q (idb_routes db) in
      take 15 (lines ++ stops) in
    match activeRoute with
    | Some activeRoute =>
        match lrf_stops activeRoute with
        | Some stops =>
            let stopResults :=
              routeStopResult activeRoute
                <$> filter (fun stop =>
                              JSString.includes (toLowerCase (st_name stop)) q = true)
                           stops in
            let lineResults := searchLines toLowerCase q (idb_routes db) in
            take 15 (lineResults ++ stopResults)
        | None => global
        end
    | None => global
    end.
End WithToLowerCase.

End Search.

(** The route of a matching entity as [findVehicle] computes it: the trip
    map's, when the trip is in the map, wins over the entity's own. *)
Module FindVehicleSpec.
Import SLService.

Definition route_of (svc : State) (v : VehiclePosition) : option string :=
  let tripId := vp_trip v ≫= fun trip => JS.or (td_tripId trip) (td_trip_id trip) in
  let routeId := vp_trip v ≫= fun trip => JS.or (td_routeId trip) (td_route_id trip) in
  JS.nonempty
    match JS.nonempty tripId, tripToRouteMap svc with
    | Some tid, Some m => FindVehicle.mapped_route m tid routeId
    | _, _ => routeId
    end.

(** An entity at which the loop of [findVehicle] stops: its vehicle
    descriptor matches the number and it has a route. *)
Definition hit (svc : State) (target : string) (e : FeedEntity) : bool :=
  match fe_vehicle e with
  | Some v =>
      match vp_vehicle v with
      | Some vd => FindVehicle.matches target vd && bool_decide (is_Some (route_of svc v))
      | None => false
      end
  | None => false
  end.

End FindVehicleSpec.

(** ** More sample data *)

Module MoreExamples.
Import SLService.

(** A vehicle whose feed entry names route 99 while the trip map files its
    trip under route 9011001001200000. *)
Definition trip_14_r99 : TripDescriptor :=
  {| td_tripId := Some "14010000123456789"; td_trip_id := None;
     td_routeId := Some "99"; td_route_id := None;
     td_directionId := None; td_direction_id := None |}.

Definition vd_4711 : VehicleDescriptor :=
  {| vd_id := Some "9031001004711"; vd_label := None |}.

Definition vp_r99 : VehiclePosition :=
  {| vp_trip := Some trip_14_r99; vp_vehicle := Some vd_4711;
     vp_position := Some Examples.pos_14 |}.

Definition entity_r99 : FeedEntity :=
  {| fe_id := "e99"; fe_tripUpdate := None; fe_vehicle := Some vp_r99 |}.

(** The same vehicle without a position. *)
Definition vp_nowhere : VehiclePosition :=
  {| vp_trip := Some trip_14_r99; vp_vehicle := Some vd_4711;
     vp_position := None |}.

Definition entity_nowhere : FeedEntity :=
  {| fe_id := "e98"; fe_tripUpdate := None; fe_vehicle := Some vp_nowhere |}.

(** The same vehicle on a trip whose id is a name that every object
    inherits: the trip map has no such trip, and yet
    [tripToRouteMap["constructor"]] is a function. *)
Definition vp_constructor : VehiclePosition :=
  {| vp_trip := Some {| td_tripId := Some "constructor"; td_trip_id := None;
                        td_routeId := Some "99"; td_route_id := None;
                        td_directionId := None; td_direction_id := None |};
     vp_vehicle := Some vd_4711;
     vp_position := Some Examples.pos_14 |}.

Definition entity_constructor : FeedEntity :=
  {| fe_id := "e97"; fe_tripUpdate := None; fe_vehicle := Some vp_constructor |}.

Definition stop (id name : string) : Search.SLStop :=
  {| Search.st_id := id; Search.st_name := name;
     Search.st_lat := PrimFloat.one; Search.st_lng := PrimFloat.two;
     Search.st_lines := [] |}.

Definition idb : Search.IDB :=
  {| Search.idb_stops :=
       <["s1" := stop "s1" "Sollentuna station"]>
         (<["s2" := stop "s2" "Solna centrum"]> ∅);
     Search.idb_routes := putRoutes Examples.manifest |}.

(** A store where the query "4" finds lines and a stop, and where a stop
    has a name with letters outside ASCII. *)
Definition idb_mixed : Search.IDB :=
  {| Search.idb_stops :=
       <["s4" := stop "s4" "Terminal 4"]>
         (<["s7" := stop "s7" "Älvsjö station"]> ∅);
     Search.idb_routes := putRoutes Examples.manifest |}.

(** [toLowerCase] on text of ASCII and Latin-1 letters: in UTF-8 the
    capital letters U+00C0 to U+00DE (but U+00D7, the multiplication sign)
    are C3 80 to C3 9E, and their small letters are 32 further. A stand-in
    for the samples. *)
Definition lower_latin1_tail (c : ascii) : ascii :=
  let n := nat_of_ascii c in
  if (128 <=? n)%nat && (n <=? 158)%nat && negb (n =? 151)%nat
  then ascii_of_nat (n + 32) else c.

Fixpoint lower_latin1 (s : string) : string :=
  match s with
  | EmptyString => EmptyString
  | String c1 s1 =>
      if (nat_of_ascii c1 =? 195)%nat then
        match s1 with
        | EmptyString => String c1 EmptyString
        | String c2 s2 => String c1 (String (lower_latin1_tail c2) (lower_latin1 s2))
        end
      else String (JS.lower_ascii c1) (lower_latin1 s1)
  end.

Definition route_40 : Search.SLLineRouteFull :=
  {| Search.lrf_route := {| lr_id := "r40"; lr_line := "40"; lr_trip_ids := [] |};
     Search.lrf_path := [];
     Search.lrf_stops := Some [stop "s1" "Sollentuna station"; stop "s9" "Kista"] |}.

End MoreExamples.

(** ** [parseInt] on a string *)

Module JSNumber.

Definition is_digit (c : ascii) : bool :=
  let n := nat_of_ascii c in (48 <=? n)%nat && (n <=? 57)%nat.

Definition is_hex_digit (c : ascii) : bool :=
  let n := nat_of_ascii c in
  is_digit c || ((97 <=? n)%nat && (n <=? 102)%nat)
             || ((65 <=? n)%nat && (n <=? 70)%nat).

Fixpoint takeWhile (p : ascii -> bool) (s : string) : string :=
  match s with
  | EmptyString => EmptyString
  | String c s' => if p c then String c (takeWhile p s') else EmptyString
  end.

(** The digits of a string, read in base 10 or 16; [None] when there is
    none. *)
Definition digits10 (s : string) : option Z :=
  (fun d => Z.of_N (N.of_uint d)) <$> NilZero.uint_of_string (takeWhile is_digit s).

Definition digits16 (s : string) : option Z :=
  match takeWhile is_hex_digit s with
  | EmptyString => None
  | ds =>
      (fun d => Z.of_N (N.of_hex_uint d))
        <$> HexadecimalString.NilEmpty.uint_of_string (JS.toLowerCase_ascii ds)
  end.

(** [parseInt(s)] without a radix: leading white space is skipped, a sign
    is read, [0x] or [0X] switches to base 16, and the longest run of
    digits is the value; [None] is [NaN]. The value is the exact integer
    (a double holds it exactly up to 2^53). *)
Definition parseInt (s : string) : option Z :=
  let s := JSString.trimStart s in
  let '(sign, s) :=
    match s with
    | String "-" s' => ((-1)%Z, s')
    | String "+" s' => (1%Z, s')
    | _ => (1%Z, s)
    end in
  match s with
  | String "0" (String "x" s') | String "0" (String "X" s') =>
      Z.mul sign <$> digits16 s'
  | _ => Z.mul sign <$> digits10 s
  end.

End JSNumber.

(** ** The static data of the service ([SLService.initialize]) *)

Module StaticData.

Definition CACHE_DURATION : Z := 1000 * 60 * 60 * 24 * 7.

(** The answer to the [fetch] of a JSON file: [f_ok] is [response.ok],
    [f_isJson] tells whether the content type holds [application/json],
    [f_json] is what [response.json()] resolves with. *)
Record JsonFile (A : Type) := {
  f_ok : bool;
  f_isJson : bool;
  f_json : Outcome A
}.
Arguments f_ok {A} _.
Arguments f_isJson {A} _.
Arguments f_json {A} _.

(** What is outside the service during one call of [initialize]. *)
Record World := {
  manifest_json : Outcome (JsonFile (list SLService.LineManifestEntry));
  stops_json : Outcome (JsonFile (list Search.SLStop));
  trip_to_route_json : Outcome (JsonFile (gmap string SLService.TripMapEntry));
  route_directions_json : Outcome (JsonFile (gmap string (gmap string string)));
  now : Z;            (* Date.now() *)
  tx_completes : bool (* whether the readwrite transaction commits *)
}.

(** What the browser keeps between sessions: the time stamp in
    [localStorage] and the database. *)
Record Browser := {
  sl_static_timestamp : option string;
  db : Search.IDB
}.

(** The fields of the service that [initialize] sets. *)
Record Service := {
  isInitialized : bool;
  tripToRouteMap : option (gmap string SLService.TripMapEntry);
  routeDirections : option (gmap string (gmap string string));
  stopsMap : gmap string string
}.

(** A service as the page creates it. *)
Definition new_service : Service :=
  {| isInitialized := false; tripToRouteMap := None;
     routeDirections := None; stopsMap := ∅ |}.

(** [stops.forEach(s => this.stopsMap.set(s.id, s.name))] *)
Definition setStopNames (stops : list Search.SLStop) (stopsMap : gmap string string)
    : gmap string string :=
  foldl (fun m s => <[Search.st_id s := Search.st_name s]> m) stopsMap stops.

(** [stops.forEach(stop => stopStore.put(stop))] on the cleared store. *)
Definition putStops (stops : list Search.SLStop) : gmap string Search.SLStop :=
  foldl (fun store stop => <[Search.st_id stop := stop]> store) ∅ stops.

(** The two files, read as the [try] block reads them. *)
Definition fetchStaticFiles (w : World)
    : Outcome (list SLService.LineManifestEntry * list Search.SLStop) :=
  manifestRes ← manifest_json w;
  stopsRes ← stops_json w;
  if negb (f_ok manifestRes) || negb (f_ok stopsRes)
     || negb (f_isJson manifestRes) || negb (f_isJson stopsRes)
  then Rejected "Static files missing or invalid format."
  else
    manifest ← f_json manifestRes;
    stops ← f_json stopsRes;
    Resolved (manifest, stops).

(** [loadStaticDataFromFiles]: every exception is caught and logged. The
    stop names are set before the transaction, so they stay when it does
    not commit. *)
Definition loadStaticDataFromFiles (w : World) (svc : Service) (br : Browser)
    : Service * Browser :=
  match fetchStaticFiles w with
  | Rejected _ => (svc, br)
  | Resolved (manifest, stops) =>
      let svc' :=
        {| isInitialized := isInitialized svc;
           tripToRouteMap := tripToRouteMap svc;
           routeDirections := routeDirections svc;
           stopsMap := setStopNames stops (stopsMap svc) |} in
      if tx_completes w then
        (svc',
         {| sl_static_timestamp := Some (JS.String_of_int (now w));
            db := {| Search.idb_stops := putStops stops;
                     Search.idb_routes := SLService.putRoutes manifest |} |})
      else (svc', br)
  end.

(** [loadStopsFromDB] *)
Definition loadStopsFromDB (svc : Service) (br : Browser) : Service :=
  {| isInitialized := isInitialized svc;
     tripToRouteMap := tripToRouteMap svc;
     routeDirections := routeDirections svc;
     stopsMap :=
       setStopNames (snd <$> map_to_list (Search.idb_stops (db br))) (stopsMap svc) |}.

(** [loadAuxiliaryMaps]: a map is set when its file is there, is JSON and
    parses; an exception leaves what was set before it. *)
Definition loadAuxiliaryMaps (w : World) (svc : Service) : Service :=
  match trip_to_route_json w, route_directions_json w with
  | Resolved tripRes, Resolved dirRes =>
      let after_trips :=
        if f_ok tripRes && f_isJson tripRes then
          m ← f_json tripRes;
          Resolved {| isInitialized := isInitialized svc;
                      tripToRouteMap := Some m;
                      routeDirections := routeDirections svc;
                      stopsMap := stopsMap svc |}
        else Resolved svc in
      match after_trips with
      | Rejected _ => svc
      | Resolved svc1 =>
          if f_ok dirRes && f_isJson dirRes then
            match f_json dirRes with
            | Resolved d =>
                {| isInitialized := isInitialized svc1;
                   tripToRouteMap := tripToRouteMap svc1;
                   routeDirections := Some d;
                   stopsMap := stopsMap svc1 |}
            | Rejected _ => svc1
            end
          else svc1
      end
  | _, _ => svc
  end.

(** [!lastUpdate || (now - parseInt(lastUpdate)) > CACHE_DURATION] *)
Definition cacheIsStale (lastUpdate : option string) (now : Z) : bool :=
  match JS.nonempty lastUpdate with
  | None => true
  | Some lastUpdate =>
      match JSNumber.parseInt lastUpdate with
      | Some t => (CACHE_DURATION <? now - t)%Z
      | None => false
      end
  end.

(** [initialize], with a database that opens. *)
Definition initialize (w : World) (svc : Service) (br : Browser) : Service * Browser :=
  if isInitialized svc then (svc, br)
  else
    let lastUpdate := sl_static_timestamp br in
    let '(svc1, br1) :=
      if cacheIsStale lastUpdate (now w)
      then loadStaticDataFromFiles w svc br
      else (loadStopsFromDB svc br, br) in
    let svc2 := loadAuxiliaryMaps w svc1 in
    ({| isInitialized := true;
        tripToRouteMap := tripToRouteMap svc2;
        routeDirections := routeDirections svc2;
        stopsMap := stopsMap svc2 |}, br1).

(** [getStopInfo] and [getManifest] on the database. *)
Definition getStopInfo (br : Browser) (stopId : string) : option Search.SLStop :=
  Search.idb_stops (db br) !! stopId.

Definition getManifest (br : Browser) : list SLService.LineManifestEntry :=
  sort_by (fun a b => String.leb (SLService.lm_id a) (SLService.lm_id b))
          (snd <$> map_to_list (Search.idb_routes (db br))).

(** The state that [getLiveVehicles] reads. *)
Definition state_of (svc : Service) (br : Browser) : SLService.State :=
  {| SLService.tripToRouteMap := tripToRouteMap svc;
     SLService.routeDirections := routeDirections svc;
     SLService.stopsMap := stopsMap svc;
     SLService.routes := Search.idb_routes (db br) |}.

(** The last stop of a file with a given id. *)
Definition last_stop (stopId : string) (stops : list Search.SLStop)
    : option Search.SLStop :=
  foldl (fun found s => if decide (Search.st_id s = stopId) then Some s else found)
        None stops.

(** A store as [keyPath: 'id'] keeps it: every stop is filed under its
    own id. *)
Definition keyed_by_id (store : gmap string Search.SLStop) : Prop :=
  forall key stop, store !! key = Some stop -> Search.st_id stop = key.

End StaticData.

Module StaticSpec.

(** The last route of a manifest with a given id. *)
Definition last_route (routeId : string) (manifest : list SLService.LineManifestEntry)
    : option SLService.LineManifestEntry :=
  foldl (fun found route =>
           if decide (SLService.lm_id route = routeId) then Some route else found)
        None manifest.

(** Sample files and sessions. *)
Definition good_file {A} (x : A) : Outcome (StaticData.JsonFile A) :=
  Resolved {| StaticData.f_ok := true; StaticData.f_isJson := true;
              StaticData.f_json := Resolved x |}.

Definition missing_file {A} : Outcome (StaticData.JsonFile A) :=
  Resolved {| StaticData.f_ok := false; StaticData.f_isJson := false;
              StaticData.f_json := Rejected "Unexpected token <" |}.

(** A page that serves HTML with status 200 for a missing JSON file whose
    content type still says JSON. *)
Definition broken_file {A} : Outcome (StaticData.JsonFile A) :=
  Resolved {| StaticData.f_ok := true; StaticData.f_isJson := true;
              StaticData.f_json := Rejected "Unexpected token <" |}.

Definition world_ok (now : Z) : StaticData.World :=
  {| StaticData.manifest_json := good_file Examples.manifest;
     StaticData.stops_json :=
       good_file [MoreExamples.stop "s9" "Kista"; MoreExamples.stop "s9" "Kista C"];
     StaticData.trip_to_route_json :=
       good_file {[ "14010000123456789" :=
                      {| SLService.r := "9011001001200000";
                         SLService.h := "Sollentuna" |} ]};
     StaticData.route_directions_json := good_file ∅;
     StaticData.now := now;
     StaticData.tx_completes := true |}.

Definition world_offline (now : Z) : StaticData.World :=
  {| StaticData.manifest_json := missing_file;
     StaticData.stops_json := missing_file;
     StaticData.trip_to_route_json := broken_file;
     StaticData.route_directions_json := good_file ∅;
     StaticData.now := now;
     StaticData.tx_completes := true |}.

Definition empty_browser : StaticData.Browser :=
  {| StaticData.sl_static_timestamp := None;
     StaticData.db := {| Search.idb_stops := ∅; Search.idb_routes := ∅ |} |}.

(** A browser whose cache went stale, with one stop in the database. *)
Definition stale_browser : StaticData.Browser :=
  {| StaticData.sl_static_timestamp := Some "1000";
     StaticData.db :=
       {| Search.idb_stops := {[ "s1" := MoreExamples.stop "s1" "Sollentuna station" ]};
          Search.idb_routes := ∅ |} |}.

End StaticSpec.

(** ** What the page shows (App.tsx) *)

Module AppView.
Import SLService.

Section Literals.
Import PrimFloat.
Definition PAD : float := 0.5%float.
End Literals.

(** [new Map(manifestData.map(item => [item.id, item]))] *)
Definition manifestMap (manifestData : list LineManifestEntry)
    : gmap string LineManifestEntry :=
  foldl (fun m item => <[lm_id item := item]> m) ∅ manifestData.

(** The [init] effect: the service is initialised and the manifest of the
    database becomes [routeManifest]. *)
Definition init (w : StaticData.World) (svc : StaticData.Service)
    (br : StaticData.Browser)
    : gmap string LineManifestEntry * (StaticData.Service * StaticData.Browser) :=
  let '(svc', br') := StaticData.initialize w svc br in
  (manifestMap (StaticData.getManifest br'), (svc', br')).

Definition getLineDisplayName (routeManifest : gmap string LineManifestEntry)
    (activeRoute : option SLLineRoute) : string :=
  match activeRoute with
  | None => ""
  | Some activeRoute =>
      match routeManifest !! lr_id activeRoute with
      | Some manifestEntry =>
          "Linje " ++ lr_line activeRoute ++ " " ++ lm_from manifestEntry
          ++ " – " ++ lm_to manifestEntry
      | None => "Linje " ++ lr_line activeRoute
      end
  end.

Section View.
(** The bounds of the map are Leaflet's: [pad] and [contains] are its
    [LatLngBounds.pad] and [LatLngBounds.contains]. *)
Variable Bounds : Type.
Variable pad : Bounds -> PrimFloat.float -> Bounds.
Variable contains : Bounds -> PrimFloat.float -> PrimFloat.float -> bool.

(** The state of the page that the two functions below read. *)
Record View := {
  isApiConfigured : option bool;
  vehicles : list SLVehicle;
  activeRoute : option SLLineRoute;
  liveStatus : App.LiveStatus;
  showAllVehicles : bool;
  visibleBounds : option Bounds
}.

Definition visibleVehicles (st : View) : list SLVehicle :=
  let filtered :=
    match activeRoute st, showAllVehicles st with
    | Some activeRoute, false =>
        Some (filter (fun v => sv_line v = lr_id activeRoute
                               \/ sv_tripId v ∈ lr_trip_ids activeRoute)
                     (vehicles st))
    | None, false => None
    | _, true => Some (vehicles st)
    end in
  match filtered with
  | None => []
  | Some filtered =>
      match visibleBounds st with
      | None => []
      | Some visibleBounds =>
          let paddedBounds := pad visibleBounds PAD in
          filter (fun v => contains paddedBounds (sv_lat v) (sv_lng v) = true) filtered
      end
  end.

Definition getStatusText (st : View) : string :=
  match isApiConfigured st with
  | Some true =>
      match liveStatus st with
      | App.loading => "Startar sökning..."
      | App.error => "Anslutningsfel"
      | App.ok =>
          match activeRoute st, showAllVehicles st with
          | Some activeRoute, false =>
              let routeVehicles :=
                filter (fun v => sv_line v = lr_id activeRoute) (vehicles st) in
              JS.String_of_int (Z.of_nat (List.length routeVehicles))
              ++ " fordon på linje " ++ lr_line activeRoute
          | Some activeRoute, true =>
              "Linje " ++ lr_line activeRoute ++ " + Övrig trafik"
          | None, true =>
              JS.String_of_int (Z.of_nat (List.length (vehicles st)))
              ++ " fordon i trafik"
          | None, false =>
              JS.String_of_int (Z.of_nat (List.length (vehicles st)))
              ++ " fordon i realtid"
          end
      end
  | _ => "API ej konfigurerad"
  end.
End View.

Arguments isApiConfigured {Bounds} _.
Arguments vehicles {Bounds} _.
Arguments activeRoute {Bounds} _.
Arguments liveStatus {Bounds} _.
Arguments showAllVehicles {Bounds} _.
Arguments visibleBounds {Bounds} _.
Arguments visibleVehicles {Bounds} _ _ _.
Arguments getStatusText {Bounds} _.

End AppView.

Module ViewExamples.
Import AppView.

(** A map without padding that holds every point. *)
Definition no_pad (b : unit) (_ : PrimFloat.float) : unit := b.
Definition everywhere (_ : unit) (_ _ : PrimFloat.float) : bool := true.

Definition sample_view (vs : list SLService.SLVehicle)
    (route : option SLService.SLLineRoute) : View unit :=
  {| isApiConfigured := Some true; vehicles := vs; activeRoute := route;
     liveStatus := App.ok; showAllVehicles := false; visibleBounds := Some tt |}.

(** A vehicle on a trip that the route lists. *)
Definition vehicle_99 : SLService.SLVehicle :=
  {| SLService.sv_id := "e99";
     SLService.sv_line := SLService.sv_line Examples.vehicle_14;
     SLService.sv_tripId := "14010000999999999";
     SLService.sv_operator := SLService.sv_operator Examples.vehicle_14;
     SLService.sv_vehicleNumber := "4712";
     SLService.sv_lat := SLService.sv_lat Examples.vehicle_14;
     SLService.sv_lng := SLService.sv_lng Examples.vehicle_14;
     SLService.sv_bearing := SLService.sv_bearing Examples.vehicle_14;
     SLService.sv_speed := SLService.sv_speed Examples.vehicle_14;
     SLService.sv_destination := SLService.sv_destination Examples.vehicle_14;
     SLService.sv_type := SLService.sv_type Examples.vehicle_14;
     SLService.sv_delay := None |}.

End ViewExamples.

Lemma parseInt_int (n : Z) : JS.parseInt n = n.
Proof.
  unfold JS.parseInt, JS.parseInt_string, JS.String_of_int.
  rewrite NilZero.isi.
  - simpl. apply DecimalZ.of_to.
  - destruct n; simpl; try discriminate.
    intros [= H]. now apply DecimalPos.Unsigned.to_uint_nonnil in H.
  - destruct n; simpl; try discriminate.
    intros [= H]. now apply DecimalPos.Unsigned.to_uint_nonnil in H.
Qed.

(** ** Facts about the JavaScript operators *)

Lemma nonempty_Some (o : option string) (s : string) :
  JS.nonempty o = Some s <-> o = Some s /\ s <> "".
Proof.
  unfold JS.nonempty. destruct o as [t|]; [|split; [done|by intros [? _]]].
  destruct (String.eqb_spec t "") as [->|Hne].
  - split; [discriminate|]. by intros [[= <-] ?].
  - split.
    + intros [= <-]. by split.
    + by intros [? _].
Qed.

Lemma nonempty_None (o : option string) :
  JS.nonempty o = None <-> JS.truthy o = false.
Proof.
  unfold JS.nonempty, JS.truthy. destruct o as [t|]; [|done].
  by destruct (String.eqb t "").
Qed.

Lemma truthy_nonempty (o : option string) :
  JS.truthy o = true -> JS.nonempty o = o.
Proof.
  unfold JS.nonempty, JS.truthy. destruct o as [t|]; [|done].
  by destruct (String.eqb t "").
Qed.

Lemma nonempty_or (a b : option string) :
  JS.nonempty (JS.or a b) =
  match JS.nonempty a with Some s => Some s | None => JS.nonempty b end.
Proof.
  unfold JS.or. destruct (JS.truthy a) eqn:Ha.
  - rewrite (truthy_nonempty a Ha). destruct a; [done|discriminate].
  - apply nonempty_None in Ha. by rewrite Ha.
Qed.

(** ** The trip-update index *)

Section TripInfoMap.
Import SLService.

Lemma indexTripUpdate_lookup (updateEntities : list FeedEntity) :
  forall (m : gmap string TripUpdateInfo) found tripId,
    m !! tripId = Spec.info_of <$> found ->
    foldl indexTripUpdate m updateEntities !! tripId =
    Spec.info_of <$>
      foldl (fun found e =>
               match fe_tripUpdate e with
               | Some tu =>
                   match tu_trip tu with
                   | Some trip =>
                       if decide (Spec.tripId_of trip = Some tripId)
                       then Some (tu, trip) else found
                   | None => found
                   end
               | None => found
               end) found updateEntities.
Proof.
  induction updateEntities as [|e es IH]; intros m found tripId Hm; [done|].
  simpl. apply IH. unfold indexTripUpdate.
  destruct (fe_tripUpdate e) as [tu|]; [|done].
  destruct (tu_trip tu) as [trip|]; [|done].
  fold (Spec.tripId_of trip).
  destruct (Spec.tripId_of trip) as [k|] eqn:Hk.
  - destruct (decide (k = tripId)) as [->|Hne].
    + rewrite lookup_insert_eq. by rewrite decide_True.
    + rewrite lookup_insert_ne by done. rewrite decide_False by congruence. done.
  - by rewrite decide_False.
Qed.

(** The index holds, under a trip id, the information of the joined
    trip-update entity. *)
Lemma buildTripInfoMap_lookup (updateEntities : list FeedEntity) (tripId : string) :
  buildTripInfoMap updateEntities !! tripId =
  Spec.info_of <$> Spec.joined updateEntities tripId.
Proof.
  unfold buildTripInfoMap, Spec.joined.
  apply indexTripUpdate_lookup. by rewrite lookup_empty.
Qed.
End TripInfoMap.

(** ** The position loop against the specification's rules *)

Section Resolver.
Import SLService.

Lemma unresolved_false (x : string) :
  x <> "" -> x <> Okand -> unresolved x = false.
Proof.
  intros H1 H2. unfold unresolved.
  apply String.eqb_neq in H1, H2. by rewrite H1, H2.
Qed.

Lemma headsign_step_resolved (x : string) (cs : list (option string)) :
  unresolved x = false -> foldl Spec.headsign_step x cs = x.
Proof.
  intros Hx. induction cs as [|c cs IH]; [done|].
  simpl. unfold Spec.headsign_step at 2. by rewrite Hx.
Qed.

(** Folding the chain from the placeholder picks the first candidate
    that is neither empty nor the placeholder. *)
Lemma headsign_chain (cs : list (option string)) :
  foldl Spec.headsign_step Okand cs = default Okand (Spec.first_resolved cs).
Proof.
  induction cs as [|c cs IH]; [done|].
  simpl. unfold Spec.headsign_step at 2.
  change (unresolved Okand) with true. cbv iota.
  destruct (JS.nonempty c) as [x|] eqn:Hc; [|done].
  destruct (String.eqb_spec x Okand) as [->|Hne]; [done|].
  apply nonempty_Some in Hc as [_ Hx].
  by rewrite headsign_step_resolved by by apply unresolved_false.
Qed.

Lemma lastStopId_name (svc : State) (tu : TripUpdate) (trip : TripDescriptor) :
  JS.nonempty (ti_lastStopId (tripInfoOf tu trip)) ≫= (fun sid => stopsMap svc !! sid)
  = Spec.last_stop_name svc tu.
Proof.
  unfold tripInfoOf, Spec.last_stop_name.
  destruct (tu_stopTimeUpdate tu) as [[|firstUpdate rest]|]; simpl; try done.
  by destruct (last (firstUpdate :: rest)).
Qed.

Lemma tripInfoOf_routeId (tu : TripUpdate) (trip : TripDescriptor) :
  ti_routeId (tripInfoOf tu trip) = Spec.routeId_of trip.
Proof.
  unfold tripInfoOf. by destruct (tu_stopTimeUpdate tu) as [[|? ?]|].
Qed.

Lemma tripInfoOf_directionId (tu : TripUpdate) (trip : TripDescriptor) :
  ti_directionId (tripInfoOf tu trip) = Spec.directionId_of trip.
Proof.
  unfold tripInfoOf. by destruct (tu_stopTimeUpdate tu) as [[|? ?]|].
Qed.

Lemma firstUpdate_delay_spec (u : StopTimeUpdate) :
  firstUpdate_delay u = Spec.delay_of u.
Proof.
  unfold firstUpdate_delay, Spec.delay_of.
  destruct (stu_arrival u ≫= ste_delay); [by rewrite parseInt_int|].
  destruct (stu_departure u ≫= ste_delay); [by rewrite parseInt_int|done].
Qed.

Lemma tripInfoOf_delay (tu : TripUpdate) (trip : TripDescriptor) :
  ti_delay (tripInfoOf tu trip) =
  tu_stopTimeUpdate tu ≫= fun updates => head updates ≫= Spec.delay_of.
Proof.
  unfold tripInfoOf.
  destruct (tu_stopTimeUpdate tu) as [[|firstUpdate rest]|]; simpl; try done.
  apply firstUpdate_delay_spec.
Qed.

(** The route id left after the three lookups of the loop body. *)
Lemma routeId_chain (svc : State) (updateEntities : list FeedEntity)
    (trip : TripDescriptor) (tripId : string) :
  JS.nonempty
    match tripToRouteMap svc ≫= (fun m => m !! tripId) with
    | Some me =>
        JS.or match buildTripInfoMap updateEntities !! tripId with
              | Some i => JS.or (Spec.routeId_of trip) (ti_routeId i)
              | None => Spec.routeId_of trip
              end (Some (r me))
    | None =>
        match buildTripInfoMap updateEntities !! tripId with
        | Some i => JS.or (Spec.routeId_of trip) (ti_routeId i)
        | None => Spec.routeId_of trip
        end
    end
  = Spec.routeId svc updateEntities trip tripId.
Proof.
  unfold Spec.routeId. simpl.
  rewrite buildTripInfoMap_lookup.
  destruct (tripToRouteMap svc ≫= fun m => m !! tripId) as [me|]; simpl;
    destruct (Spec.joined updateEntities tripId) as [[tu utrip]|]; simpl;
    unfold Spec.info_of; simpl;
    rewrite ?nonempty_or, ?tripInfoOf_routeId;
    destruct (JS.nonempty (Spec.routeId_of trip));
    try destruct (JS.nonempty (Spec.routeId_of utrip)); try done;
    unfold JS.nonempty; by destruct (String.eqb (r me) "").
Qed.

(** The loop body computes the specification's rules: an entity with a
    position, a trip descriptor and a trip id is emitted exactly when
    rule 2 finds a route, with the fields the rules give. *)
Lemma resolveEntity_rules (svc : State) (updateEntities : list FeedEntity)
    (e : FeedEntity) (vp : VehiclePosition) (pos : Position)
    (trip : TripDescriptor) (tripId : string) :
  fe_vehicle e = Some vp ->
  vp_position vp = Some pos ->
  vp_trip vp = Some trip ->
  Spec.tripId_of trip = Some tripId ->
  resolveEntity svc (buildTripInfoMap updateEntities) e =
  (line ← Spec.routeId svc updateEntities trip tripId;
   Some {| sv_id := default (fe_id e) (JS.nonempty (vp_vehicle vp ≫= vd_id));
           sv_line := line;
           sv_tripId := tripId;
           sv_operator := "SL / Entreprenör";
           sv_vehicleNumber := default "N/A" (JS.nonempty (vp_vehicle vp ≫= vd_label));
           sv_lat := latitude pos;
           sv_lng := longitude pos;
           sv_bearing := JS.or_zero (bearing pos);
           sv_speed := PrimFloat.mul (JS.or_zero (speed pos)) MS_TO_KMH;
           sv_destination := Spec.destination svc updateEntities trip tripId line;
           sv_type := "Buss";
           sv_delay := Spec.joined updateEntities tripId
                       ≫= fun j => ti_delay (Spec.info_of j) |}).
Proof.
  intros Hv Hp Ht Hid. unfold resolveEntity.
  rewrite Hv, Hp, Ht. unfold Spec.tripId_of in Hid. rewrite Hid.
  fold (Spec.routeId_of trip). fold (Spec.directionId_of trip).
  cbv zeta.
  pose proof (routeId_chain svc updateEntities trip tripId) as HR.
  unfold JS.or in HR. rewrite HR.
  destruct (Spec.routeId svc updateEntities trip tripId) as [line|]; [|done].
  simpl. f_equal. f_equal.
  - (* destination *)
    unfold Spec.destination. rewrite <- headsign_chain. simpl.
    rewrite buildTripInfoMap_lookup.
    set (me := tripToRouteMap svc ≫= _).
    set (J := Spec.joined updateEntities tripId).
    assert (E1 : match me with
                 | Some me => if negb (String.eqb (h me) "") then h me else Okand
                 | None => Okand
                 end = Spec.headsign_step Okand (me ≫= fun me => Some (h me))).
    { unfold Spec.headsign_step. change (unresolved Okand) with true.
      destruct me as [m|]; simpl; [|done]. by destruct (String.eqb (h m) ""). }
    rewrite !E1. clear E1.
    generalize (Spec.headsign_step Okand (me ≫= fun me => Some (h me))).
    intros h1.
    assert (E2 : match Spec.info_of <$> J with
                 | Some i =>
                     match Spec.directionId_of trip with
                     | Some _ => Spec.directionId_of trip
                     | None => ti_directionId i
                     end
                 | None => Spec.directionId_of trip
                 end = Spec.directionId updateEntities trip tripId).
    { unfold Spec.directionId. fold J.
      destruct J as [[tu utrip]|]; simpl.
      - unfold Spec.info_of. simpl. rewrite tripInfoOf_directionId.
        by destruct (Spec.directionId_of trip).
      - by destruct (Spec.directionId_of trip). }
    rewrite !E2. clear E2.
    set (c2 := routeDirections svc ≫= _).
    set (h2 := Spec.headsign_step h1 c2).
    assert (E3 : JS.nonempty ((Spec.info_of <$> J) ≫= ti_lastStopId)
                 ≫= (fun sid => stopsMap svc !! sid)
                 = J ≫= fun j => Spec.last_stop_name svc j.1).
    { destruct J as [[tu utrip]|]; simpl; [|done].
      unfold Spec.info_of. simpl. apply lastStopId_name. }
    rewrite <- E3. clear E3.
    assert (E4 : match Spec.directionId updateEntities trip tripId with
                 | Some dir =>
                     match routeDirections svc with
                     | Some rd =>
                         if unresolved h1
                         then match JS.nonempty
                                      (rd !! line ≫= fun ds => ds !! JS.String_of_uint dir) with
                              | Some fh => fh
                              | None => h1
                              end
                         else h1
                     | None => h1
                     end
                 | None => h1
                 end = h2).
    { subst h2 c2. unfold Spec.headsign_step.
      destruct (routeDirections svc) as [rd|],
               (Spec.directionId updateEntities trip tripId) as [dir|];
        simpl; try done; by destruct (unresolved h1). }
    rewrite E4. clear E4.
    generalize h2. intros h2'.
    unfold Spec.headsign_step.
    destruct (JS.nonempty ((Spec.info_of <$> J) ≫= ti_lastStopId)) as [sid|];
      simpl; [done|by destruct (unresolved h2')].
  - (* delay *)
    rewrite buildTripInfoMap_lookup.
    by destruct (Spec.joined updateEntities tripId).
Qed.
End Resolver.

(** ** The whole call *)

Section Pipeline.
Import SLService.

Lemma filterByRoute_nil (route : SLLineRoute) : filterByRoute [] route = [].
Proof. reflexivity. Qed.

Lemma filterByRoute_elem (allVehicles : list SLVehicle) (route : SLLineRoute)
    (v : SLVehicle) :
  v ∈ filterByRoute allVehicles route -> v ∈ allVehicles.
Proof.
  unfold filterByRoute. case_match; intros Hv;
    apply list_elem_of_filter in Hv; tauto.
Qed.

(** The call never rejects. *)
Lemma getLiveVehicles_total (svc : State) (net : Network) (route : option SLLineRoute) :
  exists vs, getLiveVehicles svc net route = Resolved vs.
Proof.
  unfold getLiveVehicles, try_catch.
  destruct (getLiveVehicles_try svc net route); eauto.
Qed.

(** With a route, the call returns the filtered result of the call
    without a route. *)
Lemma getLiveVehicles_route (svc : State) (net : Network) (route : SLLineRoute)
    (allVehicles : list SLVehicle) :
  getLiveVehicles svc net None = Resolved allVehicles ->
  getLiveVehicles svc net (Some route) = Resolved (filterByRoute allVehicles route).
Proof.
  unfold getLiveVehicles, getLiveVehicles_try, try_catch.
  destruct (fetch_RT_VEHICLE_URL net) as [posRes|]; simpl;
    [|by intros [= <-]].
  destruct (ok posRes); simpl; [|by intros [= <-]].
  destruct (byteLength (body posRes) <? 20)%N; [by intros [= <-]|].
  destruct (decode (body posRes)) as [posObject|]; simpl; [|by intros [= <-]].
  destruct (fetch_RT_TRIP_UPDATES_URL net) as [res|]; simpl.
  - destruct (ok res); simpl.
    + destruct (decode (body res)); simpl; by intros [= <-].
    + by intros [= <-].
  - by intros [= <-].
Qed.

(** Every vehicle returned was pushed by the position loop, run on the
    decoded position entities with the index of the decoded trip
    updates. *)
Lemma getLiveVehicles_emitted (svc : State) (net : Network)
    (route : option SLLineRoute) (vs : list SLVehicle) (v : SLVehicle) :
  getLiveVehicles svc net route = Resolved vs -> v ∈ vs ->
  exists e, e ∈ Spec.positions net /\
    resolveEntity svc (buildTripInfoMap (Spec.updates net)) e = Some v.
Proof.
  assert (Hall : forall all, getLiveVehicles svc net None = Resolved all -> v ∈ all ->
    exists e, e ∈ Spec.positions net /\
      resolveEntity svc (buildTripInfoMap (Spec.updates net)) e = Some v).
  { unfold getLiveVehicles, getLiveVehicles_try, try_catch,
      Spec.positions, Spec.updates, Spec.entities_of.
    intros all.
    destruct (fetch_RT_VEHICLE_URL net) as [posRes|]; simpl;
      [|intros [= <-]; by intros ?%elem_of_nil].
    destruct (ok posRes); simpl; [|intros [= <-]; by intros ?%elem_of_nil].
    destruct (byteLength (body posRes) <? 20)%N;
      [intros [= <-]; by intros ?%elem_of_nil|].
    destruct (decode (body posRes)) as [posObject|]; simpl;
      [|intros [= <-]; by intros ?%elem_of_nil].
    destruct (fetch_RT_TRIP_UPDATES_URL net) as [res|]; simpl.
    - destruct (ok res); simpl.
      + destruct (decode (body res)); simpl;
          [|intros [= <-]; by intros ?%elem_of_nil].
        intros [= <-]. unfold resolveVehicles.
        intros (e & He & Hr)%list_elem_of_omap. eauto.
      + intros [= <-]. unfold resolveVehicles.
        intros (e & He & Hr)%list_elem_of_omap. eauto.
    - intros [= <-]. unfold resolveVehicles.
      intros (e & He & Hr)%list_elem_of_omap. eauto. }
  destruct route as [route|]; [|apply Hall].
  destruct (getLiveVehicles_total svc net None) as [all Hall'].
  rewrite (getLiveVehicles_route _ _ route _ Hall'). intros [= <-] Hv.
  apply (Hall all Hall'). by eapply filterByRoute_elem.
Qed.

(** What the loop body pushes comes from an entity with a position, a
    trip descriptor and a trip id. *)
Lemma resolveEntity_Some (svc : State) (tripInfoMap : gmap string TripUpdateInfo)
    (e : FeedEntity) (v : SLVehicle) :
  resolveEntity svc tripInfoMap e = Some v ->
  exists vp pos trip,
    fe_vehicle e = Some vp /\ vp_position vp = Some pos /\
    vp_trip vp = Some trip /\ Spec.tripId_of trip = Some (sv_tripId v).
Proof.
  unfold resolveEntity, Spec.tripId_of.
  destruct (fe_vehicle e) as [vp|]; [|done].
  destruct (vp_position vp) as [pos|] eqn:Hpos; [|done].
  destruct (vp_trip vp) as [trip|] eqn:Htrip; [|done].
  destruct (JS.nonempty (JS.or (td_tripId trip) (td_trip_id trip)))
    as [tid|] eqn:Htid; [|done].
  cbv zeta. case_match; [|done]. intros [= <-]. simpl. eauto 10.
Qed.
End Pipeline.

(** ** The resolver's properties *)

Section ResolverClaims.
Import SLService.

Lemma first_nonempty_Some (cs : list (option string)) (s : string) :
  Spec.first_nonempty cs = Some s -> s <> "".
Proof.
  induction cs as [|c cs IH]; [done|]. simpl.
  destruct (JS.nonempty c) as [x|] eqn:Hc; [|done].
  intros [= <-]. by apply nonempty_Some in Hc as [_ ?].
Qed.

(** The sample feed resolves to the vehicle of the specification's
    example; the entity without a trip id is not in the result. *)
Example getLiveVehicles_example :
  getLiveVehicles Examples.catalog Examples.net_ok None
  = Resolved [Examples.vehicle_14].
Proof. vm_compute. reflexivity. Qed.

(** C1: the route id of a position entity with a trip id is the first
    non-empty of (a) the route id of its own trip descriptor, (b) the
    route id of the trip-update entity joined by the trip id, (c) the
    route id of the trip-map entry of the trip id. The entity is emitted
    with that route as its line when there is one and dropped when all
    three are empty, so every vehicle returned has a non-empty line. *)
Theorem routeId_resolution_order (svc : State) (net : Network)
    (route : option SLLineRoute) :
  let updateEntities := Spec.updates net in
  let candidates (trip : TripDescriptor) (tripId : string) :=
    [ Spec.routeId_of trip;
      Spec.joined updateEntities tripId ≫= (fun j => Spec.routeId_of (snd j));
      (tripToRouteMap svc ≫= fun m => m !! tripId) ≫= (fun me => Some (r me)) ] in
  (forall e vp pos trip tripId,
     fe_vehicle e = Some vp -> vp_position vp = Some pos ->
     vp_trip vp = Some trip -> Spec.tripId_of trip = Some tripId ->
     match Spec.first_nonempty (candidates trip tripId) with
     | Some line =>
         exists v, resolveEntity svc (buildTripInfoMap updateEntities) e = Some v
                   /\ sv_line v = line /\ sv_tripId v = tripId
     | None => resolveEntity svc (buildTripInfoMap updateEntities) e = None
     end) /\
  (forall vs v,
     getLiveVehicles svc net route = Resolved vs -> v ∈ vs ->
     sv_line v <> "" /\
     exists e vp trip,
       e ∈ Spec.positions net /\ fe_vehicle e = Some vp /\ vp_trip vp = Some trip /\
       Spec.tripId_of trip = Some (sv_tripId v) /\
       Spec.first_nonempty (candidates trip (sv_tripId v)) = Some (sv_line v)).
Proof.
  intros updateEntities candidates. split.
  - intros e vp pos trip tripId Hv Hp Ht Hid.
    rewrite (resolveEntity_rules svc updateEntities e vp pos trip tripId Hv Hp Ht Hid).
    unfold Spec.routeId. fold (candidates trip tripId).
    destruct (Spec.first_nonempty (candidates trip tripId)) as [line|]; simpl; eauto.
  - intros vs v Hvs Hin.
    destruct (getLiveVehicles_emitted svc net route vs v Hvs Hin) as (e & He & Hr).
    destruct (resolveEntity_Some _ _ _ _ Hr) as (vp & pos & trip & Hv & Hp & Ht & Hid).
    pose proof (resolveEntity_rules svc updateEntities e vp pos trip _ Hv Hp Ht Hid) as Heq.
    fold updateEntities in Hr. rewrite Hr in Heq.
    unfold Spec.routeId in Heq. fold (candidates trip (sv_tripId v)) in Heq.
    destruct (Spec.first_nonempty (candidates trip (sv_tripId v))) as [line|] eqn:Hline;
      simpl in Heq; [|done].
    injection Heq as Heq. rewrite Heq. simpl.
    split; [by eapply first_nonempty_Some|].
    exists e, vp, trip. rewrite Heq in Hid. simpl in Hid. rewrite Heq in Hline.
    simpl in Hline. done.
Qed.

Lemma routeId_resolution_order_witness :
  (exists v, resolveEntity Examples.catalog
               (buildTripInfoMap (Spec.updates Examples.net_ok)) Examples.entity_14 = Some v
             /\ sv_line v = "9011001001200000" /\ sv_tripId v = "14010000123456789")
  /\ sv_line Examples.vehicle_14 <> "".
Proof.
  destruct (routeId_resolution_order Examples.catalog Examples.net_ok None) as [Hres Hout].
  split.
  - exact (Hres Examples.entity_14 Examples.vp_14 Examples.pos_14 Examples.trip_14
             "14010000123456789" eq_refl eq_refl eq_refl eq_refl).
  - exact (proj1 (Hout [Examples.vehicle_14] Examples.vehicle_14
                    getLiveVehicles_example (list_elem_of_here _ _))).
Defined.

(** The joined trip-update entity is an entity of the trip-update feed
    that carries the trip id. *)
Lemma joined_Some (updateEntities : list FeedEntity) (tripId : string)
    (tu : TripUpdate) (utrip : TripDescriptor) :
  Spec.joined updateEntities tripId = Some (tu, utrip) ->
  exists u, u ∈ updateEntities /\ fe_tripUpdate u = Some tu /\
            tu_trip tu = Some utrip /\ Spec.tripId_of utrip = Some tripId.
Proof.
  unfold Spec.joined.
  assert (H : forall found,
    foldl (fun found e =>
             match fe_tripUpdate e with
             | Some tu =>
                 match tu_trip tu with
                 | Some trip =>
                     if decide (Spec.tripId_of trip = Some tripId)
                     then Some (tu, trip) else found
                 | None => found
                 end
             | None => found
             end) found updateEntities = Some (tu, utrip) ->
    found = Some (tu, utrip) \/
    exists u, u ∈ updateEntities /\ fe_tripUpdate u = Some tu /\
              tu_trip tu = Some utrip /\ Spec.tripId_of utrip = Some tripId).
  { induction updateEntities as [|e es IH]; intros found; simpl; [by left|].
    intros Hf. apply IH in Hf as [Hf|(u & Hu & ?)].
    - destruct (fe_tripUpdate e) as [tu'|] eqn:Htu; [|by left].
      destruct (tu_trip tu') as [trip'|] eqn:Htrip; [|by left].
      destruct (decide (Spec.tripId_of trip' = Some tripId)) as [Hid|]; [|by left].
      injection Hf as -> ->. right. exists e. split; [apply list_elem_of_here|done].
    - right. exists u. split; [by apply list_elem_of_further|done]. }
  intros Hj. by destruct (H None Hj).
Qed.

(** No trip-update entity is joined when none of the feed carries the
    trip id. *)
Lemma joined_None (updateEntities : list FeedEntity) (tripId : string) :
  (forall u tu utrip, u ∈ updateEntities -> fe_tripUpdate u = Some tu ->
     tu_trip tu = Some utrip -> Spec.tripId_of utrip <> Some tripId) ->
  Spec.joined updateEntities tripId = None.
Proof.
  unfold Spec.joined. generalize (@None (TripUpdate * TripDescriptor)).
  induction updateEntities as [|e es IH]; intros found Hno; simpl; [done|].
  rewrite IH.
  - destruct (fe_tripUpdate e) as [tu|] eqn:Htu; [|done].
    destruct (tu_trip tu) as [trip|] eqn:Htrip; [|done].
    rewrite decide_False; [done|].
    eapply Hno; [apply list_elem_of_here|done..].
  - intros u tu utrip Hu. apply Hno. by apply list_elem_of_further.
Qed.

(** Some entity is joined as soon as one of the feed carries the trip id. *)
Lemma joined_carried (updateEntities : list FeedEntity) (tripId : string)
    (u : FeedEntity) (tu : TripUpdate) (utrip : TripDescriptor) :
  u ∈ updateEntities -> fe_tripUpdate u = Some tu -> tu_trip tu = Some utrip ->
  Spec.tripId_of utrip = Some tripId ->
  is_Some (Spec.joined updateEntities tripId).
Proof.
  unfold Spec.joined. generalize (@None (TripUpdate * TripDescriptor)).
  induction updateEntities as [|e es IH]; intros found Hu Htu Htrip Hid;
    [by apply elem_of_nil in Hu|].
  simpl. apply elem_of_cons in Hu as [<-|Hu]; [|by apply IH].
  rewrite Htu, Htrip, decide_True by done.
  clear IH. generalize (tu, utrip). clear. intros j.
  induction es as [|e es IH] in j |- *; simpl; [by eexists|].
  destruct (fe_tripUpdate e) as [tu'|]; [|apply IH].
  destruct (tu_trip tu') as [trip'|]; [|apply IH].
  destruct (decide (Spec.tripId_of trip' = Some tripId)); apply IH.
Qed.

(** The only entity of the feed that carries a trip id is the joined one. *)
Lemma joined_unique (updateEntities : list FeedEntity) (tripId : string)
    (u : FeedEntity) (tu : TripUpdate) (utrip : TripDescriptor) :
  u ∈ updateEntities -> fe_tripUpdate u = Some tu -> tu_trip tu = Some utrip ->
  Spec.tripId_of utrip = Some tripId ->
  (forall u' tu' utrip', u' ∈ updateEntities -> fe_tripUpdate u' = Some tu' ->
     tu_trip tu' = Some utrip' -> Spec.tripId_of utrip' = Some tripId -> u' = u) ->
  Spec.joined updateEntities tripId = Some (tu, utrip).
Proof.
  intros Hu Htu Htrip Hid Hone.
  destruct (joined_carried _ _ _ _ _ Hu Htu Htrip Hid) as [[tu' utrip'] Hj].
  rewrite Hj. apply joined_Some in Hj as (u' & Hu' & Htu' & Htrip' & Hid').
  assert (u' = u) as -> by eauto. congruence.
Qed.

(** C3: a position entity without a vehicle position, without a
    position, without a trip descriptor or without a trip id is dropped,
    and no vehicle returned has an empty trip id. *)
Theorem missing_tripId_dropped (svc : State) (net : Network)
    (route : option SLLineRoute) :
  (forall tripInfoMap e,
     (fe_vehicle e = None \/
      exists vp, fe_vehicle e = Some vp /\
        (vp_position vp = None \/ vp_trip vp = None \/
         exists trip, vp_trip vp = Some trip /\
           JS.truthy (JS.or (td_tripId trip) (td_trip_id trip)) = false)) ->
     resolveEntity svc tripInfoMap e = None) /\
  (forall vs v,
     getLiveVehicles svc net route = Resolved vs -> v ∈ vs -> sv_tripId v <> "").
Proof.
  split.
  - intros tripInfoMap e. unfold resolveEntity.
    intros [->|(vp & -> & [Hp|[Ht|(trip & Ht & Hid)]])]; [done| | |].
    + by rewrite Hp.
    + rewrite Ht. by destruct (vp_position vp).
    + rewrite Ht. apply nonempty_None in Hid. rewrite Hid.
      by destruct (vp_position vp).
  - intros vs v Hvs Hin.
    destruct (getLiveVehicles_emitted svc net route vs v Hvs Hin) as (e & He & Hr).
    destruct (resolveEntity_Some _ _ _ _ Hr) as (vp & pos & trip & Hv & Hp & Ht & Hid).
    unfold Spec.tripId_of in Hid. by apply nonempty_Some in Hid as [_ ?].
Qed.

Lemma missing_tripId_dropped_witness :
  resolveEntity Examples.catalog ∅ Examples.entity_anon = None
  /\ sv_tripId Examples.vehicle_14 <> "".
Proof.
  destruct (missing_tripId_dropped Examples.catalog Examples.net_ok None) as [Hdrop Hout].
  split.
  - apply Hdrop. right. exists Examples.vp_anon. split; [reflexivity|].
    right. right. exists Examples.trip_anon. split; reflexivity.
  - exact (Hout [Examples.vehicle_14] Examples.vehicle_14
             getLiveVehicles_example (list_elem_of_here _ _)).
Defined.

(** Every vehicle returned, with the entity it was resolved from and the
    fields that the rules give it. *)
Lemma getLiveVehicles_rules (svc : State) (net : Network)
    (route : option SLLineRoute) (vs : list SLVehicle) (v : SLVehicle) :
  getLiveVehicles svc net route = Resolved vs -> v ∈ vs ->
  exists e vp pos trip,
    e ∈ Spec.positions net /\
    resolveEntity svc (buildTripInfoMap (Spec.updates net)) e = Some v /\
    fe_vehicle e = Some vp /\ vp_position vp = Some pos /\ vp_trip vp = Some trip /\
    Spec.tripId_of trip = Some (sv_tripId v) /\
    sv_destination v =
      Spec.destination svc (Spec.updates net) trip (sv_tripId v) (sv_line v) /\
    sv_delay v = (Spec.joined (Spec.updates net) (sv_tripId v)
                  ≫= fun j => ti_delay (Spec.info_of j)) /\
    sv_speed v = PrimFloat.mul (JS.or_zero (speed pos)) MS_TO_KMH.
Proof.
  intros Hvs Hin.
  destruct (getLiveVehicles_emitted svc net route vs v Hvs Hin) as (e & He & Hr).
  destruct (resolveEntity_Some _ _ _ _ Hr) as (vp & pos & trip & Hv & Hp & Ht & Hid).
  pose proof (resolveEntity_rules svc (Spec.updates net) e vp pos trip _ Hv Hp Ht Hid) as Heq.
  rewrite Hr in Heq.
  destruct (Spec.routeId svc (Spec.updates net) trip (sv_tripId v)) as [line|];
    simpl in Heq; [|done].
  injection Heq as Heq.
  exists e, vp, pos, trip. repeat split; try done.
  - rewrite Heq at 1. simpl. by rewrite Heq.
  - rewrite Heq at 1. simpl. done.
  - rewrite Heq at 1. simpl. done.
Qed.

Example getLiveVehicles_example_last_stop :
  getLiveVehicles Examples.catalog_no_headsign Examples.net_ok None
  = Resolved [Examples.vehicle_14_last_stop].
Proof. vm_compute. reflexivity. Qed.

(** C2: the destination of every vehicle returned is the first non-empty,
    non-placeholder value of (a) the headsign of the trip-map entry of its
    trip id, (b) the entry of the route-direction table for its resolved
    route and direction, (c) the name of the stop of the last stop-time
    update of the joined trip update, and (d) the placeholder when none of
    them gives one. *)
Theorem destination_resolution_order (svc : State) (net : Network)
    (route : option SLLineRoute) (vs : list SLVehicle) (v : SLVehicle) :
  getLiveVehicles svc net route = Resolved vs -> v ∈ vs ->
  exists e vp trip,
    e ∈ Spec.positions net /\
    resolveEntity svc (buildTripInfoMap (Spec.updates net)) e = Some v /\
    fe_vehicle e = Some vp /\ vp_trip vp = Some trip /\
    Spec.tripId_of trip = Some (sv_tripId v) /\
    sv_destination v =
      default "Okänd"
        (Spec.first_resolved
           [ (tripToRouteMap svc ≫= fun m => m !! sv_tripId v)
               ≫= (fun me => Some (h me));
             (rd ← routeDirections svc;
              dir ← Spec.directionId (Spec.updates net) trip (sv_tripId v);
              byDirection ← rd !! sv_line v;
              byDirection !! JS.String_of_uint dir);
             Spec.joined (Spec.updates net) (sv_tripId v)
               ≫= (fun j => Spec.last_stop_name svc (fst j)) ]).
Proof.
  intros Hvs Hin.
  destruct (getLiveVehicles_rules svc net route vs v Hvs Hin)
    as (e & vp & pos & trip & He & Hr & Hv & Hp & Ht & Hid & Hdest & _).
  exists e, vp, trip. repeat split; try done.
Qed.

Lemma destination_resolution_order_witness :
  exists e vp trip,
    e ∈ Spec.positions Examples.net_ok /\
    resolveEntity Examples.catalog_no_headsign
      (buildTripInfoMap (Spec.updates Examples.net_ok)) e
      = Some Examples.vehicle_14_last_stop /\
    fe_vehicle e = Some vp /\ vp_trip vp = Some trip /\
    Spec.tripId_of trip = Some "14010000123456789" /\
    "Kista" =
      default "Okänd"
        (Spec.first_resolved
           [ (tripToRouteMap Examples.catalog_no_headsign
                ≫= fun m => m !! "14010000123456789") ≫= (fun me => Some (h me));
             (rd ← routeDirections Examples.catalog_no_headsign;
              dir ← Spec.directionId (Spec.updates Examples.net_ok) trip
                      "14010000123456789";
              byDirection ← rd !! "9011001001200000";
              byDirection !! JS.String_of_uint dir);
             Spec.joined (Spec.updates Examples.net_ok) "14010000123456789"
               ≫= (fun j => Spec.last_stop_name Examples.catalog_no_headsign (fst j)) ]).
Proof.
  exact (destination_resolution_order Examples.catalog_no_headsign Examples.net_ok None
           [Examples.vehicle_14_last_stop] Examples.vehicle_14_last_stop
           getLiveVehicles_example_last_stop (list_elem_of_here _ _)).
Defined.

(** C4: a vehicle returned whose trip id joins a trip-update entity with at
    least one stop-time update has the delay of the first stop-time update,
    the arrival delay when there is one and the departure delay otherwise;
    a vehicle whose trip id joins no trip-update entity has no delay. The
    joined entity is the one entity of the trip-update feed that carries
    the trip id (the last one, should several carry it). *)
Theorem delay_from_first_stop_time_update (svc : State) (net : Network)
    (route : option SLLineRoute) (vs : list SLVehicle) (v : SLVehicle) :
  getLiveVehicles svc net route = Resolved vs -> v ∈ vs ->
  let first_delay (firstUpdate : StopTimeUpdate) :=
    match stu_arrival firstUpdate ≫= ste_delay with
    | Some arrivalDelay => Some arrivalDelay
    | None => stu_departure firstUpdate ≫= ste_delay
    end in
  (forall tu utrip firstUpdate rest,
     Spec.joined (Spec.updates net) (sv_tripId v) = Some (tu, utrip) ->
     tu_stopTimeUpdate tu = Some (firstUpdate :: rest) ->
     sv_delay v = first_delay firstUpdate) /\
  (forall u tu utrip firstUpdate rest,
     u ∈ Spec.updates net -> fe_tripUpdate u = Some tu -> tu_trip tu = Some utrip ->
     Spec.tripId_of utrip = Some (sv_tripId v) ->
     (forall u' tu' utrip', u' ∈ Spec.updates net -> fe_tripUpdate u' = Some tu' ->
        tu_trip tu' = Some utrip' -> Spec.tripId_of utrip' = Some (sv_tripId v) ->
        u' = u) ->
     tu_stopTimeUpdate tu = Some (firstUpdate :: rest) ->
     sv_delay v = first_delay firstUpdate) /\
  ((forall u tu utrip, u ∈ Spec.updates net -> fe_tripUpdate u = Some tu ->
      tu_trip tu = Some utrip -> Spec.tripId_of utrip <> Some (sv_tripId v)) ->
   sv_delay v = None).
Proof.
  intros Hvs Hin first_delay.
  destruct (getLiveVehicles_rules svc net route vs v Hvs Hin)
    as (e & vp & pos & trip & _ & _ & _ & _ & _ & _ & _ & Hdelay & _).
  assert (Hjoin : forall tu utrip firstUpdate rest,
    Spec.joined (Spec.updates net) (sv_tripId v) = Some (tu, utrip) ->
    tu_stopTimeUpdate tu = Some (firstUpdate :: rest) ->
    sv_delay v = first_delay firstUpdate).
  { intros tu utrip firstUpdate rest Hj Hst.
    rewrite Hdelay, Hj. simpl. unfold Spec.info_of. simpl.
    rewrite tripInfoOf_delay, Hst. done. }
  split; [exact Hjoin|]. split.
  - intros u tu utrip firstUpdate rest Hu Htu Htrip Hid Hone Hst.
    apply (Hjoin tu utrip firstUpdate rest); [|done].
    by apply (joined_unique _ _ u).
  - intros Hno. by rewrite Hdelay, (joined_None _ _ Hno).
Qed.

Lemma delay_from_first_stop_time_update_witness :
  sv_delay Examples.vehicle_14 = Some 120.
Proof.
  exact (proj1 (delay_from_first_stop_time_update Examples.catalog Examples.net_ok None
                  [Examples.vehicle_14] Examples.vehicle_14
                  getLiveVehicles_example (list_elem_of_here _ _))
           Examples.update_14
           {| td_tripId := Some "14010000123456789"; td_trip_id := None;
              td_routeId := None; td_route_id := None;
              td_directionId := Some 1%N; td_direction_id := None |}
           Examples.stu_first [Examples.stu_last] eq_refl eq_refl).
Defined.

(** C7: the speed of every vehicle returned is the decoded speed in m/s
    times 3.6 (a zero speed gives zero), and zero when the position has no
    speed; 8.0 m/s gives 28.8 km/h. *)
Theorem speed_in_kmh (svc : State) (net : Network)
    (route : option SLLineRoute) (vs : list SLVehicle) (v : SLVehicle) :
  getLiveVehicles svc net route = Resolved vs -> v ∈ vs ->
  (exists e vp pos,
     e ∈ Spec.positions net /\
     resolveEntity svc (buildTripInfoMap (Spec.updates net)) e = Some v /\
     fe_vehicle e = Some vp /\ vp_position vp = Some pos /\
     match speed pos with
     | None => sv_speed v = PrimFloat.zero
     | Some mps =>
         PrimFloat.is_nan mps = false ->
         if PrimFloat.is_zero mps then sv_speed v = PrimFloat.zero
         else sv_speed v = PrimFloat.mul mps MS_TO_KMH
     end) /\
  PrimFloat.mul Examples.speed_8 MS_TO_KMH = Examples.kmh_28_8.
Proof.
  intros Hvs Hin. split; [|reflexivity].
  destruct (getLiveVehicles_rules svc net route vs v Hvs Hin)
    as (e & vp & pos & trip & He & Hr & Hv & Hp & _ & _ & _ & _ & Hspeed).
  exists e, vp, pos. repeat split; try done.
  rewrite Hspeed. unfold JS.or_zero, JS.truthy_num.
  destruct (speed pos) as [mps|]; [|reflexivity].
  intros ->. rewrite orb_false_r.
  destruct (PrimFloat.is_zero mps); simpl; reflexivity.
Qed.

Lemma speed_in_kmh_witness :
  (exists e vp pos,
     e ∈ Spec.positions Examples.net_ok /\
     resolveEntity Examples.catalog
       (buildTripInfoMap (Spec.updates Examples.net_ok)) e = Some Examples.vehicle_14 /\
     fe_vehicle e = Some vp /\ vp_position vp = Some pos /\
     match speed pos with
     | None => Examples.kmh_28_8 = PrimFloat.zero
     | Some mps =>
         PrimFloat.is_nan mps = false ->
         if PrimFloat.is_zero mps then Examples.kmh_28_8 = PrimFloat.zero
         else Examples.kmh_28_8 = PrimFloat.mul mps MS_TO_KMH
     end) /\
  PrimFloat.mul Examples.speed_8 MS_TO_KMH = Examples.kmh_28_8.
Proof.
  exact (speed_in_kmh Examples.catalog Examples.net_ok None
           [Examples.vehicle_14] Examples.vehicle_14
           getLiveVehicles_example (list_elem_of_here _ _)).
Defined.

(** A speed that is not a number is falsy and is emitted as 0, like a
    missing one. *)
Example speed_nan : JS.or_zero (Some PrimFloat.nan) = PrimFloat.zero.
Proof. reflexivity. Qed.

(** A position without a speed is emitted with speed 0. *)
Example speed_unspecified :
  sv_speed <$> resolveEntity Examples.catalog ∅ Examples.entity_still
  = Some PrimFloat.zero.
Proof. vm_compute. reflexivity. Qed.

(** ** The route filter *)

(** C5: filtering by a route keeps exactly the vehicles whose trip id is
    among the trip ids of the route; when that leaves nothing although
    there are vehicles, the result is the vehicles whose line is the id of
    the route, so a vehicle whose trip id misses the trip ids but whose
    line is the route id is returned by the fallback. A call with a route
    returns the filtered result of the call without one. *)
Theorem filterByRoute_fallback (allVehicles : list SLVehicle) (route : SLLineRoute) :
  let primary := filter (fun v => sv_tripId v ∈ lr_trip_ids route) allVehicles in
  (forall v, v ∈ primary <-> v ∈ allVehicles /\ sv_tripId v ∈ lr_trip_ids route) /\
  (primary <> [] \/ allVehicles = [] -> filterByRoute allVehicles route = primary) /\
  (primary = [] -> allVehicles <> [] ->
   filterByRoute allVehicles route
   = filter (fun v => sv_line v = lr_id route) allVehicles) /\
  (forall v,
     (forall u, u ∈ allVehicles -> sv_tripId u ∉ lr_trip_ids route) ->
     v ∈ allVehicles -> sv_line v = lr_id route ->
     v ∈ filterByRoute allVehicles route) /\
  (forall svc net,
     getLiveVehicles svc net None = Resolved allVehicles ->
     getLiveVehicles svc net (Some route)
     = Resolved (filterByRoute allVehicles route)).
Proof.
  intros primary.
  assert (Hset : filter (fun v => sv_tripId v ∈ (list_to_set (lr_trip_ids route) : gset string))
                   allVehicles = primary).
  { apply list_filter_iff. intros v. apply elem_of_list_to_set. }
  assert (Hfallback : primary = [] -> allVehicles <> [] ->
            filterByRoute allVehicles route
            = filter (fun v => sv_line v = lr_id route) allVehicles).
  { intros Hnil Hne. unfold filterByRoute. cbv zeta. rewrite Hset, Hnil. simpl.
    rewrite bool_decide_eq_false_2; [done|].
    intros Hlen. by apply nil_length_inv in Hlen. }
  split; [|split; [|split; [|split]]].
  - intros v. subst primary. rewrite list_elem_of_filter. tauto.
  - intros Hcase. unfold filterByRoute. cbv zeta. rewrite Hset.
    destruct Hcase as [Hne| ->]; [|done].
    rewrite bool_decide_eq_false_2; [done|].
    intros Hlen. by apply nil_length_inv in Hlen.
  - exact Hfallback.
  - intros v Hmiss Hin Hline.
    assert (Hnil : primary = []).
    { destruct primary as [|u us] eqn:Hp; [done|]. exfalso.
      assert (Hu : u ∈ primary) by (rewrite Hp; apply list_elem_of_here).
      subst primary. apply list_elem_of_filter in Hu as [Hu1 Hu2].
      by apply (Hmiss u). }
    rewrite Hfallback; [|done|by intros ->; apply elem_of_nil in Hin].
    apply list_elem_of_filter. done.
  - intros svc net. apply getLiveVehicles_route.
Qed.

Lemma filterByRoute_fallback_witness :
  Examples.vehicle_14 ∈ filterByRoute [Examples.vehicle_14] Examples.route_12.
Proof.
  refine (proj1 (proj2 (proj2 (proj2
            (filterByRoute_fallback [Examples.vehicle_14] Examples.route_12))))
            Examples.vehicle_14 _ (list_elem_of_here _ _) eq_refl).
  intros u Hu Hmiss.
  apply list_elem_of_singleton in Hu. subst u.
  apply list_elem_of_singleton in Hmiss. discriminate Hmiss.
Defined.
End ResolverClaims.

(** ** Sorting facts *)

Section SortFacts.
Context {A : Type} (leb : A -> A -> bool).
Hypothesis leb_total : forall a b, leb a b = true \/ leb b a = true.

Lemma insert_sorted_Permutation (x : A) (l : list A) :
  Permutation (insert_sorted leb x l) (x :: l).
Proof.
  induction l as [|y l IH]; simpl; [done|].
  destruct (leb x y); [done|].
  rewrite IH. apply perm_swap.
Qed.

Lemma sort_by_Permutation (l : list A) : Permutation (sort_by leb l) l.
Proof.
  induction l as [|x l IH]; simpl; [done|].
  rewrite insert_sorted_Permutation. by constructor.
Qed.

Lemma sort_by_elem (l : list A) (x : A) : x ∈ sort_by leb l <-> x ∈ l.
Proof. by rewrite sort_by_Permutation. Qed.

Lemma insert_sorted_HdRel (x y : A) (l : list A) :
  leb y x = true -> HdRel (fun a b => leb a b = true) y l ->
  HdRel (fun a b => leb a b = true) y (insert_sorted leb x l).
Proof.
  intros Hyx Hhd. destruct l as [|z l]; simpl; [by constructor|].
  destruct (leb x z); constructor; [done|]. by inversion Hhd.
Qed.

Lemma insert_sorted_Sorted (x : A) (l : list A) :
  Sorted (fun a b => leb a b = true) l ->
  Sorted (fun a b => leb a b = true) (insert_sorted leb x l).
Proof.
  induction 1 as [|y l Hs IH Hhd]; simpl; [by repeat constructor|].
  destruct (leb x y) eqn:Hxy.
  - constructor; [by constructor|by constructor].
  - constructor; [done|].
    apply insert_sorted_HdRel; [|done].
    by destruct (leb_total x y) as [Hc|Hc]; [congruence|].
Qed.

Lemma sort_by_Sorted (l : list A) :
  Sorted (fun a b => leb a b = true) (sort_by leb l).
Proof.
  induction l as [|x l IH]; simpl; [constructor|].
  by apply insert_sorted_Sorted.
Qed.
End SortFacts.

(** ** The line search *)

Section SearchClaims.
Import SLService.

(** [String.prototype.toLowerCase], of which only its values on ASCII
    strings are assumed. *)
Variable toLowerCase : string -> string.
Hypothesis toLowerCase_ascii :
  forall s, JS.ascii_only s = true -> toLowerCase s = JS.toLowerCase_ascii s.

Lemma lower_ascii_idemp (c : ascii) :
  JS.lower_ascii (JS.lower_ascii c) = JS.lower_ascii c.
Proof. destruct c as [[] [] [] [] [] [] [] []]; reflexivity. Qed.

(** A prefix of a lower-cased string is in lower case. *)
Lemma prefix_of_lower (q l : string) :
  String.prefix q (JS.toLowerCase_ascii l) = true -> JS.toLowerCase_ascii q = q.
Proof.
  revert l. induction q as [|a q IH]; intros l; [done|].
  destruct l as [|b l]; simpl; [done|].
  destruct (ascii_dec a (JS.lower_ascii b)) as [->|]; [|done].
  intros Hp. rewrite lower_ascii_idemp. f_equal. by eapply IH.
Qed.

Lemma onsuccess_length (query : string) (cursor : list LineManifestEntry) :
  forall results,
    (List.length results < 10)%nat ->
    (List.length (searchLines_onsuccess toLowerCase query cursor results) <= 10)%nat.
Proof.
  induction cursor as [|route continue IH]; intros results Hlen; simpl; [lia|].
  destruct (JS.startsWith (toLowerCase (lm_line route)) query).
  - destruct (Nat.ltb_spec (List.length (results ++ [lineResult route])%list) 10) as [Hlt|Hge].
    + by apply IH.
    + rewrite length_app in *. simpl in *. lia.
  - destruct (Nat.ltb_spec (List.length results) 10); [by apply IH|lia].
Qed.

Lemma onsuccess_elem (query : string) (cursor : list LineManifestEntry)
    (res : SearchResult) :
  forall results,
    res ∈ searchLines_onsuccess toLowerCase query cursor results ->
    res ∈ results \/
    exists route, route ∈ cursor /\ res = lineResult route /\
      JS.startsWith (toLowerCase (lm_line route)) query = true.
Proof.
  induction cursor as [|route continue IH]; intros results; simpl; [by left|].
  assert (Hstep : forall results',
    res ∈ results' ->
    results' = results \/
    (results' = (results ++ [lineResult route])%list /\
     JS.startsWith (toLowerCase (lm_line route)) query = true) ->
    res ∈ results \/
    exists route0, route0 ∈ route :: continue /\ res = lineResult route0 /\
      JS.startsWith (toLowerCase (lm_line route0)) query = true).
  { intros results' Hres [->|[-> Hm]]; [by left|].
    apply elem_of_app in Hres as [?|Hres]; [by left|].
    apply list_elem_of_singleton in Hres. right. exists route.
    split; [apply list_elem_of_here|done]. }
  destruct (JS.startsWith (toLowerCase (lm_line route)) query) eqn:Hm.
  - destruct (List.length (results ++ [lineResult route])%list <? 10)%nat.
    + intros Hres. apply IH in Hres as [Hres|(route0 & Hin & ?)].
      * apply (Hstep _ Hres). by right.
      * right. exists route0. split; [by apply list_elem_of_further|done].
    + intros Hres. apply (Hstep _ Hres). by right.
  - destruct (List.length results <? 10)%nat.
    + intros Hres. apply IH in Hres as [Hres|(route0 & Hin & ?)]; [by left|].
      right. exists route0. split; [by apply list_elem_of_further|done].
    + intros Hres. by left.
Qed.

(** The scan depends on the lower case of the lines of the cursor only. *)
Lemma onsuccess_ext (lower : string -> string) (query : string)
    (cursor : list LineManifestEntry) :
  (forall route, route ∈ cursor -> toLowerCase (lm_line route) = lower (lm_line route)) ->
  forall results,
    searchLines_onsuccess toLowerCase query cursor results
    = searchLines_onsuccess lower query cursor results.
Proof.
  induction cursor as [|route continue IH]; intros Hext results; simpl; [done|].
  rewrite (Hext route) by apply list_elem_of_here.
  destruct (_ <? 10)%nat; [|done].
  apply IH. intros route0 Hin. by apply Hext, list_elem_of_further.
Qed.

(** On a store whose lines are ASCII strings the search is the search
    with the lower case of ASCII. *)
Lemma searchLines_ascii (query : string) (db : gmap string LineManifestEntry) :
  (forall key route, db !! key = Some route -> JS.ascii_only (lm_line route) = true) ->
  searchLines toLowerCase query db = searchLines JS.toLowerCase_ascii query db.
Proof.
  intros Hascii. unfold searchLines. apply onsuccess_ext.
  intros route Hin. unfold openCursor_line in Hin. apply sort_by_elem in Hin.
  apply list_elem_of_fmap in Hin as ([key route'] & -> & Hin).
  apply elem_of_map_to_list in Hin. simpl. apply toLowerCase_ascii. by eapply Hascii.
Qed.

(** The routes in the store are manifest entries. *)
Lemma putRoutes_lookup (manifest : list LineManifestEntry) (key : string)
    (route : LineManifestEntry) :
  putRoutes manifest !! key = Some route -> route ∈ manifest.
Proof.
  unfold putRoutes.
  assert (H : forall store : gmap string LineManifestEntry,
    foldl (fun store route => <[lm_id route := route]> store) store manifest !! key
    = Some route -> store !! key = Some route \/ route ∈ manifest).
  { induction manifest as [|m ms IH]; intros store; simpl; [by left|].
    intros Hl. apply IH in Hl as [Hl|Hl]; [|right; by apply list_elem_of_further].
    destruct (decide (lm_id m = key)) as [<-|Hne].
    - rewrite lookup_insert_eq in Hl. injection Hl as ->. right. apply list_elem_of_here.
    - rewrite lookup_insert_ne in Hl by done. by left. }
  intros Hl. apply H in Hl as [Hl|Hl]; [|done]. by rewrite lookup_empty in Hl.
Qed.

(** C9: the line search returns at most 10 results, each made from a
    route of the store (a manifest entry) whose line, in lower case, starts
    with the query, which [search] hands over in lower case; when the line
    is an ASCII string this is a match of the two in the lower case of
    ASCII, whatever the case of the query. The lower case of other strings
    is taken as it comes from [toLowerCase]. "4" against the lines 40, 14
    and 4 returns line 4 and line 40, in the order of the index, and not
    14. *)
Theorem searchLines_prefix_matches (query : string) :
  (forall db : gmap string LineManifestEntry,
     (List.length (searchLines toLowerCase query db) <= 10)%nat /\
     forall res, res ∈ searchLines toLowerCase query db ->
       exists key route, db !! key = Some route /\ res = lineResult route /\
         String.prefix query (toLowerCase (lm_line route)) = true /\
         (JS.ascii_only (lm_line route) = true ->
          String.prefix (JS.toLowerCase_ascii query)
                        (JS.toLowerCase_ascii (lm_line route)) = true)) /\
  (forall manifest res, res ∈ searchLines toLowerCase query (putRoutes manifest) ->
     exists route, route ∈ manifest /\ res = lineResult route /\
       String.prefix query (toLowerCase (lm_line route)) = true /\
       (JS.ascii_only (lm_line route) = true ->
        String.prefix (JS.toLowerCase_ascii query)
                      (JS.toLowerCase_ascii (lm_line route)) = true)) /\
  searchLines toLowerCase "4" (putRoutes Examples.manifest)
  = [lineResult (Examples.manifest_entry "r4" "4");
     lineResult (Examples.manifest_entry "r40" "40")].
Proof.
  assert (Hdb : forall (db : gmap string LineManifestEntry) res,
    res ∈ searchLines toLowerCase query db ->
    exists key route, db !! key = Some route /\ res = lineResult route /\
      String.prefix query (toLowerCase (lm_line route)) = true /\
      (JS.ascii_only (lm_line route) = true ->
       String.prefix (JS.toLowerCase_ascii query)
                     (JS.toLowerCase_ascii (lm_line route)) = true)).
  { intros db res Hres. unfold searchLines in Hres.
    apply onsuccess_elem in Hres as [Hres|(route & Hin & -> & Hm)];
      [by apply elem_of_nil in Hres|].
    unfold openCursor_line in Hin. apply sort_by_elem in Hin.
    apply list_elem_of_fmap in Hin as ([key route'] & -> & Hin).
    apply elem_of_map_to_list in Hin. exists key, route'. split; [done|].
    split; [done|]. simpl in *. unfold JS.startsWith in Hm. split; [done|].
    intros Hascii. rewrite (toLowerCase_ascii _ Hascii) in Hm.
    by rewrite (prefix_of_lower _ _ Hm). }
  split; [|split].
  - intros db. split; [|by apply Hdb].
    unfold searchLines. apply onsuccess_length. simpl. lia.
  - intros manifest res Hres.
    destruct (Hdb _ _ Hres) as (key & route & Hl & ? & ?).
    exists route. split; [by eapply putRoutes_lookup|done].
  - rewrite searchLines_ascii; [vm_compute; reflexivity|].
    intros key route Hl. apply putRoutes_lookup in Hl.
    revert route Hl. apply Forall_forall. by repeat constructor.
Qed.
End SearchClaims.

Section SearchWitness.
Import SLService.

Lemma searchLines_prefix_matches_witness :
  exists route, route ∈ Examples.manifest /\
    lineResult (Examples.manifest_entry "r40" "40") = lineResult route /\
    String.prefix "4" (JS.toLowerCase_ascii (lm_line route)) = true /\
    (JS.ascii_only (lm_line route) = true ->
     String.prefix (JS.toLowerCase_ascii "4") (JS.toLowerCase_ascii (lm_line route)) = true).
Proof.
  refine (proj1 (proj2 (searchLines_prefix_matches JS.toLowerCase_ascii
                          (fun s _ => eq_refl) "4")) Examples.manifest
            (lineResult (Examples.manifest_entry "r40" "40")) _).
  rewrite (proj2 (proj2 (searchLines_prefix_matches JS.toLowerCase_ascii
                           (fun s _ => eq_refl) "4"))).
  apply list_elem_of_further, list_elem_of_here.
Defined.
End SearchWitness.

(** ** The history store *)

Section HistoryClaims.
Import HistoryApi HistorySpec.

Lemma ts_leb_total (a b : TrailPoint) : ts_leb a b = true \/ ts_leb b a = true.
Proof. unfold ts_leb. lia. Qed.

Lemma updateOne_trail (now expireTime : Z) (coll : gmap string TrailDoc)
    (tripId : string) (v : IngestVehicle) (T : string) :
  trail_of (updateOne now expireTime coll tripId v) T =
  (trail_of coll T ++ points_for T now [(tripId, v)])%list.
Proof.
  unfold trail_of, updateOne, points_for. simpl.
  destruct (decide (tripId = T)) as [->|Hne].
  - by rewrite lookup_insert_eq.
  - rewrite lookup_insert_ne by done. by rewrite app_nil_r.
Qed.

Lemma points_for_app (T : string) (now : Z) (ops1 ops2 : list (string * IngestVehicle)) :
  points_for T now (ops1 ++ ops2) = (points_for T now ops1 ++ points_for T now ops2)%list.
Proof. unfold points_for. apply omap_app. Qed.

Lemma bulkWrite_trail (now expireTime : Z) (ops : list (string * IngestVehicle)) (T : string) :
  forall coll modified upserted,
    trail_of
      (foldl (fun '(c, modified, upserted) '(tripId, v) =>
                let c' := updateOne now expireTime c tripId v in
                match c !! tripId with
                | Some _ => (c', S modified, upserted)
                | None => (c', modified, S upserted)
                end) (coll, modified, upserted) ops).1.1 T
    = (trail_of coll T ++ points_for T now ops)%list.
Proof.
  induction ops as [|[tripId v] ops IH]; intros coll modified upserted; simpl.
  - by rewrite app_nil_r.
  - destruct (coll !! tripId); rewrite IH, updateOne_trail, <- app_assoc;
      f_equal; symmetry; apply (points_for_app T now [(tripId, v)] ops).
Qed.

(** Applying the operations of a batch in another order leaves, under
    every trip id, the same points in another order. *)
Lemma bulkWrite_unordered (now expireTime : Z) (ops ops' : list (string * IngestVehicle))
    (coll : gmap string TrailDoc) (T : string) :
  Permutation ops ops' ->
  Permutation (trail_of (bulkWrite now expireTime ops coll).1.1 T)
              (trail_of (bulkWrite now expireTime ops' coll).1.1 T).
Proof.
  intros Hp. unfold bulkWrite. rewrite !bulkWrite_trail.
  apply Permutation_app_head. unfold points_for. by rewrite Hp.
Qed.

(** A request that reaches the database appends, under every trip id, the
    points of its valid vehicles. *)
Lemma post_trail (db : Database) (now : Z) (vs : list IngestVehicle) (T : string) :
  connected db = true ->
  connected (post db (now, vs)) = true /\
  trail_of (vehicle_trails (post db (now, vs))) T
  = (trail_of (vehicle_trails db) T ++ points_for T now (validVehicles vs))%list.
Proof.
  intros Hc. unfold post, ingest_handler, clientPromise. simpl. rewrite Hc.
  destruct vs as [|v0 vs0]; [simpl; by rewrite app_nil_r|].
  set (vs := v0 :: vs0).
  destruct (validVehicles vs) as [|op ops] eqn:Hops; [simpl; by rewrite app_nil_r|].
  pose proof (bulkWrite_trail now (now + 4 * 60 * 60 * 1000) (op :: ops) T
                (vehicle_trails db) 0%nat 0%nat) as Hb.
  unfold bulkWrite.
  destruct (foldl _ _ (op :: ops)) as [[coll' modified] upserted]. simpl in *.
  done.
Qed.

Lemma post_all_trail (calls : list (Z * list IngestVehicle)) (T : string) :
  forall db, connected db = true ->
    connected (post_all db calls) = true /\
    forall p,
      p ∈ trail_of (vehicle_trails (post_all db calls)) T <->
      p ∈ trail_of (vehicle_trails db) T \/
      exists now vs, (now, vs) ∈ calls /\ p ∈ points_for T now (validVehicles vs).
Proof.
  induction calls as [|[now vs] calls IH]; intros db Hc; simpl.
  - split; [done|]. intros p. split; [by left|].
    intros [?|(now & vs & Hin & _)]; [done|by apply elem_of_nil in Hin].
  - destruct (post_trail db now vs T Hc) as [Hc' Ht].
    destruct (IH _ Hc') as [Hc'' Hiff]. split; [done|].
    intros p. rewrite Hiff, Ht, elem_of_app. split.
    + intros [[?|?]|(now' & vs' & Hin & ?)]; [by left| |].
      * right. exists now, vs. split; [apply list_elem_of_here|done].
      * right. exists now', vs'. split; [by apply list_elem_of_further|done].
    + intros [?|(now' & vs' & Hin & Hp)]; [by left; left|].
      apply elem_of_cons in Hin as [[= -> ->]|Hin]; [by left; right|].
      right. eauto.
Qed.

Lemma points_for_elem (T : string) (now : Z) (vs : list IngestVehicle) (v : IngestVehicle) :
  T <> "" -> v ∈ vs -> iv_tripId v = Some T ->
  point_of now v ∈ points_for T now (validVehicles vs).
Proof.
  intros HT Hv Hid. unfold points_for, validVehicles.
  apply list_elem_of_omap. exists (T, v). split.
  - apply list_elem_of_omap. exists v. split; [done|].
    rewrite Hid. simpl. apply String.eqb_neq in HT. by rewrite HT.
  - simpl. by rewrite decide_True.
Qed.

(** A read that reaches the database returns the stored trail, sorted. *)
Lemma history_connected (db : Database) (T : string) :
  connected db = true -> T <> "" ->
  history_handler (Some (QString T)) db =
  {| h_status := 200;
     h_json := HJ_path (sort_by ts_leb (trail_of (vehicle_trails db) T)) |}.
Proof.
  intros Hc HT. unfold history_handler, history_try, clientPromise, trail_of.
  apply String.eqb_neq in HT. rewrite HT, Hc. simpl.
  destruct (vehicle_trails db !! T) as [trip|]; simpl; [|done].
  do 2 f_equal. induction (sort_by ts_leb (trail trip)) as [|[] l IH]; [done|].
  simpl. by f_equal.
Qed.

(** C8: after any series of ingests, in any order of their time stamps, a
    read for a trip id returns a list sorted by time stamp in which every
    point appended under that trip id, and every point stored before,
    appears. *)
Theorem history_round_trip (db : Database) (calls : list (Z * list IngestVehicle))
    (T : string) :
  connected db = true -> T <> "" ->
  exists path,
    history_handler (Some (QString T)) (post_all db calls)
    = {| h_status := 200; h_json := HJ_path path |} /\
    StronglySorted (fun a b => (ts a <= ts b)%Z) path /\
    (forall now vs v,
       (now, vs) ∈ calls -> v ∈ vs -> iv_tripId v = Some T ->
       {| lat := iv_lat v; lng := iv_lng v; ts := now |} ∈ path) /\
    (forall p, p ∈ trail_of (vehicle_trails db) T -> p ∈ path).
Proof.
  intros Hc HT.
  destruct (post_all_trail calls T db Hc) as [Hc' Hiff].
  eexists. split; [by apply history_connected|]. split; [|split].
  - apply Sorted_StronglySorted.
    + intros a b c. lia.
    + eapply Sorted_ind with (P := Sorted (fun a b => (ts a <= ts b)%Z));
        [constructor| |apply (sort_by_Sorted ts_leb ts_leb_total)].
      intros a l _ IH Hhd. constructor; [done|].
      destruct Hhd as [|b l Hab]; constructor. unfold ts_leb in Hab. lia.
  - intros now vs v Hin Hv Hid.
    apply sort_by_elem, Hiff. right. exists now, vs. split; [done|].
    by apply (points_for_elem T now vs v).
  - intros p Hp. apply sort_by_elem, Hiff. by left.
Qed.

Lemma history_round_trip_witness :
  exists path,
    history_handler (Some (QString "14010000123456789"))
      (post_all Examples.empty_db Examples.calls)
    = {| h_status := 200; h_json := HJ_path path |} /\
    StronglySorted (fun a b => (ts a <= ts b)%Z) path /\
    (forall now vs v,
       (now, vs) ∈ Examples.calls -> v ∈ vs ->
       iv_tripId v = Some "14010000123456789" ->
       {| lat := iv_lat v; lng := iv_lng v; ts := now |} ∈ path) /\
    (forall p, p ∈ trail_of (vehicle_trails Examples.empty_db) "14010000123456789" ->
               p ∈ path).
Proof.
  apply (history_round_trip Examples.empty_db Examples.calls "14010000123456789").
  - reflexivity.
  - discriminate.
Defined.

(** The two points of the sample come back with the earlier time stamp
    first although it was appended last. *)
Example history_example :
  (fun res => match h_json res with
              | HJ_path path => ts <$> path
              | HJ_error _ => []
              end)
    (history_handler (Some (QString "14010000123456789"))
       (post_all Examples.empty_db Examples.calls))
  = [1000%Z; 2000%Z].
Proof. vm_compute. reflexivity. Qed.

Lemma strip_prefix_app (p s : string) :
  strip_prefix p (p ++ s) = Some s.
Proof.
  induction p as [|a p IH]; simpl; [done|]. by rewrite Ascii.eqb_refl.
Qed.

(** The client never rejects. *)
Lemma getVehicleHistory_total (fetch : string -> Outcome HttpResponse) (tripId : string) :
  exists path, SLService.getVehicleHistory fetch tripId = Resolved path.
Proof.
  unfold SLService.getVehicleHistory, try_catch.
  destruct (SLService.getVehicleHistory_try fetch tripId); eauto.
Qed.

(** C10: a history read surfaces no error. The handler answers a read of
    an unknown trip id and a read while the database is unreachable with
    the same response, status 200 and an empty path; the client returns a
    list whatever the endpoint does, and the empty list in both cases:
    always when the database is unreachable, and when no id that the query
    parsers can hand to the handler for this trip id is stored (the client
    does not encode the id, so the handler may get another one). *)
Theorem history_read_hides_failure (query_tripId : string -> option QueryValue)
    (tripId : string) :
  (tripId <> "" ->
   forall db,
     connected db = false \/ vehicle_trails db !! tripId = None ->
     history_handler (Some (QString tripId)) db
     = {| h_status := 200; h_json := HJ_path [] |}) /\
  (forall fetch, exists path,
     SLService.getVehicleHistory fetch tripId = Resolved path) /\
  (forall db,
     connected db = false \/
     (forall id, query_tripId tripId = Some (QString id) ->
                 vehicle_trails db !! id = None) ->
     SLService.getVehicleHistory (endpoint query_tripId db) tripId = Resolved []).
Proof.
  assert (Hh : forall id, id <> "" -> forall db,
    connected db = false \/ vehicle_trails db !! id = None ->
    history_handler (Some (QString id)) db = {| h_status := 200; h_json := HJ_path [] |}).
  { intros id HT db Hcase. unfold history_handler, history_try, clientPromise.
    apply String.eqb_neq in HT. rewrite HT.
    destruct (connected db); simpl.
    - destruct Hcase as [?|Hnone]; [done|]. by rewrite Hnone.
    - done. }
  split; [exact (Hh tripId)|]. split; [intros fetch; apply getVehicleHistory_total|].
  intros db Hcase.
  unfold SLService.getVehicleHistory, SLService.getVehicleHistory_try, endpoint.
  rewrite strip_prefix_app.
  destruct (query_tripId tripId) as [[id|ids]|] eqn:Hq; [|done..].
  destruct (String.eqb_spec id "") as [->|HT]; [done|].
  rewrite (Hh id HT db); [done|].
  destruct Hcase as [Hdown|Hunknown]; [by left|right; by apply Hunknown].
Qed.

Lemma history_read_hides_failure_witness :
  history_handler (Some (QString "14010000123456789")) Examples.db_down
  = history_handler (Some (QString "14010000123456789")) Examples.empty_db
  /\ SLService.getVehicleHistory (endpoint Examples.query_unreserved Examples.db_down)
       "14010000123456789"
     = SLService.getVehicleHistory (endpoint Examples.query_unreserved Examples.empty_db)
         "14010000123456789".
Proof.
  destruct (history_read_hides_failure Examples.query_unreserved "14010000123456789")
    as (Hh & _ & Hc).
  split.
  - rewrite (Hh ltac:(discriminate) Examples.db_down (or_introl eq_refl)).
    rewrite (Hh ltac:(discriminate) Examples.empty_db (or_intror eq_refl)).
    reflexivity.
  - rewrite (Hc Examples.db_down (or_introl eq_refl)).
    rewrite (Hc Examples.empty_db (or_intror (fun id _ => eq_refl))).
    reflexivity.
Defined.
End HistoryClaims.

(** ** The display poll *)

Section PollClaims.
Import SLService.

(** Whatever fails inside the call, it resolves with the empty list. *)
Lemma getLiveVehicles_swallows (svc : State) (net : Network)
    (route : option SLLineRoute) (msg : string) :
  getLiveVehicles_try svc net route = Rejected msg ->
  getLiveVehicles svc net route = Resolved [].
Proof. unfold getLiveVehicles, try_catch. by intros ->. Qed.

(** A tick never takes the error branch: it adopts what the call resolved
    with, and the status can only move to [ok]. *)
Lemma fetchLive_adopts (liveStatus_seen : App.LiveStatus) (svc : State)
    (net : Network) (st : App.State) :
  exists data,
    getLiveVehicles svc net None = Resolved data /\
    App.fetchLive liveStatus_seen svc net st
    = {| App.vehicles := data;
         App.liveStatus := match liveStatus_seen with
                           | App.ok => App.liveStatus st
                           | _ => App.ok
                           end |}.
Proof.
  destruct (getLiveVehicles_total svc net None) as [data Hd].
  exists data. split; [done|]. unfold App.fetchLive. by rewrite Hd.
Qed.

(** C6: a failed fetch or decode should be signalled to the caller, the
    displayed vehicles retained and the status flipped, which is what the
    [catch] branch of [fetchLive] does. The code does not get there: when
    the position feed answers 502, or answers bytes that do not decode,
    the body of [getLiveVehicles] throws, its own [catch] resolves the
    call with the empty list, and the tick replaces the displayed vehicles
    by the empty list and sets the status to [ok]. *)
Theorem fetch_failure_empties_display :
  let displayed := {| App.vehicles := [Examples.vehicle_14];
                      App.liveStatus := App.ok |} in
  getLiveVehicles_try Examples.catalog Examples.net_502 None
    = Rejected "API Error: 502" /\
  getLiveVehicles Examples.catalog Examples.net_502 None = Resolved [] /\
  App.fetchLive App.loading Examples.catalog Examples.net_502 displayed
    = {| App.vehicles := []; App.liveStatus := App.ok |} /\
  getLiveVehicles_try Examples.catalog Examples.net_garbled None
    = Rejected "invalid wire type" /\
  getLiveVehicles Examples.catalog Examples.net_garbled None = Resolved [] /\
  App.fetchLive App.loading Examples.catalog Examples.net_garbled displayed
    = {| App.vehicles := []; App.liveStatus := App.ok |}.
Proof. vm_compute. repeat split. Qed.
End PollClaims.

(** ** More on the history store: what a write changes and what a read
    returns *)

Section HistoryStoreFacts.
Import HistoryApi HistorySpec HistoryDocs.

(** The document found under a trip id after a batch. *)
Lemma bulkWrite_lookup (now expireTime : Z) (ops : list (string * IngestVehicle)) (T : string) :
  forall coll,
    (bulkWrite now expireTime ops coll).1.1 !! T =
    match last_for T ops with
    | Some v =>
        Some {| line := iv_line v; vehicleId := iv_id v;
                expireAt := expireTime; lastUpdate := now;
                trail := (trail_of coll T ++ points_for T now ops)%list |}
    | None => coll !! T
    end.
Proof.
  unfold bulkWrite. generalize 0%nat at 1. generalize 0%nat.
  induction ops as [|[t v] ops IH]; intros upserted modified coll; [done|].
  cbn [foldl last_for].
  assert (Hfold : forall m u,
    (foldl (fun '(c, modified, upserted) '(tripId, v) =>
              let c' := updateOne now expireTime c tripId v in
              match c !! tripId with
              | Some _ => (c', S modified, upserted)
              | None => (c', modified, S upserted)
              end) (updateOne now expireTime coll t v, m, u) ops).1.1 !! T =
    match last_for T ops with
    | Some v' =>
        Some {| line := iv_line v'; vehicleId := iv_id v';
                expireAt := expireTime; lastUpdate := now;
                trail := (trail_of coll T ++ points_for T now ((t, v) :: ops))%list |}
    | None => updateOne now expireTime coll t v !! T
    end).
  { intros m u. rewrite IH, updateOne_trail, <- app_assoc.
    change ((t, v) :: ops) with ([(t, v)] ++ ops)%list.
    by rewrite (points_for_app T now [(t, v)] ops). }
  assert (Hone : updateOne now expireTime coll t v !! T =
    if decide (t = T)
    then Some {| line := iv_line v; vehicleId := iv_id v;
                 expireAt := expireTime; lastUpdate := now;
                 trail := (trail_of coll T ++ points_for T now [(t, v)])%list |}
    else coll !! T).
  { unfold updateOne, points_for, trail_of. cbn.
    destruct (decide (t = T)) as [->|Hne].
    - by rewrite lookup_insert_eq.
    - by rewrite lookup_insert_ne. }
  assert (Hnone : last_for T ops = None -> points_for T now ops = []).
  { clear. induction ops as [|[t' v'] ops IH]; [done|]. cbn [last_for].
    destruct (last_for T ops); [done|].
    destruct (decide (t' = T)); [done|]. intros _.
    unfold points_for in *. cbn. rewrite decide_False by done. by apply IH. }
  destruct (coll !! t); rewrite Hfold;
    (destruct (last_for T ops) as [v'|]; [done|]);
    rewrite Hone; (destruct (decide (t = T)); [|done]);
    change ((t, v) :: ops) with ([(t, v)] ++ ops)%list;
    by rewrite (points_for_app T now [(t, v)] ops), (Hnone eq_refl), app_nil_r.
Qed.
End HistoryStoreFacts.

Section HistoryStoreClaims.
Import HistoryApi HistorySpec HistoryDocs.

Lemma last_for_elem (T : string) (ops : list (string * IngestVehicle)) (v : IngestVehicle) :
  last_for T ops = Some v -> (T, v) ∈ ops.
Proof.
  induction ops as [|[t v'] ops IH]; [done|]. cbn [last_for].
  destruct (last_for T ops) as [w|].
  - intros [= ->]. by apply list_elem_of_further, IH.
  - destruct (decide (t = T)) as [->|]; [|done].
    intros [= ->]. apply list_elem_of_here.
Qed.

Lemma last_for_None (T : string) (ops : list (string * IngestVehicle)) :
  last_for T ops = None <-> forall v, (T, v) ∉ ops.
Proof.
  induction ops as [|[t v'] ops IH]; cbn [last_for].
  - split; [intros _ v Hin; by apply elem_of_nil in Hin|done].
  - destruct (last_for T ops) as [w|] eqn:Hl.
    + split; [done|]. intros Hno. exfalso.
      apply (Hno w), list_elem_of_further. by apply last_for_elem.
    + destruct (decide (t = T)) as [->|Hne].
      * split; [done|]. intros Hno. exfalso. apply (Hno v'), list_elem_of_here.
      * split; [|done]. intros _ v Hin.
        apply elem_of_cons in Hin as [[= ? ?]|Hin]; [done|].
        by apply (proj1 IH eq_refl v).
Qed.

Lemma points_for_inv (T : string) (now : Z) (ops : list (string * IngestVehicle))
    (p : TrailPoint) :
  p ∈ points_for T now ops -> exists v, (T, v) ∈ ops /\ p = point_of now v.
Proof.
  unfold points_for. intros ([t v] & Hin & Hp)%list_elem_of_omap. simpl in Hp.
  destruct (decide (t = T)) as [->|]; [|done]. injection Hp as <-. eauto.
Qed.

Lemma validVehicles_elem (vs : list IngestVehicle) (T : string) (v : IngestVehicle) :
  (T, v) ∈ validVehicles vs <-> v ∈ vs /\ iv_tripId v = Some T /\ T <> "".
Proof.
  unfold validVehicles. rewrite list_elem_of_omap. split.
  - intros (w & Hw & Hf). destruct (JS.nonempty (iv_tripId w)) as [t|] eqn:Ht; [|done].
    simpl in Hf. injection Hf as -> ->. by apply nonempty_Some in Ht as [? ?].
  - intros (Hv & Hid & HT). exists v. split; [done|].
    by rewrite (proj2 (nonempty_Some _ _) (conj Hid HT)).
Qed.

Lemma ingest_handler_cases (uri : bool) (now : Z) (req : IngestRequest)
    (db : Database) :
  let res := (ingest_handler uri now req db).1 in
  let db' := (ingest_handler uri now req db).2 in
  (exists vs modified upserted,
     method req = "POST" /\ uri = true /\ connected db = true /\
     vehicles req = Some vs /\ validVehicles vs <> [] /\
     res = {| i_status := 200;
              i_json := IJ_success (List.length (validVehicles vs)) modified upserted |})
  \/ (db' = db /\ forall c m u, i_json res <> IJ_success c m u).
Proof.
  unfold ingest_handler, clientPromise.
  destruct (String.eqb_spec (method req) "POST") as [Hm|Hm]; simpl; [|by right].
  destruct uri; simpl; [|by right].
  destruct (vehicles req) as [[|v0 vs0]|] eqn:Hvs; [by right| |by right].
  destruct (connected db) eqn:Hc; [|by right].
  destruct (validVehicles (v0 :: vs0)) as [|op ops] eqn:Hops; [by right|].
  destruct (bulkWrite _ _ _ _) as [[coll' modified] upserted]. simpl.
  left. exists (v0 :: vs0), modified, upserted. rewrite Hops. done.
Qed.

Lemma handler_no_fault (uri : bool) (now : Z) (req : IngestRequest) (db : Database) :
  IngestFaults.handler uri now (method req) (Some (vehicles req)) IngestFaults.no_fault db
  = (Resolved (ingest_handler uri now req db).1, (ingest_handler uri now req db).2).
Proof.
  unfold IngestFaults.handler, ingest_handler.
  destruct (negb (String.eqb (method req) "POST")); [done|].
  destruct (negb uri); [done|].
  destruct (vehicles req) as [[|v0 vs0]|]; [done| |done].
  destruct (clientPromise db) as [collection|]; [|done].
  destruct (validVehicles (v0 :: vs0)) as [|op ops]; [done|].
  by destruct (bulkWrite _ _ _ _) as [[collection' modified] upserted].
Qed.

(** X1: the store is written by [bulkWrite] and by nothing else, and the
    answer does not tell whether it was. A success answer means that no
    command failed and that every valid vehicle of the batch was appended.
    The store is left as it was unless the request is a POST with a body
    that holds a valid vehicle, the connection string is configured, the
    client connects and [createIndex] goes through. When [bulkWrite] then
    throws, the answer is 500 "Database error" although the operations
    applied before are in the store. A request without a body is not
    answered at all. With a body and no failing command the handler is
    [ingest_handler]. *)
Theorem ingest_error_answer_after_writes (uri : bool) (now : Z) (method : string)
    (body : option (option (list IngestVehicle))) (fault : IngestFaults.Fault)
    (db : Database) :
  let res := (IngestFaults.handler uri now method body fault db).1 in
  let db' := (IngestFaults.handler uri now method body fault db).2 in
  (forall count modified upserted,
     res = Resolved {| i_status := 200;
                       i_json := IJ_success count modified upserted |} ->
     method = "POST" /\ uri = true /\ connected db = true /\
     fault = IngestFaults.no_fault /\
     exists vs, body = Some (Some vs) /\ count = List.length (validVehicles vs) /\
       forall T, trail_of (vehicle_trails db') T
                 = (trail_of (vehicle_trails db) T
                    ++ points_for T now (validVehicles vs))%list) /\
  (db' = db \/
   (method = "POST" /\ uri = true /\ connected db = true /\
    fault <> IngestFaults.createIndex_throws /\
    exists vs, body = Some (Some vs) /\ validVehicles vs <> [])) /\
  (forall applied vs,
     method = "POST" -> uri = true -> connected db = true ->
     body = Some (Some vs) -> validVehicles vs <> [] ->
     fault = IngestFaults.bulkWrite_throws applied ->
     res = Resolved IngestFaults.Database_error /\
     forall T, trail_of (vehicle_trails db') T
               = (trail_of (vehicle_trails db) T
                  ++ points_for T now
                       (IngestFaults.applied_ops applied (validVehicles vs)))%list) /\
  (method = "POST" -> uri = true -> body = None -> exists msg, res = Rejected msg) /\
  (forall vehicles,
     body = Some vehicles -> fault = IngestFaults.no_fault ->
     let req := {| HistoryApi.method := method; HistoryApi.vehicles := vehicles |} in
     res = Resolved (ingest_handler uri now req db).1 /\
     db' = (ingest_handler uri now req db).2).
Proof.
  assert (Htrail : forall ops T,
    trail_of (bulkWrite now (now + 4 * 60 * 60 * 1000) ops (vehicle_trails db)).1.1 T
    = (trail_of (vehicle_trails db) T ++ points_for T now ops)%list).
  { intros ops T. unfold bulkWrite. apply bulkWrite_trail. }
  split; [|split; [|split; [|split]]].
  - intros count modified upserted. unfold IngestFaults.handler, clientPromise.
    destruct (String.eqb_spec method "POST") as [->|Hm]; simpl; [|done].
    destruct uri; simpl; [|done].
    destruct body as [[[|v0 vs0]|]|]; [done| |done..].
    destruct (connected db) eqn:Hc; [|done].
    destruct fault as [| |applied]; [|done|].
    + destruct (validVehicles (v0 :: vs0)) as [|op ops] eqn:Hops; [done|].
      pose proof (Htrail (op :: ops)) as Ht.
      destruct (bulkWrite _ _ _ _) as [[collection' m] u]. cbn [fst snd] in *.
      intros [= <- _ _]. repeat split; try done.
      exists (v0 :: vs0). by rewrite Hops.
    + destruct (validVehicles (v0 :: vs0)) as [|op ops]; [done|].
      by destruct (bulkWrite _ _ _ _) as [[collection' m] u].
  - unfold IngestFaults.handler, clientPromise.
    destruct (String.eqb_spec method "POST") as [->|Hm]; simpl; [|by left].
    destruct uri; simpl; [|by left].
    destruct body as [[[|v0 vs0]|]|]; [by left| |by left..].
    destruct (connected db) eqn:Hc; [|by left].
    destruct fault as [| |applied]; [|by left|].
    + destruct (validVehicles (v0 :: vs0)) as [|op ops] eqn:Hops; [by left|].
      right. repeat split; try done. exists (v0 :: vs0). by rewrite Hops.
    + destruct (validVehicles (v0 :: vs0)) as [|op ops] eqn:Hops; [by left|].
      right. repeat split; try done. exists (v0 :: vs0). by rewrite Hops.
  - intros applied vs -> -> Hc -> Hne ->.
    unfold IngestFaults.handler, clientPromise. simpl. rewrite Hc.
    destruct vs as [|v0 vs0]; [done|].
    destruct (validVehicles (v0 :: vs0)) as [|op ops] eqn:Hops; [done|].
    pose proof (Htrail (IngestFaults.applied_ops applied (op :: ops))) as Ht.
    by destruct (bulkWrite _ _ _ _) as [[collection' m] u].
  - intros -> -> ->. simpl. eauto.
  - intros vehicles -> ->. cbv zeta.
    pose proof (handler_no_fault uri now
                  {| HistoryApi.method := method; HistoryApi.vehicles := vehicles |} db)
      as Hn.
    cbn [HistoryApi.method HistoryApi.vehicles] in Hn. by rewrite Hn.
Qed.

Lemma ingest_error_answer_after_writes_witness :
  (IngestFaults.handler true 1000 "POST"
     (Some (Some [Examples.sighting "T1" PrimFloat.one;
                  Examples.sighting "T2" PrimFloat.two]))
     (IngestFaults.bulkWrite_throws [true; false]) Examples.empty_db).1
  = Resolved IngestFaults.Database_error /\
  trail_of (vehicle_trails
              (IngestFaults.handler true 1000 "POST"
                 (Some (Some [Examples.sighting "T1" PrimFloat.one;
                              Examples.sighting "T2" PrimFloat.two]))
                 (IngestFaults.bulkWrite_throws [true; false]) Examples.empty_db).2) "T1"
  = [point_of 1000 (Examples.sighting "T1" PrimFloat.one)].
Proof.
  destruct (proj1 (proj2 (proj2
              (ingest_error_answer_after_writes true 1000 "POST"
                 (Some (Some [Examples.sighting "T1" PrimFloat.one;
                              Examples.sighting "T2" PrimFloat.two]))
                 (IngestFaults.bulkWrite_throws [true; false]) Examples.empty_db)))
              [true; false]
              [Examples.sighting "T1" PrimFloat.one; Examples.sighting "T2" PrimFloat.two]
              eq_refl eq_refl eq_refl eq_refl ltac:(discriminate) eq_refl)
    as [Hres Htrail].
  split; [exact Hres|exact (Htrail "T1")].
Defined.

Lemma post_lookup (now : Z) (vs : list IngestVehicle) (db : Database)
    (T : string) :
  connected db = true ->
  vehicle_trails (post db (now, vs)) !! T =
  match last_for T (validVehicles vs) with
  | Some v =>
      Some {| line := iv_line v; vehicleId := iv_id v;
              expireAt := now + INGEST_WINDOW; lastUpdate := now;
              trail := (trail_of (vehicle_trails db) T
                        ++ points_for T now (validVehicles vs))%list |}
  | None => vehicle_trails db !! T
  end.
Proof.
  intros Hc. unfold post, ingest_handler, clientPromise. simpl. rewrite Hc.
  destruct vs as [|v0 vs0]; [done|].
  destruct (validVehicles (v0 :: vs0)) as [|op ops] eqn:Hops; [done|].
  pose proof (bulkWrite_lookup now (now + 4 * 60 * 60 * 1000) (op :: ops) T
                (vehicle_trails db)) as Hl.
  destruct (bulkWrite _ _ _ _) as [[coll' modified] upserted]. simpl in *.
  exact Hl.
Qed.

(** X2: a successful ingest at time [now] leaves, under every trip id of the
    batch, a document with the line and vehicle id of the last vehicle of
    the batch for that trip, [lastUpdate = now], [expireAt = now + 4 h]
    whatever it was before, and the old trail followed by the new points;
    every other document is untouched. *)
Theorem ingest_document_after (now : Z) (vs : list IngestVehicle) (db : Database)
    (T : string) :
  connected db = true ->
  vehicle_trails (post db (now, vs)) !! T =
  match last_for T (validVehicles vs) with
  | Some v =>
      Some {| line := iv_line v; vehicleId := iv_id v;
              expireAt := now + INGEST_WINDOW; lastUpdate := now;
              trail := (trail_of (vehicle_trails db) T
                        ++ points_for T now (validVehicles vs))%list |}
  | None => vehicle_trails db !! T
  end.
Proof. apply post_lookup. Qed.

Lemma ingest_document_after_witness :
  vehicle_trails (post Examples.empty_db
                    (1000, [Examples.sighting "T1" PrimFloat.one;
                            Examples.sighting "T1" PrimFloat.two])) !! "T1"
  = Some {| line := Some "9011001001200000"; vehicleId := Some "v1";
            expireAt := 14401000; lastUpdate := 1000;
            trail := [ {| lat := Some PrimFloat.one;
                          lng := iv_lng (Examples.sighting "T1" PrimFloat.one);
                          ts := 1000 |};
                       {| lat := Some PrimFloat.two;
                          lng := iv_lng (Examples.sighting "T1" PrimFloat.one);
                          ts := 1000 |} ] |}.
Proof.
  exact (ingest_document_after 1000
           [Examples.sighting "T1" PrimFloat.one; Examples.sighting "T1" PrimFloat.two]
           Examples.empty_db "T1" eq_refl).
Defined.

(** X3: no request removes a document or a point: under every trip id the
    trail before the request is a prefix of the trail after it. *)
Theorem ingest_never_truncates (uri : bool) (now : Z) (req : IngestRequest)
    (db : Database) (T : string) :
  let db' := (ingest_handler uri now req db).2 in
  trail_of (vehicle_trails db) T `prefix_of` trail_of (vehicle_trails db') T
  /\ (is_Some (vehicle_trails db !! T) -> is_Some (vehicle_trails db' !! T)).
Proof.
  destruct (ingest_handler_cases uri now req db)
    as [(vs & m & u & Hm & -> & Hc & Hvs & Hne & Hres)|[-> _]]; [|done].
  assert (Hpost : (ingest_handler true now req db).2 = post db (now, vs)).
  { unfold post. simpl. do 2 f_equal. destruct req as [me ve]. simpl in *. by subst. }
  simpl. rewrite Hpost. split.
  - destruct (post_trail db now vs T Hc) as [_ ->]. by apply prefix_app_r.
  - rewrite (post_lookup now vs db T Hc).
    by destruct (last_for T (validVehicles vs)).
Qed.

(** X4: a read of a non-empty trip id on a reachable database answers 200 with
    a path that is a permutation of the stored trail: no point is lost,
    repeated or invented, and the path has the length of the trail. *)
Theorem history_path_is_permutation (db : Database) (T : string) :
  connected db = true -> T <> "" ->
  exists path,
    history_handler (Some (QString T)) db
    = {| h_status := 200; h_json := HJ_path path |} /\
    Permutation path (trail_of (vehicle_trails db) T) /\
    List.length path = List.length (trail_of (vehicle_trails db) T).
Proof.
  intros Hc HT. eexists. split; [by apply history_connected|].
  split; [apply sort_by_Permutation|].
  apply Permutation_length, sort_by_Permutation.
Qed.

Lemma history_path_is_permutation_witness :
  exists path,
    history_handler (Some (QString "14010000123456789"))
      (post_all Examples.empty_db Examples.calls)
    = {| h_status := 200; h_json := HJ_path path |} /\
    Permutation path
      (trail_of (vehicle_trails (post_all Examples.empty_db Examples.calls))
         "14010000123456789") /\
    List.length path
    = List.length (trail_of (vehicle_trails (post_all Examples.empty_db Examples.calls))
                     "14010000123456789").
Proof.
  apply (history_path_is_permutation (post_all Examples.empty_db Examples.calls)
           "14010000123456789").
  - reflexivity.
  - discriminate.
Defined.

(** X5: through the client: after any series of ingests on a reachable
    database, [getVehicleHistory] of a trip id that reaches the handler as
    it is (the client does not encode it; ids of letters and digits do)
    resolves with the sorted path of the trip, which holds every point
    appended under it. *)
Theorem client_history_round_trip (query_tripId : string -> option QueryValue)
    (db : Database) (calls : list (Z * list IngestVehicle)) (T : string) :
  connected db = true -> T <> "" ->
  query_tripId T = Some (QString T) ->
  exists path,
    SLService.getVehicleHistory (endpoint query_tripId (post_all db calls)) T
    = Resolved path /\
    path = sort_by ts_leb (trail_of (vehicle_trails (post_all db calls)) T) /\
    StronglySorted (fun a b => (ts a <= ts b)%Z) path /\
    (forall now vs v,
       (now, vs) ∈ calls -> v ∈ vs -> iv_tripId v = Some T ->
       {| lat := iv_lat v; lng := iv_lng v; ts := now |} ∈ path).
Proof.
  intros Hc HT Hq.
  destruct (post_all_trail calls T db Hc) as [Hc' Hiff].
  eexists. split; [|split; [reflexivity|split]].
  - unfold SLService.getVehicleHistory, SLService.getVehicleHistory_try, endpoint.
    rewrite strip_prefix_app, Hq, (history_connected _ T Hc' HT). reflexivity.
  - apply Sorted_StronglySorted; [intros a b c; lia|].
    eapply Sorted_ind with (P := Sorted (fun a b => (ts a <= ts b)%Z));
      [constructor| |apply (sort_by_Sorted ts_leb ts_leb_total)].
    intros a l _ IH Hhd. constructor; [done|].
    destruct Hhd as [|b l Hab]; constructor. unfold ts_leb in Hab. lia.
  - intros now vs v Hin Hv Hid.
    apply sort_by_elem, Hiff. right. exists now, vs. split; [done|].
    by apply (points_for_elem T now vs v).
Qed.

Lemma client_history_round_trip_witness :
  exists path,
    SLService.getVehicleHistory
      (endpoint Examples.query_unreserved (post_all Examples.empty_db Examples.calls))
      "14010000123456789"
    = Resolved path /\
    path = sort_by ts_leb
             (trail_of (vehicle_trails (post_all Examples.empty_db Examples.calls))
                "14010000123456789") /\
    StronglySorted (fun a b => (ts a <= ts b)%Z) path /\
    (forall now vs v,
       (now, vs) ∈ Examples.calls -> v ∈ vs ->
       iv_tripId v = Some "14010000123456789" ->
       {| lat := iv_lat v; lng := iv_lng v; ts := now |} ∈ path).
Proof.
  apply (client_history_round_trip Examples.query_unreserved
           Examples.empty_db Examples.calls "14010000123456789").
  - reflexivity.
  - discriminate.
  - reflexivity.
Defined.
End HistoryStoreClaims.

(** ** The scheduled writer *)

Section CronClaims.
Import HistoryApi HistorySpec HistoryDocs.

Lemma cron_store (response : Outcome SLService.Response) (now : Z)
    (coll : gmap string TrailDoc) :
  (Cron.fetchAndSaveData response now coll).2
  = (bulkWrite now (now + CRON_WINDOW) (CronSpec.written response now) coll).1.1.
Proof.
  unfold Cron.fetchAndSaveData, CronSpec.written.
  destruct response as [res|]; [|done].
  destruct (SLService.ok res); cbn [negb]; [|done].
  destruct (SLService.decode (SLService.body res)) as [object|]; [|done].
  destruct (default [] (entity object)) as [|e es]; [done|].
  destruct (omap (Cron.validVehicle now) (e :: es)) as [|op ops]; [done|].
  unfold CRON_WINDOW.
  by destruct (bulkWrite _ _ _ _) as [[coll' modified] upserted].
Qed.

Lemma cron_validVehicle_inv (now : Z) (e : FeedEntity) (t : string) (v : IngestVehicle) :
  Cron.validVehicle now e = Some (t, v) ->
  t <> "" /\ iv_tripId v = Some t /\ is_Some (iv_lat v) /\ is_Some (iv_lng v).
Proof.
  unfold Cron.validVehicle.
  destruct (fe_vehicle e) as [vehicle|]; [|done].
  destruct (vp_trip vehicle) as [trip|]; [|done].
  destruct (JS.nonempty (JS.or (td_tripId trip) (td_trip_id trip))) as [tid|] eqn:Ht;
    [|done].
  destruct (vp_position vehicle) as [position|]; [|done].
  intros [= <- <-]. simpl. apply nonempty_Some in Ht as [_ ?]. eauto.
Qed.

(** X6: whatever the feed answers, a run only appends: under every trip id the
    new trail is the old one followed by points stamped [now] that all
    carry a latitude and a longitude, and nothing is appended under the
    empty trip id. *)
Theorem cron_points_have_coordinates (response : Outcome SLService.Response)
    (now : Z) (coll : gmap string TrailDoc) (T : string) :
  exists new,
    trail_of (Cron.fetchAndSaveData response now coll).2 T
    = (trail_of coll T ++ new)%list /\
    (T = "" -> new = []) /\
    (forall p, p ∈ new -> ts p = now /\ is_Some (lat p) /\ is_Some (lng p)).
Proof.
  exists (points_for T now (CronSpec.written response now)).
  assert (Hops : forall t v, (t, v) ∈ CronSpec.written response now ->
            t <> "" /\ is_Some (iv_lat v) /\ is_Some (iv_lng v)).
  { intros t v. unfold CronSpec.written.
    destruct response as [res|]; [|by intros ?%elem_of_nil].
    destruct (SLService.ok res); [|by intros ?%elem_of_nil].
    destruct (SLService.decode (SLService.body res)) as [object|];
      [|by intros ?%elem_of_nil].
    intros (e & _ & He)%list_elem_of_omap.
    apply cron_validVehicle_inv in He. tauto. }
  split; [|split].
  - rewrite cron_store. unfold bulkWrite. apply bulkWrite_trail.
  - intros ->. destruct (points_for "" now _) as [|p ps] eqn:Hp; [done|].
    assert (Hin : p ∈ points_for "" now (CronSpec.written response now))
      by (rewrite Hp; apply list_elem_of_here).
    apply points_for_inv in Hin as (v & Hin & _). by apply Hops in Hin as [? _].
  - intros p (v & Hin & ->)%points_for_inv. apply Hops in Hin as (_ & ? & ?).
    done.
Qed.

(** X7: a run at [now'] that writes a trip resets its expiry to [now' + 2 h].
    When it follows, by less than two hours, an ingest at [now] of the same
    trip, which had set the expiry to [now + 4 h], the document expires
    earlier than before the run; its trail keeps the ingested points and
    gains the new ones. *)
Theorem cron_after_ingest_shortens_expiry (db : Database) (now now' : Z)
    (vs : list IngestVehicle) (response : Outcome SLService.Response)
    (T : string) (v v' : IngestVehicle) :
  connected db = true ->
  last_for T (validVehicles vs) = Some v ->
  last_for T (CronSpec.written response now') = Some v' ->
  (now' < now + CRON_WINDOW)%Z ->
  exists doc doc',
    vehicle_trails (post db (now, vs)) !! T = Some doc /\
    (Cron.fetchAndSaveData response now' (vehicle_trails (post db (now, vs)))).2 !! T
      = Some doc' /\
    expireAt doc = (now + INGEST_WINDOW)%Z /\
    expireAt doc' = (now' + CRON_WINDOW)%Z /\
    (expireAt doc' < expireAt doc)%Z /\
    trail doc' = (trail doc ++ points_for T now' (CronSpec.written response now'))%list.
Proof.
  intros Hc Hv Hv' Hlt.
  eexists _, _.
  split; [rewrite (post_lookup now vs db T Hc), Hv; reflexivity|].
  split; [rewrite cron_store, bulkWrite_lookup, Hv'; reflexivity|].
  simpl. unfold INGEST_WINDOW, CRON_WINDOW in *.
  split; [done|]. split; [done|]. split; [lia|].
  unfold trail_of at 1. by rewrite (post_lookup now vs db T Hc), Hv.
Qed.

Lemma cron_after_ingest_shortens_expiry_witness :
  exists doc doc',
    vehicle_trails (post Examples.empty_db
                      (0, [Examples.sighting "14010000123456789" PrimFloat.one]))
      !! "14010000123456789" = Some doc /\
    (Cron.fetchAndSaveData (Resolved (Examples.feed [Examples.entity_14])) 60000
       (vehicle_trails (post Examples.empty_db
                          (0, [Examples.sighting "14010000123456789" PrimFloat.one]))
       )).2 !! "14010000123456789" = Some doc' /\
    expireAt doc = (0 + INGEST_WINDOW)%Z /\
    expireAt doc' = (60000 + CRON_WINDOW)%Z /\
    (expireAt doc' < expireAt doc)%Z /\
    trail doc'
    = (trail doc ++ points_for "14010000123456789" 60000
                      (CronSpec.written (Resolved (Examples.feed [Examples.entity_14]))
                         60000))%list.
Proof.
  refine (cron_after_ingest_shortens_expiry Examples.empty_db 0 60000
            [Examples.sighting "14010000123456789" PrimFloat.one]
            (Resolved (Examples.feed [Examples.entity_14]))
            "14010000123456789" _ _ eq_refl eq_refl eq_refl _).
  reflexivity.
Defined.
End CronClaims.

(** ** Search for a vehicle by its number *)

Section FindVehicleClaims.
Import SLService FindVehicle.

Lemma string_of_list_ascii_app (a b : list ascii) :
  string_of_list_ascii (a ++ b)
  = (string_of_list_ascii a ++ string_of_list_ascii b)%string.
Proof. induction a as [|c a IH]; [done|]. simpl. by rewrite IH. Qed.

Lemma list_ascii_of_string_app (a b : string) :
  list_ascii_of_string (a ++ b)%string
  = (list_ascii_of_string a ++ list_ascii_of_string b)%list.
Proof. induction a as [|c a IH]; [done|]. simpl. by rewrite IH. Qed.

(** [endsWith] holds exactly of the strings that end with the suffix. *)
Lemma endsWith_spec (s t : string) :
  JSString.endsWith s t = true <-> exists k, s = (k ++ t)%string.
Proof.
  unfold JSString.endsWith. rewrite bool_decide_eq_true. split.
  - intros [k Hk]. exists (string_of_list_ascii k).
    rewrite <- (string_of_list_ascii_of_string s), Hk, string_of_list_ascii_app.
    by rewrite string_of_list_ascii_of_string.
  - intros [k ->]. exists (list_ascii_of_string k). apply list_ascii_of_string_app.
Qed.

(** One turn of the loop on an entity whose vehicle matches. *)
Lemma findVehicle_loop_hit (svc : State) (target : string) (e : FeedEntity)
    (rest : list FeedEntity) (v : VehiclePosition) (vd : VehicleDescriptor) :
  fe_vehicle e = Some v -> vp_vehicle v = Some vd -> matches target vd = true ->
  findVehicle_loop svc target (e :: rest) =
  match FindVehicleSpec.route_of svc v with
  | None => findVehicle_loop svc target rest
  | Some routeId =>
      match vp_position v with
      | None => Rejected "TypeError: Cannot read properties of undefined"
      | Some position =>
          Resolved (Some
            ({| sv_id := default (fe_id e) (JS.nonempty (vd_id vd));
                sv_line := routeId;
                sv_tripId :=
                  default "" (JS.nonempty
                    (vp_trip v ≫= fun trip => JS.or (td_tripId trip) (td_trip_id trip)));
                sv_operator := "SL";
                sv_vehicleNumber :=
                  default (JSString.slice_last 4 (trimmed (vd_id vd)))
                          (JS.nonempty (vd_label vd));
                sv_lat := latitude position;
                sv_lng := longitude position;
                sv_bearing := JS.or_zero (bearing position);
                sv_speed := PrimFloat.mul (JS.or_zero (speed position)) MS_TO_KMH;
                sv_destination := "";
                sv_type := "Buss";
                sv_delay := None |},
             routeId))
      end
  end.
Proof.
  intros Hv Hvd Hm. cbn [findVehicle_loop]. rewrite Hv, Hvd, Hm.
  unfold FindVehicleSpec.route_of. cbv zeta. reflexivity.
Qed.

(** What the loop returns comes from an entity of the feed that matches. *)
Lemma findVehicle_loop_found (svc : State) (target : string)
    (posEntities : list FeedEntity) (veh : SLVehicle) (routeId : string) :
  findVehicle_loop svc target posEntities = Resolved (Some (veh, routeId)) ->
  exists e v vd position,
    e ∈ posEntities /\ fe_vehicle e = Some v /\ vp_vehicle v = Some vd /\
    vp_position v = Some position /\ matches target vd = true /\
    FindVehicleSpec.route_of svc v = Some routeId /\
    sv_line veh = routeId /\ sv_destination veh = "" /\ sv_delay veh = None /\
    sv_lat veh = latitude position /\ sv_lng veh = longitude position.
Proof.
  induction posEntities as [|e rest IH]; [done|].
  assert (Hrest : findVehicle_loop svc target rest = Resolved (Some (veh, routeId)) ->
    exists e0 v vd position,
      e0 ∈ e :: rest /\ fe_vehicle e0 = Some v /\ vp_vehicle v = Some vd /\
      vp_position v = Some position /\ matches target vd = true /\
      FindVehicleSpec.route_of svc v = Some routeId /\
      sv_line veh = routeId /\ sv_destination veh = "" /\ sv_delay veh = None /\
      sv_lat veh = latitude position /\ sv_lng veh = longitude position).
  { intros (e0 & v & vd & pos & Hin & H)%IH.
    exists e0, v, vd, pos. split; [by apply list_elem_of_further|done]. }
  destruct (fe_vehicle e) as [v|] eqn:Hv; [|by cbn [findVehicle_loop]; rewrite Hv].
  destruct (vp_vehicle v) as [vd|] eqn:Hvd;
    [|by cbn [findVehicle_loop]; rewrite Hv, Hvd].
  destruct (matches target vd) eqn:Hm;
    [|by cbn [findVehicle_loop]; rewrite Hv, Hvd, Hm].
  rewrite (findVehicle_loop_hit svc target e rest v vd Hv Hvd Hm).
  destruct (FindVehicleSpec.route_of svc v) as [rid|] eqn:Hr; [|done].
  destruct (vp_position v) as [pos|] eqn:Hp; [|done].
  intros [= <- <-]. exists e, v, vd, pos. simpl.
  split; [apply list_elem_of_here|done].
Qed.

(** X8: a vehicle that [findVehicle] returns comes from an entity of the
    position feed that has a position and whose trimmed label is the
    trimmed number, or whose trimmed id is not empty and ends with it; its
    line is the returned route id, which is not empty and is the route
    that the trip map, or else the feed, gives the entity; it carries no
    destination and no delay. *)
Theorem findVehicle_found_matches (svc : State) (fetch : Outcome Response)
    (vehicleNumber : string) (veh : SLVehicle) (routeId : string) :
  findVehicle svc fetch vehicleNumber = Resolved (Some (veh, routeId)) ->
  exists e v vd position,
    e ∈ Spec.entities_of fetch /\ fe_vehicle e = Some v /\
    vp_vehicle v = Some vd /\ vp_position v = Some position /\
    (trimmed (vd_label vd) = JSString.trim vehicleNumber \/
     (trimmed (vd_id vd) <> "" /\
      exists k, trimmed (vd_id vd) = (k ++ JSString.trim vehicleNumber)%string)) /\
    FindVehicleSpec.route_of svc v = Some routeId /\
    sv_line veh = routeId /\ routeId <> "" /\
    sv_lat veh = latitude position /\ sv_lng veh = longitude position /\
    sv_destination veh = "" /\ sv_delay veh = None.
Proof.
  unfold findVehicle, findVehicle_try, try_catch, Spec.entities_of.
  destruct fetch as [posRes|]; simpl; [|done].
  destruct (ok posRes); simpl; [|done].
  destruct (decode (body posRes)) as [posObject|]; simpl; [|done].
  destruct (findVehicle_loop _ _ _) as [[[veh' rid']|]|] eqn:Hloop; [|done..].
  intros [= -> ->].
  apply findVehicle_loop_found in Hloop
    as (e & v & vd & pos & Hin & Hv & Hvd & Hp & Hm & Hr & Hl & Hd & Hdel & Hlat & Hlng).
  exists e, v, vd, pos. repeat split; try done.
  - unfold matches in Hm. apply orb_true_iff in Hm as [Hm|Hm].
    + left. by apply String.eqb_eq.
    + right. apply andb_true_iff in Hm as [Hne Hends].
      split; [by apply String.eqb_neq, negb_true_iff|by apply endsWith_spec].
  - unfold FindVehicleSpec.route_of in Hr. by apply nonempty_Some in Hr as [_ ?].
Qed.

Lemma findVehicle_found_matches_witness :
  exists e v vd position,
    e ∈ Spec.entities_of (Resolved (Examples.feed [Examples.entity_anon; Examples.entity_14])) /\
    fe_vehicle e = Some v /\ vp_vehicle v = Some vd /\ vp_position v = Some position /\
    (trimmed (vd_label vd) = JSString.trim " 4711 " \/
     (trimmed (vd_id vd) <> "" /\
      exists k, trimmed (vd_id vd) = (k ++ JSString.trim " 4711 ")%string)) /\
    FindVehicleSpec.route_of Examples.catalog v = Some "9011001001200000" /\
    "9011001001200000" = "9011001001200000" /\ "9011001001200000" <> "" /\
    latitude Examples.pos_14 = latitude position /\
    longitude Examples.pos_14 = longitude position /\
    "" = "" /\ @None Z = None.
Proof.
  exact (findVehicle_found_matches Examples.catalog
           (Resolved (Examples.feed [Examples.entity_anon; Examples.entity_14]))
           " 4711 " _ _ eq_refl).
Defined.

Lemma findVehicle_decoded (svc : State) (posRes : Response) (posObject : FeedMessage)
    (posEntities : list FeedEntity) (vehicleNumber : string) :
  ok posRes = true -> decode (body posRes) = Resolved posObject ->
  entity posObject = Some posEntities ->
  findVehicle svc (Resolved posRes) vehicleNumber
  = try_catch (findVehicle_loop svc (JSString.trim vehicleNumber) posEntities) None.
Proof.
  intros Hok Hdec Hent. unfold findVehicle, findVehicle_try.
  cbn -[findVehicle_loop]. rewrite Hok, Hdec. cbn -[findVehicle_loop].
  by rewrite Hent.
Qed.

(** X9: the two lookups disagree on the route of a vehicle whose trip is in the
    trip map: [findVehicle] files it under the route of the trip map even
    when its feed entry names a route, while the position loop of
    [getLiveVehicles] keeps the route of the feed entry. *)
Theorem findVehicle_trip_map_overrides_feed_route (svc : State)
    (posRes : Response) (posObject : FeedMessage) (updateEntities : list FeedEntity)
    (e : FeedEntity) (rest : list FeedEntity)
    (v : VehiclePosition) (vd : VehicleDescriptor) (position : Position)
    (trip : TripDescriptor) (tripId feedRoute : string) (me : TripMapEntry)
    (vehicleNumber : string) :
  ok posRes = true -> decode (body posRes) = Resolved posObject ->
  entity posObject = Some (e :: rest) ->
  fe_vehicle e = Some v -> vp_vehicle v = Some vd ->
  vp_position v = Some position -> vp_trip v = Some trip ->
  matches (JSString.trim vehicleNumber) vd = true ->
  Spec.tripId_of trip = Some tripId ->
  JS.nonempty (Spec.routeId_of trip) = Some feedRoute ->
  (tripToRouteMap svc ≫= fun m => m !! tripId) = Some me -> r me <> "" ->
  (exists veh,
     findVehicle svc (Resolved posRes) vehicleNumber = Resolved (Some (veh, r me))
     /\ sv_line veh = r me) /\
  (exists veh',
     resolveEntity svc (buildTripInfoMap updateEntities) e = Some veh'
     /\ sv_line veh' = feedRoute).
Proof.
  intros Hok Hdec Hent Hv Hvd Hp Ht Hm Hid Hfeed Hmap Hr. split.
  - rewrite (findVehicle_decoded svc posRes posObject (e :: rest) _ Hok Hdec Hent).
    rewrite (findVehicle_loop_hit svc _ e rest v vd Hv Hvd Hm).
    assert (Hroute : FindVehicleSpec.route_of svc v = Some (r me)).
    { unfold FindVehicleSpec.route_of. rewrite Ht. simpl.
      unfold Spec.tripId_of in Hid. rewrite Hid.
      destruct (tripToRouteMap svc) as [m|]; [|done]. simpl in Hmap.
      unfold mapped_route. rewrite Hmap. by apply nonempty_Some. }
    rewrite Hroute, Hp. simpl. eauto.
  - rewrite (resolveEntity_rules svc updateEntities e v position trip tripId Hv Hp Ht Hid).
    unfold Spec.routeId. cbn [Spec.first_nonempty]. rewrite Hfeed. simpl. eauto.
Qed.

Lemma findVehicle_trip_map_overrides_feed_route_witness :
  (exists veh,
     findVehicle Examples.catalog (Resolved (Examples.feed [MoreExamples.entity_r99]))
       "4711" = Resolved (Some (veh, "9011001001200000"))
     /\ sv_line veh = "9011001001200000") /\
  (exists veh',
     resolveEntity Examples.catalog (buildTripInfoMap []) MoreExamples.entity_r99
     = Some veh' /\ sv_line veh' = "99").
Proof.
  exact (findVehicle_trip_map_overrides_feed_route Examples.catalog
           (Examples.feed [MoreExamples.entity_r99])
           {| entity := Some [MoreExamples.entity_r99] |} []
           MoreExamples.entity_r99 [] MoreExamples.vp_r99 MoreExamples.vd_4711
           Examples.pos_14 MoreExamples.trip_14_r99 "14010000123456789" "99"
           {| r := "9011001001200000"; h := "Sollentuna" |} "4711"
           eq_refl eq_refl eq_refl eq_refl eq_refl eq_refl eq_refl eq_refl
           eq_refl eq_refl eq_refl ltac:(discriminate)).
Defined.

(** The loop passes over the entities at which it does not stop. *)
Lemma findVehicle_loop_skip (svc : State) (target : string)
    (pre posEntities : list FeedEntity) :
  (forall e, e ∈ pre -> FindVehicleSpec.hit svc target e = false) ->
  findVehicle_loop svc target (pre ++ posEntities)
  = findVehicle_loop svc target posEntities.
Proof.
  induction pre as [|e pre IH]; intros Hpre; [done|].
  assert (Hrest : findVehicle_loop svc target (pre ++ posEntities)
                  = findVehicle_loop svc target posEntities).
  { apply IH. intros e0 He0. by apply Hpre, list_elem_of_further. }
  pose proof (Hpre e (list_elem_of_here _ _)) as He.
  unfold FindVehicleSpec.hit in He.
  change ((e :: pre) ++ posEntities)%list with (e :: (pre ++ posEntities))%list.
  destruct (fe_vehicle e) as [v|] eqn:Hv; [|by cbn [findVehicle_loop]; rewrite Hv].
  destruct (vp_vehicle v) as [vd|] eqn:Hvd;
    [|by cbn [findVehicle_loop]; rewrite Hv, Hvd].
  destruct (matches target vd) eqn:Hm;
    [|by cbn [findVehicle_loop]; rewrite Hv, Hvd, Hm].
  rewrite (findVehicle_loop_hit svc target e _ v vd Hv Hvd Hm).
  destruct (FindVehicleSpec.route_of svc v) as [routeId|]; [|done].
  cbn [andb] in He. apply bool_decide_eq_false in He. destruct He. eauto.
Qed.

(** X10: the first entity of the feed that matches the number and has a
    route ends the search; when it has no position the search ends with no
    result, whatever follows it in the feed: reading its latitude throws,
    and the exception is caught. *)
Theorem findVehicle_aborts_without_position (svc : State)
    (posRes : Response) (posObject : FeedMessage)
    (pre : list FeedEntity) (e : FeedEntity) (rest : list FeedEntity)
    (v : VehiclePosition) (vd : VehicleDescriptor) (routeId vehicleNumber : string) :
  ok posRes = true -> decode (body posRes) = Resolved posObject ->
  entity posObject = Some (pre ++ e :: rest)%list ->
  (forall e0, e0 ∈ pre ->
     FindVehicleSpec.hit svc (JSString.trim vehicleNumber) e0 = false) ->
  fe_vehicle e = Some v -> vp_vehicle v = Some vd -> vp_position v = None ->
  matches (JSString.trim vehicleNumber) vd = true ->
  FindVehicleSpec.route_of svc v = Some routeId ->
  findVehicle svc (Resolved posRes) vehicleNumber = Resolved None.
Proof.
  intros Hok Hdec Hent Hpre Hv Hvd Hp Hm Hr.
  rewrite (findVehicle_decoded svc posRes posObject _ _ Hok Hdec Hent).
  rewrite (findVehicle_loop_skip svc _ pre (e :: rest) Hpre).
  by rewrite (findVehicle_loop_hit svc _ e rest v vd Hv Hvd Hm), Hr, Hp.
Qed.

Lemma findVehicle_aborts_without_position_witness :
  findVehicle Examples.catalog
    (Resolved (Examples.feed [Examples.entity_anon; MoreExamples.entity_constructor;
                              MoreExamples.entity_nowhere; MoreExamples.entity_r99]))
    "4711" = Resolved None.
Proof.
  apply (findVehicle_aborts_without_position Examples.catalog
           (Examples.feed [Examples.entity_anon; MoreExamples.entity_constructor;
                           MoreExamples.entity_nowhere; MoreExamples.entity_r99])
           {| entity := Some [Examples.entity_anon; MoreExamples.entity_constructor;
                              MoreExamples.entity_nowhere; MoreExamples.entity_r99] |}
           [Examples.entity_anon; MoreExamples.entity_constructor]
           MoreExamples.entity_nowhere [MoreExamples.entity_r99]
           MoreExamples.vp_nowhere MoreExamples.vd_4711 "9011001001200000" "4711"
           eq_refl eq_refl eq_refl).
  - intros e0 He0. apply elem_of_cons in He0 as [->|He0]; [reflexivity|].
    apply list_elem_of_singleton in He0 as ->. reflexivity.
  - reflexivity.
  - reflexivity.
  - reflexivity.
  - reflexivity.
  - reflexivity.
Defined.

(** X11: the first match wins: the vehicle returned is made from the first
    entity of the feed that matches the number and has a route, when it
    has a position; the entities before it that do not match, or that have
    no route, are passed over; its route is that of the trip map when the
    trip is in the map. *)
Theorem findVehicle_first_match_wins (svc : State)
    (posRes : Response) (posObject : FeedMessage)
    (pre : list FeedEntity) (e : FeedEntity) (rest : list FeedEntity)
    (v : VehiclePosition) (vd : VehicleDescriptor) (position : Position)
    (routeId vehicleNumber : string) :
  ok posRes = true -> decode (body posRes) = Resolved posObject ->
  entity posObject = Some (pre ++ e :: rest)%list ->
  (forall e0, e0 ∈ pre ->
     FindVehicleSpec.hit svc (JSString.trim vehicleNumber) e0 = false) ->
  fe_vehicle e = Some v -> vp_vehicle v = Some vd -> vp_position v = Some position ->
  matches (JSString.trim vehicleNumber) vd = true ->
  FindVehicleSpec.route_of svc v = Some routeId ->
  exists veh,
    findVehicle svc (Resolved posRes) vehicleNumber = Resolved (Some (veh, routeId))
    /\ sv_id veh = default (fe_id e) (JS.nonempty (vd_id vd))
    /\ sv_line veh = routeId
    /\ sv_lat veh = latitude position /\ sv_lng veh = longitude position.
Proof.
  intros Hok Hdec Hent Hpre Hv Hvd Hp Hm Hr.
  rewrite (findVehicle_decoded svc posRes posObject _ _ Hok Hdec Hent).
  rewrite (findVehicle_loop_skip svc _ pre (e :: rest) Hpre).
  rewrite (findVehicle_loop_hit svc _ e rest v vd Hv Hvd Hm), Hr, Hp.
  simpl. eexists. split; [reflexivity|]. done.
Qed.

Lemma findVehicle_first_match_wins_witness :
  exists veh,
    findVehicle Examples.catalog
      (Resolved (Examples.feed [Examples.entity_anon; MoreExamples.entity_constructor;
                                MoreExamples.entity_r99; Examples.entity_14]))
      " 4711 "
    = Resolved (Some (veh, "9011001001200000"))
    /\ sv_id veh = "9031001004711"
    /\ sv_line veh = "9011001001200000"
    /\ sv_lat veh = latitude Examples.pos_14 /\ sv_lng veh = longitude Examples.pos_14.
Proof.
  apply (findVehicle_first_match_wins Examples.catalog
           (Examples.feed [Examples.entity_anon; MoreExamples.entity_constructor;
                           MoreExamples.entity_r99; Examples.entity_14])
           {| entity := Some [Examples.entity_anon; MoreExamples.entity_constructor;
                              MoreExamples.entity_r99; Examples.entity_14] |}
           [Examples.entity_anon; MoreExamples.entity_constructor]
           MoreExamples.entity_r99 [Examples.entity_14]
           MoreExamples.vp_r99 MoreExamples.vd_4711 Examples.pos_14
           "9011001001200000" " 4711 " eq_refl eq_refl eq_refl).
  - intros e0 He0. apply elem_of_cons in He0 as [->|He0]; [reflexivity|].
    apply list_elem_of_singleton in He0 as ->. reflexivity.
  - reflexivity.
  - reflexivity.
  - reflexivity.
  - reflexivity.
  - reflexivity.
Defined.
End FindVehicleClaims.

(** ** Search for lines and stops *)

Section SearchMore.
Import SLService Search.

Lemma prefix_spec (q s : string) :
  String.prefix q s = true <-> exists b, s = (q ++ b)%string.
Proof.
  revert s. induction q as [|a q IH]; intros s.
  - split; [|by destruct s]. intros _. by exists s.
  - destruct s as [|c s]; simpl.
    + split; [done|]. by intros [b ?].
    + destruct (ascii_dec a c) as [->|Hne].
      * rewrite IH. split; intros [b Hb]; exists b; [by rewrite Hb|].
        by injection Hb.
      * split; [done|]. intros [b Hb]. by injection Hb.
Qed.

(** [includes] holds exactly of the strings that contain the query. *)
Lemma includes_spec (s q : string) :
  JSString.includes s q = true <-> exists a b, s = (a ++ q ++ b)%string.
Proof.
  induction s as [|c s IH]; cbn [JSString.includes].
  - rewrite orb_false_r, prefix_spec. split.
    + intros [b Hb]. by exists "", b.
    + intros (a & b & Hab). destruct a; [by exists b|done].
  - rewrite orb_true_iff, prefix_spec, IH. split.
    + intros [[b Hb]|(a & b & ->)]; [by exists "", b|by exists (String c a), b].
    + intros (a & b & Hab). destruct a as [|c' a]; [left; by exists b|].
      right. exists a, b. by injection Hab.
Qed.

(** [String.prototype.toLowerCase]; nothing is assumed of it. *)
Variable toLowerCase : string -> string.

Lemma searchStops_length (query : string) (cursor : list SLStop) :
  forall results,
    (List.length results < 10)%nat ->
    (List.length (searchStops_onsuccess toLowerCase query cursor results) <= 10)%nat.
Proof.
  induction cursor as [|stop continue IH]; intros results Hlen; simpl; [lia|].
  destruct (JSString.includes (toLowerCase (st_name stop)) query).
  - destruct (Nat.ltb_spec (List.length (results ++ [stopResult stop])%list) 10)
      as [Hlt|Hge].
    + by apply IH.
    + rewrite length_app in *. simpl in *. lia.
  - destruct (Nat.ltb_spec (List.length results) 10); [by apply IH|lia].
Qed.

Lemma searchStops_elem (query : string) (cursor : list SLStop) (res : SearchResult) :
  forall results,
    res ∈ searchStops_onsuccess toLowerCase query cursor results ->
    res ∈ results \/
    exists stop, stop ∈ cursor /\ res = stopResult stop /\
      JSString.includes (toLowerCase (st_name stop)) query = true.
Proof.
  induction cursor as [|stop continue IH]; intros results; simpl; [by left|].
  assert (Hnew : res ∈ (results ++ [stopResult stop])%list ->
    JSString.includes (toLowerCase (st_name stop)) query = true ->
    res ∈ results \/
    exists stop0, stop0 ∈ stop :: continue /\ res = stopResult stop0 /\
      JSString.includes (toLowerCase (st_name stop0)) query = true).
  { intros Hres Hm. apply elem_of_app in Hres as [?|Hres]; [by left|].
    apply list_elem_of_singleton in Hres. right. exists stop.
    split; [apply list_elem_of_here|done]. }
  assert (Hlater : forall results',
    (res ∈ results' -> res ∈ results \/
       exists stop0, stop0 ∈ stop :: continue /\ res = stopResult stop0 /\
         JSString.includes (toLowerCase (st_name stop0)) query = true) ->
    res ∈ searchStops_onsuccess toLowerCase query continue results' ->
    res ∈ results \/
    exists stop0, stop0 ∈ stop :: continue /\ res = stopResult stop0 /\
      JSString.includes (toLowerCase (st_name stop0)) query = true).
  { intros results' Hold Hres. apply IH in Hres as [Hres|(stop0 & Hin & ?)];
      [by apply Hold|].
    right. exists stop0. split; [by apply list_elem_of_further|done]. }
  destruct (JSString.includes (toLowerCase (st_name stop)) query) eqn:Hm.
  - destruct (List.length (results ++ [stopResult stop])%list <? 10)%nat.
    + apply Hlater. intros ?. by apply Hnew.
    + intros ?. by apply Hnew.
  - destruct (List.length results <? 10)%nat; [apply Hlater|]; by left.
Qed.

Lemma take_elem {A} (n : nat) (l : list A) (x : A) : x ∈ take n l -> x ∈ l.
Proof. intros Hx. rewrite <- (take_drop n l). apply elem_of_app. by left. Qed.

Lemma searchLines_length (query : string) (db : gmap string LineManifestEntry) :
  (List.length (searchLines toLowerCase query db) <= 10)%nat.
Proof. unfold searchLines. apply onsuccess_length. simpl. lia. Qed.

(** X12: a query that is blank after trimming finds nothing. Any other
    query returns the line results of the query in lower case, all of
    them, followed by the stop results as far as the 15 places go: the
    stops of the active route whose name in lower case contains the query
    when a route with stops is active, and the results of the stop search
    otherwise. The lines are at most 10, so at least 5 places are left to
    the stops. *)
Theorem search_keeps_lines_first (db : IDB) (query : string)
    (activeRoute : option SLLineRouteFull) :
  let q := toLowerCase query in
  let lines := searchLines toLowerCase q (idb_routes db) in
  let stops :=
    match activeRoute ≫= fun ar => pair ar <$> lrf_stops ar with
    | Some (ar, stops) =>
        routeStopResult ar
          <$> filter (fun stop => JSString.includes (toLowerCase (st_name stop)) q = true)
                     stops
    | None => searchStops toLowerCase q db
    end in
  (JSString.trim query = "" -> search toLowerCase db query activeRoute = []) /\
  (JSString.trim query <> "" ->
   search toLowerCase db query activeRoute
   = (lines ++ take (15 - List.length lines) stops)%list /\
   (List.length lines <= 10)%nat /\
   List.length (search toLowerCase db query activeRoute)
   = (List.length lines + (15 - List.length lines) `min` List.length stops)%nat).
Proof.
  intros q lines stops. split.
  - intros Hb. unfold search. by rewrite Hb.
  - intros Hnb.
    pose proof (searchLines_length q (idb_routes db)) as Hlen. fold lines in Hlen.
    assert (Hsearch : search toLowerCase db query activeRoute = take 15 (lines ++ stops)).
    { unfold search.
      destruct (JSString.trim query) as [|c t] eqn:Ht; [done|].
      cbn [String.length Nat.ltb Nat.leb]. cbv zeta. subst stops lines q.
      destruct activeRoute as [ar|]; [|done]. simpl.
      by destruct (lrf_stops ar) as [stops|]. }
    assert (Htake : take 15 (lines ++ stops)
                    = (lines ++ take (15 - List.length lines) stops)%list).
    { rewrite take_app. f_equal. apply take_ge. lia. }
    rewrite Hsearch, Htake. split; [done|]. split; [done|].
    by rewrite length_app, length_take.
Qed.

(** X13: every result of a search matches the query in lower case: a line
    result comes from a route of the store whose line in lower case starts
    with it; a stop result comes, when a route with stops is active, from
    a stop of that route, and otherwise from a stop of the store, and the
    name of the stop in lower case contains it. *)
Theorem search_results_match (db : IDB) (query : string)
    (activeRoute : option SLLineRouteFull) (res : SearchResult) :
  res ∈ search toLowerCase db query activeRoute ->
  (exists key route,
     idb_routes db !! key = Some route /\ res = lineResult route /\
     exists b, toLowerCase (lm_line route) = (toLowerCase query ++ b)%string)
  \/
  match activeRoute ≫= fun ar => pair ar <$> lrf_stops ar with
  | Some (ar, stops) =>
      exists stop,
        stop ∈ stops /\ res = routeStopResult ar stop /\
        exists a b, toLowerCase (st_name stop)
                    = (a ++ toLowerCase query ++ b)%string
  | None =>
      exists key stop,
        idb_stops db !! key = Some stop /\ res = stopResult stop /\
        exists a b, toLowerCase (st_name stop)
                    = (a ++ toLowerCase query ++ b)%string
  end.
Proof.
  unfold search. destruct (String.length (JSString.trim query) <? 1)%nat;
    [by intros ?%elem_of_nil|].
  cbv zeta.
  assert (Hline : res ∈ searchLines toLowerCase (toLowerCase query) (idb_routes db) ->
    exists key route,
      idb_routes db !! key = Some route /\ res = lineResult route /\
      exists b, toLowerCase (lm_line route) = (toLowerCase query ++ b)%string).
  { unfold searchLines. intros [Hres|(route & Hin & -> & Hm)]%onsuccess_elem;
      [by apply elem_of_nil in Hres|].
    unfold openCursor_line in Hin. apply sort_by_elem in Hin.
    apply list_elem_of_fmap in Hin as ([key route'] & -> & Hin).
    apply elem_of_map_to_list in Hin. exists key, route'.
    split; [done|]. split; [done|]. by apply prefix_spec. }
  assert (Hglobal :
    res ∈ take 15 (searchLines toLowerCase (toLowerCase query) (idb_routes db)
                   ++ searchStops toLowerCase (toLowerCase query) db) ->
    (exists key route,
       idb_routes db !! key = Some route /\ res = lineResult route /\
       exists b, toLowerCase (lm_line route) = (toLowerCase query ++ b)%string)
    \/ exists key stop,
         idb_stops db !! key = Some stop /\ res = stopResult stop /\
         exists a b, toLowerCase (st_name stop)
                     = (a ++ toLowerCase query ++ b)%string).
  { intros Hres%take_elem. apply elem_of_app in Hres as [Hres|Hres];
      [left; by apply Hline|].
    right. unfold searchStops in Hres.
    apply searchStops_elem in Hres as [Hres|(stop & Hin & -> & Hm)];
      [by apply elem_of_nil in Hres|].
    unfold openCursor_name in Hin. apply sort_by_elem in Hin.
    apply list_elem_of_fmap in Hin as ([key stop'] & -> & Hin).
    apply elem_of_map_to_list in Hin. exists key, stop'.
    split; [done|]. split; [done|]. by apply includes_spec. }
  destruct activeRoute as [ar|]; simpl; [|exact Hglobal].
  destruct (lrf_stops ar) as [stops|]; simpl; [|exact Hglobal].
  intros Hres%take_elem. apply elem_of_app in Hres as [Hres|Hres];
    [left; by apply Hline|].
  right. apply list_elem_of_fmap in Hres as (stop & -> & Hin).
  apply list_elem_of_filter in Hin as [Hm Hin].
  exists stop. split; [done|]. split; [done|]. by apply includes_spec.
Qed.
End SearchMore.

Section SearchMoreWitnesses.
Import SLService Search.

Lemma search_keeps_lines_first_witness :
  search MoreExamples.lower_latin1 MoreExamples.idb_mixed "4" None
  = [lineResult (Examples.manifest_entry "r4" "4");
     lineResult (Examples.manifest_entry "r40" "40");
     stopResult (MoreExamples.stop "s4" "Terminal 4")].
Proof.
  destruct (proj2 (search_keeps_lines_first MoreExamples.lower_latin1
                     MoreExamples.idb_mixed "4" None) ltac:(discriminate))
    as [Hsearch _].
  rewrite Hsearch. vm_compute. reflexivity.
Defined.

Lemma search_results_match_witness :
  (exists key route,
     idb_routes MoreExamples.idb_mixed !! key = Some route /\
     stopResult (MoreExamples.stop "s7" "Älvsjö station") = lineResult route /\
     exists b, MoreExamples.lower_latin1 (lm_line route)
               = (MoreExamples.lower_latin1 "ÄLVSJÖ" ++ b)%string)
  \/
  exists key stop,
    idb_stops MoreExamples.idb_mixed !! key = Some stop /\
    stopResult (MoreExamples.stop "s7" "Älvsjö station") = stopResult stop /\
    exists a b, MoreExamples.lower_latin1 (st_name stop)
                = (a ++ MoreExamples.lower_latin1 "ÄLVSJÖ" ++ b)%string.
Proof.
  refine (search_results_match MoreExamples.lower_latin1 MoreExamples.idb_mixed
            "ÄLVSJÖ" None (stopResult (MoreExamples.stop "s7" "Älvsjö station")) _).
  vm_compute. apply list_elem_of_here.
Defined.
End SearchMoreWitnesses.

(** ** The static data *)

Section StaticDataClaims.
Import StaticData StaticSpec.

(** A string that starts with a digit has no white space to strip. *)
Lemma trimStart_digit (c : ascii) (s : string) :
  JSNumber.is_digit c = true -> JSString.trimStart (String c s) = String c s.
Proof.
  intros Hc. unfold JSString.trimStart.
  destruct c as [[] [] [] [] [] [] [] []]; try discriminate Hc;
    destruct s as [|c2 [|c3 s3]]; reflexivity.
Qed.

Lemma string_of_uint_digits (d : Decimal.uint) :
  JSNumber.takeWhile JSNumber.is_digit (NilEmpty.string_of_uint d)
  = NilEmpty.string_of_uint d
  /\ JSString.trimStart (NilEmpty.string_of_uint d) = NilEmpty.string_of_uint d
  /\ match NilEmpty.string_of_uint d with
     | String c _ => JSNumber.is_digit c = true
     | EmptyString => True
     end.
Proof.
  assert (Hdigits :
    JSNumber.takeWhile JSNumber.is_digit (NilEmpty.string_of_uint d)
    = NilEmpty.string_of_uint d
    /\ match NilEmpty.string_of_uint d with
       | String c _ => JSNumber.is_digit c = true
       | EmptyString => True
       end).
  { induction d as [|d [IH _]|d [IH _]|d [IH _]|d [IH _]|d [IH _]
                     |d [IH _]|d [IH _]|d [IH _]|d [IH _]|d [IH _]];
      [done|simpl; by rewrite IH..]. }
  destruct Hdigits as [Htake Hhead]. split; [done|]. split; [|done].
  destruct (NilEmpty.string_of_uint d) as [|c s]; [done|]. by apply trimStart_digit.
Qed.

(** [parseInt] reads back the decimal string of a non-negative integer. *)
Lemma parseInt_String (z : Z) :
  (0 <= z)%Z -> JSNumber.parseInt (JS.String_of_int z) = Some z.
Proof.
  intros Hz. unfold JS.String_of_int.
  assert (Hint : Z.to_int z = Decimal.Pos (N.to_uint (Z.to_N z))).
  { destruct z as [|p|p]; [done|done|lia]. }
  rewrite Hint. cbn [NilZero.string_of_int].
  set (n := Z.to_N z).
  assert (Hn : N.to_uint n <> Decimal.Nil).
  { destruct n; [done|]. apply DecimalPos.Unsigned.to_uint_nonnil. }
  assert (Hs : NilZero.string_of_uint (N.to_uint n) = NilEmpty.string_of_uint (N.to_uint n)).
  { unfold NilZero.string_of_uint. by destruct (N.to_uint n). }
  destruct (string_of_uint_digits (N.to_uint n)) as (Htake & Htrim & Hhead).
  assert (Hparse : forall s,
    JSString.trimStart s = s -> JSNumber.takeWhile JSNumber.is_digit s = s ->
    match s with String c _ => JSNumber.is_digit c = true | EmptyString => True end ->
    JSNumber.parseInt s = (fun d => Z.of_N (N.of_uint d)) <$> NilZero.uint_of_string s).
  { intros s Ht Hd Hc. unfold JSNumber.parseInt. rewrite Ht.
    destruct s as [|c s']; [done|].
    assert (Hsign : c <> "-"%char /\ c <> "+"%char).
    { split; intros ->; discriminate Hc. }
    destruct Hsign as [Hm Hp].
    assert (Hbody : forall t : string,
      t = String c s' ->
      match t with
      | String "0" (String "x" s'0) | String "0" (String "X" s'0) =>
          Z.mul 1 <$> JSNumber.digits16 s'0
      | _ => Z.mul 1 <$> JSNumber.digits10 t
      end = (fun d => Z.of_N (N.of_uint d)) <$> NilZero.uint_of_string (String c s')).
    { intros t ->.
      assert (Hnox : forall c2 s2, s' = String c2 s2 -> c2 <> "x"%char /\ c2 <> "X"%char).
      { intros c2 s2 ->. simpl in Hd. rewrite Hc in Hd.
        destruct (JSNumber.is_digit c2) eqn:Hc2; [|done].
        split; intros ->; discriminate Hc2. }
      assert (H10 : Z.mul 1 <$> JSNumber.digits10 (String c s')
                    = (fun d => Z.of_N (N.of_uint d)) <$> NilZero.uint_of_string (String c s')).
      { unfold JSNumber.digits10. rewrite Hd.
        destruct (NilZero.uint_of_string (String c s')) as [d|]; [|done].
        simpl. f_equal. lia. }
      destruct s' as [|c2 s2].
      - destruct c as [[] [] [] [] [] [] [] []]; exact H10.
      - destruct (Hnox c2 s2 eq_refl) as [Hx HX].
        destruct c as [[] [] [] [] [] [] [] []]; try exact H10;
          destruct c2 as [[] [] [] [] [] [] [] []]; try exact H10; done. }
    destruct c as [[] [] [] [] [] [] [] []]; try discriminate Hc;
      cbv beta iota zeta; exact (Hbody _ eq_refl). }
  rewrite Hs, (Hparse _ Htrim Htake Hhead), <- Hs, NilZero.usu by done.
  simpl. rewrite DecimalN.Unsigned.of_to. subst n. f_equal. lia.
Qed.
End StaticDataClaims.

Section StaticDataStores.
Import StaticData StaticSpec.

Lemma last_stop_snoc (stopId : string) (stops : list Search.SLStop) (s : Search.SLStop) :
  last_stop stopId (stops ++ [s])
  = if decide (Search.st_id s = stopId) then Some s else last_stop stopId stops.
Proof. unfold last_stop. by rewrite foldl_app. Qed.

Lemma last_stop_Some (stopId : string) (stops : list Search.SLStop) (s : Search.SLStop) :
  last_stop stopId stops = Some s -> s ∈ stops /\ Search.st_id s = stopId.
Proof.
  induction stops as [|x stops IH] using rev_ind; [done|].
  rewrite last_stop_snoc, elem_of_app, list_elem_of_singleton.
  destruct (decide (Search.st_id x = stopId)) as [Hx|Hx].
  - intros [= ->]. auto.
  - intros [? ?]%IH. auto.
Qed.

Lemma last_stop_None (stopId : string) (stops : list Search.SLStop) :
  last_stop stopId stops = None ->
  forall s, s ∈ stops -> Search.st_id s <> stopId.
Proof.
  induction stops as [|x stops IH] using rev_ind;
    [intros _ s Hs; by apply elem_of_nil in Hs|].
  rewrite last_stop_snoc.
  destruct (decide (Search.st_id x = stopId)) as [Hx|Hx]; [done|].
  intros Hn s [Hs|Hs%list_elem_of_singleton]%elem_of_app; [by apply IH|by subst].
Qed.

Lemma setStopNames_lookup (stops : list Search.SLStop) (m : gmap string string)
    (stopId : string) :
  setStopNames stops m !! stopId =
  match last_stop stopId stops with
  | Some s => Some (Search.st_name s)
  | None => m !! stopId
  end.
Proof.
  induction stops as [|x stops IH] using rev_ind; [done|].
  rewrite last_stop_snoc. unfold setStopNames in *. rewrite foldl_app. simpl.
  destruct (decide (Search.st_id x = stopId)) as [<-|Hx].
  - by rewrite lookup_insert_eq.
  - by rewrite lookup_insert_ne.
Qed.

Lemma putStops_lookup (stops : list Search.SLStop) (stopId : string) :
  putStops stops !! stopId = last_stop stopId stops.
Proof.
  induction stops as [|x stops IH] using rev_ind; [done|].
  rewrite last_stop_snoc. unfold putStops in *. rewrite foldl_app. simpl.
  destruct (decide (Search.st_id x = stopId)) as [<-|Hx].
  - by rewrite lookup_insert_eq.
  - by rewrite lookup_insert_ne.
Qed.

Lemma putRoutes_last (manifest : list SLService.LineManifestEntry) (routeId : string) :
  SLService.putRoutes manifest !! routeId = last_route routeId manifest.
Proof.
  induction manifest as [|x manifest IH] using rev_ind; [done|].
  unfold SLService.putRoutes, last_route in *. rewrite !foldl_app. simpl.
  destruct (decide (SLService.lm_id x = routeId)) as [<-|Hx].
  - by rewrite lookup_insert_eq.
  - by rewrite lookup_insert_ne.
Qed.

Lemma putStops_keyed (stops : list Search.SLStop) : keyed_by_id (putStops stops).
Proof.
  intros key stop. rewrite putStops_lookup. by intros [_ ?]%last_stop_Some.
Qed.

(** In a store keyed by id, the last stop with an id is the stop filed
    under it. *)
Lemma last_stop_store (store : gmap string Search.SLStop) (stopId : string) :
  keyed_by_id store ->
  last_stop stopId (snd <$> map_to_list store) = store !! stopId.
Proof.
  intros Hk.
  destruct (last_stop stopId (snd <$> map_to_list store)) as [s|] eqn:Hl.
  - apply last_stop_Some in Hl as [Hin Hid].
    apply list_elem_of_fmap in Hin as ([key s'] & -> & Hin).
    apply elem_of_map_to_list in Hin. simpl in *.
    by rewrite <- Hid, (Hk _ _ Hin).
  - destruct (store !! stopId) as [s|] eqn:Hs; [|done]. exfalso.
    apply (last_stop_None _ _ Hl s); [|by apply Hk].
    apply list_elem_of_fmap. exists (stopId, s). split; [done|].
    by apply elem_of_map_to_list.
Qed.

Lemma loadAuxiliaryMaps_stopsMap (w : World) (svc : Service) :
  stopsMap (loadAuxiliaryMaps w svc) = stopsMap svc.
Proof.
  unfold loadAuxiliaryMaps.
  destruct (trip_to_route_json w) as [tripRes|]; [|done].
  destruct (route_directions_json w) as [dirRes|]; [|done].
  destruct (f_ok tripRes && f_isJson tripRes); simpl.
  - destruct (f_json tripRes); simpl; [|done].
    destruct (f_ok dirRes && f_isJson dirRes); [|done].
    by destruct (f_json dirRes).
  - destruct (f_ok dirRes && f_isJson dirRes); [|done].
    by destruct (f_json dirRes).
Qed.

(** X14: a refresh that succeeds replaces both stores by the files: a stop or a
    route is found under an id exactly when the file has one with that
    id, the last one if several; what the stores held before is gone. The
    stop names of the service follow the file, the time stamp is the
    decimal string of [now], and the stop store is keyed by id. *)
Theorem refresh_replaces_stores (w : World) (svc : Service) (br : Browser)
    (manifest : list SLService.LineManifestEntry) (stops : list Search.SLStop) :
  isInitialized svc = false ->
  cacheIsStale (sl_static_timestamp br) (now w) = true ->
  fetchStaticFiles w = Resolved (manifest, stops) ->
  tx_completes w = true ->
  let svc' := (initialize w svc br).1 in
  let br' := (initialize w svc br).2 in
  isInitialized svc' = true /\
  (forall stopId, getStopInfo br' stopId = last_stop stopId stops) /\
  (forall routeId,
     Search.idb_routes (db br') !! routeId = last_route routeId manifest) /\
  (forall stopId,
     stopsMap svc' !! stopId =
     match last_stop stopId stops with
     | Some s => Some (Search.st_name s)
     | None => stopsMap svc !! stopId
     end) /\
  sl_static_timestamp br' = Some (JS.String_of_int (now w)) /\
  keyed_by_id (Search.idb_stops (db br')).
Proof.
  intros Hi Hstale Hfiles Htx. unfold initialize, loadStaticDataFromFiles.
  rewrite Hi, Hstale, Hfiles, Htx. simpl.
  split; [done|]. split; [intros; apply putStops_lookup|].
  split; [intros; apply putRoutes_last|].
  split; [|split; [done|apply putStops_keyed]].
  intros stopId. rewrite loadAuxiliaryMaps_stopsMap. simpl.
  apply setStopNames_lookup.
Qed.

Lemma refresh_replaces_stores_witness :
  getStopInfo (initialize (world_ok 5000000000) new_service stale_browser).2 "s9"
  = Some (MoreExamples.stop "s9" "Kista C")
  /\ getStopInfo (initialize (world_ok 5000000000) new_service stale_browser).2 "s1"
     = None.
Proof.
  destruct (refresh_replaces_stores (world_ok 5000000000) new_service stale_browser
              Examples.manifest
              [MoreExamples.stop "s9" "Kista"; MoreExamples.stop "s9" "Kista C"]
              eq_refl eq_refl eq_refl eq_refl) as (_ & Hstop & _).
  split; [exact (Hstop "s9")|exact (Hstop "s1")].
Defined.

(** X15: a refresh that fails, because a file is missing, is not JSON or does
    not parse, leaves the database and the time stamp as they were; the
    service is initialised all the same, and its stop names are not loaded
    from the database. *)
Theorem failed_refresh_keeps_cache (w : World) (svc : Service) (br : Browser)
    (msg : string) :
  isInitialized svc = false ->
  cacheIsStale (sl_static_timestamp br) (now w) = true ->
  fetchStaticFiles w = Rejected msg ->
  (initialize w svc br).2 = br /\
  isInitialized (initialize w svc br).1 = true /\
  stopsMap (initialize w svc br).1 = stopsMap svc.
Proof.
  intros Hi Hstale Hfiles. unfold initialize, loadStaticDataFromFiles.
  rewrite Hi, Hstale, Hfiles. simpl.
  split; [done|]. split; [done|]. apply loadAuxiliaryMaps_stopsMap.
Qed.

Lemma failed_refresh_keeps_cache_witness :
  (initialize (world_offline 5000000000) new_service stale_browser).2 = stale_browser /\
  isInitialized (initialize (world_offline 5000000000) new_service stale_browser).1 = true /\
  stopsMap (initialize (world_offline 5000000000) new_service stale_browser).1 = ∅.
Proof.
  exact (failed_refresh_keeps_cache (world_offline 5000000000) new_service stale_browser
           "Static files missing or invalid format." eq_refl eq_refl eq_refl).
Defined.

(** X16: with a fresh cache neither static file is read and nothing is
    written: the database and the time stamp stay, and the stop names of
    the service are read from the database. *)
Theorem fresh_cache_loads_stop_names (w : World) (svc : Service) (br : Browser) :
  isInitialized svc = false ->
  cacheIsStale (sl_static_timestamp br) (now w) = false ->
  keyed_by_id (Search.idb_stops (db br)) ->
  (initialize w svc br).2 = br /\
  forall stopId,
    stopsMap (initialize w svc br).1 !! stopId =
    match getStopInfo br stopId with
    | Some s => Some (Search.st_name s)
    | None => stopsMap svc !! stopId
    end.
Proof.
  intros Hi Hfresh Hk. unfold initialize. rewrite Hi, Hfresh. simpl.
  split; [done|]. intros stopId.
  rewrite loadAuxiliaryMaps_stopsMap. unfold loadStopsFromDB, getStopInfo. simpl.
  by rewrite setStopNames_lookup, last_stop_store.
Qed.

Lemma fresh_cache_loads_stop_names_witness :
  (initialize (world_offline 2000) new_service stale_browser).2 = stale_browser /\
  stopsMap (initialize (world_offline 2000) new_service stale_browser).1 !! "s1"
  = Some "Sollentuna station".
Proof.
  assert (Hk : keyed_by_id (Search.idb_stops (db stale_browser))).
  { intros key stop Hl.
    destruct (decide (key = "s1")) as [->|Hne].
    - injection Hl as <-. reflexivity.
    - unfold stale_browser in Hl. simpl in Hl.
      rewrite lookup_singleton_ne in Hl by done. discriminate Hl. }
  destruct (fresh_cache_loads_stop_names (world_offline 2000) new_service stale_browser
              eq_refl eq_refl Hk) as [Hbr Hnames].
  split; [exact Hbr|exact (Hnames "s1")].
Defined.

(** X17: the time stamp that a refresh writes is read back by the next session:
    a session that starts within seven days of the refresh leaves the
    database and the time stamp alone, whatever the files then hold; a
    later one whose refresh succeeds serves the new stops file. *)
Theorem cache_lasts_seven_days (w0 w1 : World) (svc0 svc1 : Service) (br : Browser)
    (manifest : list SLService.LineManifestEntry) (stops : list Search.SLStop) :
  isInitialized svc0 = false -> isInitialized svc1 = false ->
  cacheIsStale (sl_static_timestamp br) (now w0) = true ->
  fetchStaticFiles w0 = Resolved (manifest, stops) ->
  tx_completes w0 = true ->
  (0 <= now w0)%Z ->
  let br1 := (initialize w0 svc0 br).2 in
  ((now w1 - now w0 <= CACHE_DURATION)%Z -> (initialize w1 svc1 br1).2 = br1) /\
  ((CACHE_DURATION < now w1 - now w0)%Z ->
   forall manifest' stops',
     fetchStaticFiles w1 = Resolved (manifest', stops') -> tx_completes w1 = true ->
     forall stopId,
       getStopInfo (initialize w1 svc1 br1).2 stopId = last_stop stopId stops').
Proof.
  intros Hi0 Hi1 Hstale Hfiles Htx Hnow br1.
  assert (Hts : sl_static_timestamp br1 = Some (JS.String_of_int (now w0))).
  { subst br1. unfold initialize, loadStaticDataFromFiles.
    by rewrite Hi0, Hstale, Hfiles, Htx. }
  assert (Hdecide : cacheIsStale (sl_static_timestamp br1) (now w1)
                    = (CACHE_DURATION <? now w1 - now w0)%Z).
  { rewrite Hts. unfold cacheIsStale.
    assert (Hne : JS.nonempty (Some (JS.String_of_int (now w0)))
                  = Some (JS.String_of_int (now w0))).
    { apply nonempty_Some. split; [done|]. intros Hempty.
      pose proof (parseInt_String (now w0) Hnow) as Hp. by rewrite Hempty in Hp. }
    by rewrite Hne, parseInt_String. }
  split.
  - intros Hle. unfold initialize. rewrite Hi1, Hdecide.
    by rewrite (proj2 (Z.ltb_ge _ _) Hle).
  - intros Hgt manifest' stops' Hfiles' Htx' stopId.
    unfold initialize, loadStaticDataFromFiles. rewrite Hi1, Hdecide.
    rewrite (proj2 (Z.ltb_lt _ _) Hgt), Hfiles', Htx'. simpl.
    apply putStops_lookup.
Qed.

Lemma cache_lasts_seven_days_witness :
  (initialize (world_offline 604800000) new_service
     (initialize (world_ok 0) new_service empty_browser).2).2
  = (initialize (world_ok 0) new_service empty_browser).2 /\
  getStopInfo (initialize (world_ok 604800001) new_service
                 (initialize (world_ok 0) new_service empty_browser).2).2 "s9"
  = Some (MoreExamples.stop "s9" "Kista C").
Proof.
  split.
  - apply (cache_lasts_seven_days (world_ok 0) (world_offline 604800000)
             new_service new_service empty_browser Examples.manifest
             [MoreExamples.stop "s9" "Kista"; MoreExamples.stop "s9" "Kista C"]
             eq_refl eq_refl eq_refl eq_refl eq_refl).
    + by vm_compute.
    + by vm_compute.
  - apply (proj2 (cache_lasts_seven_days (world_ok 0) (world_ok 604800001)
                    new_service new_service empty_browser Examples.manifest
                    [MoreExamples.stop "s9" "Kista"; MoreExamples.stop "s9" "Kista C"]
                    eq_refl eq_refl eq_refl eq_refl eq_refl ltac:(by vm_compute))
                 eq_refl Examples.manifest
                 [MoreExamples.stop "s9" "Kista"; MoreExamples.stop "s9" "Kista C"]
                 eq_refl eq_refl "s9").
Defined.

(** X18: a time stamp that [parseInt] cannot read counts as fresh at every
    time: no session refreshes the static data again. *)
Theorem unreadable_timestamp_never_refreshes (w : World) (svc : Service)
    (br : Browser) (stamp : string) :
  isInitialized svc = false ->
  sl_static_timestamp br = Some stamp -> stamp <> "" ->
  JSNumber.parseInt stamp = None ->
  (initialize w svc br).2 = br.
Proof.
  intros Hi Hts Hne Hnan. unfold initialize, cacheIsStale.
  rewrite Hi, Hts, (proj2 (nonempty_Some _ _) (conj eq_refl Hne)), Hnan. done.
Qed.

Lemma unreadable_timestamp_never_refreshes_witness :
  (initialize (world_ok 9999999999999) new_service
     {| sl_static_timestamp := Some "NaN"; db := db empty_browser |}).2
  = {| sl_static_timestamp := Some "NaN"; db := db empty_browser |}.
Proof.
  exact (unreadable_timestamp_never_refreshes (world_ok 9999999999999) new_service
           {| sl_static_timestamp := Some "NaN"; db := db empty_browser |} "NaN"
           eq_refl eq_refl ltac:(discriminate) eq_refl).
Defined.

(** X19: the two auxiliary maps do not fail alike. A trip map file that is
    missing (not ok, or not JSON) is skipped and the route directions are
    still loaded; a trip map file that claims to be JSON and does not parse
    throws, and the route directions are not loaded although their file is
    good. *)
Theorem aux_maps_fail_differently (w : World) (svc : Service)
    (tripRes : JsonFile (gmap string SLService.TripMapEntry))
    (dirRes : JsonFile (gmap string (gmap string string)))
    (directions : gmap string (gmap string string)) :
  trip_to_route_json w = Resolved tripRes ->
  route_directions_json w = Resolved dirRes ->
  f_ok dirRes = true -> f_isJson dirRes = true -> f_json dirRes = Resolved directions ->
  (f_ok tripRes && f_isJson tripRes = false ->
   routeDirections (loadAuxiliaryMaps w svc) = Some directions /\
   tripToRouteMap (loadAuxiliaryMaps w svc) = tripToRouteMap svc) /\
  (f_ok tripRes && f_isJson tripRes = true ->
   (forall msg, f_json tripRes = Rejected msg -> loadAuxiliaryMaps w svc = svc) /\
   (forall m, f_json tripRes = Resolved m ->
      routeDirections (loadAuxiliaryMaps w svc) = Some directions /\
      tripToRouteMap (loadAuxiliaryMaps w svc) = Some m)).
Proof.
  intros Ht Hd Hok Hjson Hdir. unfold loadAuxiliaryMaps.
  rewrite Ht, Hd, Hok, Hjson, Hdir. simpl. split.
  - by intros ->.
  - intros ->. split.
    + by intros msg ->.
    + by intros m ->.
Qed.

Lemma aux_maps_fail_differently_witness :
  loadAuxiliaryMaps (world_offline 0) new_service = new_service.
Proof.
  refine (proj1 (proj2 (aux_maps_fail_differently (world_offline 0) new_service
                   {| f_ok := true; f_isJson := true;
                      f_json := Rejected "Unexpected token <" |}
                   {| f_ok := true; f_isJson := true; f_json := Resolved ∅ |}
                   ∅ eq_refl eq_refl eq_refl eq_refl eq_refl) eq_refl)
            "Unexpected token <" eq_refl).
Defined.
End StaticDataStores.

Section AppViewClaims.
Import StaticData StaticSpec AppView.

Lemma last_route_snoc (routeId : string) (manifest : list SLService.LineManifestEntry)
    (e : SLService.LineManifestEntry) :
  last_route routeId (manifest ++ [e])
  = if decide (SLService.lm_id e = routeId) then Some e else last_route routeId manifest.
Proof. unfold last_route. by rewrite foldl_app. Qed.

Lemma last_route_Some (routeId : string) (manifest : list SLService.LineManifestEntry)
    (e : SLService.LineManifestEntry) :
  last_route routeId manifest = Some e -> e ∈ manifest /\ SLService.lm_id e = routeId.
Proof.
  induction manifest as [|x manifest IH] using rev_ind; [done|].
  rewrite last_route_snoc, elem_of_app, list_elem_of_singleton.
  destruct (decide (SLService.lm_id x = routeId)) as [Hx|Hx].
  - intros [= ->]. auto.
  - intros [? ?]%IH. auto.
Qed.

Lemma last_route_None (routeId : string) (manifest : list SLService.LineManifestEntry) :
  last_route routeId manifest = None ->
  forall e, e ∈ manifest -> SLService.lm_id e <> routeId.
Proof.
  induction manifest as [|x manifest IH] using rev_ind;
    [intros _ e He; by apply elem_of_nil in He|].
  rewrite last_route_snoc.
  destruct (decide (SLService.lm_id x = routeId)) as [Hx|Hx]; [done|].
  intros Hn e [He|He%list_elem_of_singleton]%elem_of_app; [by apply IH|by subst].
Qed.

Lemma manifestMap_lookup (manifestData : list SLService.LineManifestEntry)
    (routeId : string) :
  manifestMap manifestData !! routeId = last_route routeId manifestData.
Proof. apply putRoutes_last. Qed.

(** The manifest read from a store keyed by id and put into a map by id
    is the store. *)
Lemma manifestMap_getManifest (br : Browser) (routeId : string) :
  (forall key e, Search.idb_routes (db br) !! key = Some e -> SLService.lm_id e = key) ->
  manifestMap (getManifest br) !! routeId = Search.idb_routes (db br) !! routeId.
Proof.
  intros Hk. rewrite manifestMap_lookup. unfold getManifest.
  destruct (last_route routeId _) as [e|] eqn:Hl.
  - apply last_route_Some in Hl as [Hin Hid].
    apply sort_by_elem in Hin.
    apply list_elem_of_fmap in Hin as ([key e'] & -> & Hin).
    apply elem_of_map_to_list in Hin. simpl in *.
    by rewrite <- Hid, (Hk _ _ Hin).
  - destruct (Search.idb_routes (db br) !! routeId) as [e|] eqn:He; [|done]. exfalso.
    apply (last_route_None _ _ Hl e); [|by apply Hk].
    apply sort_by_elem, list_elem_of_fmap. exists (routeId, e). split; [done|].
    by apply elem_of_map_to_list.
Qed.

(** X20: on a first start or after a refresh that succeeds, the name shown for
    the active line comes from the manifest file: line, origin and
    destination of the last entry of the file with the id of the route,
    and the line alone when the file has no such entry. *)
Theorem line_display_name_from_manifest (w : World) (svc : Service) (br : Browser)
    (manifest : list SLService.LineManifestEntry) (stops : list Search.SLStop)
    (activeRoute : SLService.SLLineRoute) :
  isInitialized svc = false ->
  cacheIsStale (sl_static_timestamp br) (now w) = true ->
  fetchStaticFiles w = Resolved (manifest, stops) ->
  tx_completes w = true ->
  getLineDisplayName (init w svc br).1 (Some activeRoute) =
  match last_route (SLService.lr_id activeRoute) manifest with
  | Some manifestEntry =>
      "Linje " ++ SLService.lr_line activeRoute ++ " "
      ++ SLService.lm_from manifestEntry ++ " – " ++ SLService.lm_to manifestEntry
  | None => "Linje " ++ SLService.lr_line activeRoute
  end.
Proof.
  intros Hi Hstale Hfiles Htx.
  assert (Hmap : forall routeId,
            (init w svc br).1 !! routeId = last_route routeId manifest).
  { intros routeId. unfold init.
    assert (Hbr : (initialize w svc br).2
                  = {| sl_static_timestamp := Some (JS.String_of_int (now w));
                       db := {| Search.idb_stops := putStops stops;
                                Search.idb_routes := SLService.putRoutes manifest |} |}).
    { unfold initialize, loadStaticDataFromFiles.
      by rewrite Hi, Hstale, Hfiles, Htx. }
    destruct (initialize w svc br) as [svc' br']. simpl in *. subst br'.
    rewrite manifestMap_getManifest; simpl.
    - apply putRoutes_last.
    - intros key e. rewrite putRoutes_last. by intros [_ ?]%last_route_Some. }
  unfold getLineDisplayName. by rewrite Hmap.
Qed.

Lemma line_display_name_from_manifest_witness :
  getLineDisplayName (init (world_ok 5000000000) new_service stale_browser).1
    (Some Examples.route_12)
  = match last_route (SLService.lr_id Examples.route_12) Examples.manifest with
    | Some manifestEntry =>
        "Linje " ++ SLService.lr_line Examples.route_12 ++ " "
        ++ SLService.lm_from manifestEntry ++ " – " ++ SLService.lm_to manifestEntry
    | None => "Linje " ++ SLService.lr_line Examples.route_12
    end.
Proof.
  exact (line_display_name_from_manifest (world_ok 5000000000) new_service
           stale_browser Examples.manifest
           [MoreExamples.stop "s9" "Kista"; MoreExamples.stop "s9" "Kista C"]
           Examples.route_12 eq_refl eq_refl eq_refl eq_refl).
Defined.

Lemma filterByRoute_set (allVehicles : list SLService.SLVehicle)
    (route : SLService.SLLineRoute) :
  filter (fun v => SLService.sv_tripId v
                   ∈ (list_to_set (SLService.lr_trip_ids route) : gset string))
         allVehicles
  = filter (fun v => SLService.sv_tripId v ∈ SLService.lr_trip_ids route) allVehicles.
Proof. apply list_filter_iff. intros v. apply elem_of_list_to_set. Qed.

Lemma filterByRoute_matches (allVehicles : list SLService.SLVehicle)
    (route : SLService.SLLineRoute) (v : SLService.SLVehicle) :
  v ∈ SLService.filterByRoute allVehicles route ->
  v ∈ allVehicles /\
  (SLService.sv_line v = SLService.lr_id route
   \/ SLService.sv_tripId v ∈ SLService.lr_trip_ids route).
Proof.
  unfold SLService.filterByRoute. cbv zeta. rewrite filterByRoute_set.
  destruct (_ && _); rewrite list_elem_of_filter; tauto.
Qed.

Lemma filterByRoute_trip_match (allVehicles : list SLService.SLVehicle)
    (route : SLService.SLLineRoute) (u : SLService.SLVehicle) :
  u ∈ allVehicles -> SLService.sv_tripId u ∈ SLService.lr_trip_ids route ->
  SLService.filterByRoute allVehicles route
  = filter (fun v => SLService.sv_tripId v ∈ SLService.lr_trip_ids route) allVehicles.
Proof.
  intros Hu Htrip. unfold SLService.filterByRoute. cbv zeta. rewrite filterByRoute_set.
  rewrite bool_decide_eq_false_2; [done|].
  intros Hlen. apply nil_length_inv in Hlen.
  assert (Hin : u ∈ filter (fun v => SLService.sv_tripId v ∈ SLService.lr_trip_ids route)
                      allVehicles) by (by apply list_elem_of_filter).
  rewrite Hlen in Hin. by apply elem_of_nil in Hin.
Qed.

Variable Bounds : Type.
Variable pad : Bounds -> PrimFloat.float -> Bounds.
Variable contains : Bounds -> PrimFloat.float -> PrimFloat.float -> bool.

(** X21: a vehicle that the service keeps for a route is drawn by the page for
    that route whenever it lies in the padded bounds of the map. *)
Theorem service_filter_within_view_filter (st : View Bounds)
    (route : SLService.SLLineRoute) (bounds : Bounds) (v : SLService.SLVehicle) :
  activeRoute st = Some route -> showAllVehicles st = false ->
  visibleBounds st = Some bounds ->
  contains (pad bounds PAD) (SLService.sv_lat v) (SLService.sv_lng v) = true ->
  v ∈ SLService.filterByRoute (vehicles st) route ->
  v ∈ visibleVehicles pad contains st.
Proof.
  intros Hr Hall Hb Hin [Hv Hmatch]%filterByRoute_matches.
  unfold visibleVehicles. rewrite Hr, Hall, Hb.
  apply list_elem_of_filter. split; [done|]. by apply list_elem_of_filter.
Qed.

(** X22: the page filters wider than the service: when some vehicle runs a trip
    of the route, a vehicle that only has the line of the route is left out
    by the service and still drawn by the page. *)
Theorem view_filter_wider_than_service (st : View Bounds)
    (route : SLService.SLLineRoute) (bounds : Bounds) (u v : SLService.SLVehicle) :
  activeRoute st = Some route -> showAllVehicles st = false ->
  visibleBounds st = Some bounds ->
  u ∈ vehicles st -> SLService.sv_tripId u ∈ SLService.lr_trip_ids route ->
  v ∈ vehicles st -> SLService.sv_line v = SLService.lr_id route ->
  SLService.sv_tripId v ∉ SLService.lr_trip_ids route ->
  contains (pad bounds PAD) (SLService.sv_lat v) (SLService.sv_lng v) = true ->
  (v ∉ SLService.filterByRoute (vehicles st) route) /\
  v ∈ visibleVehicles pad contains st.
Proof.
  intros Hr Hall Hb Hu Htrip Hv Hline Hmiss Hin. split.
  - rewrite (filterByRoute_trip_match _ _ u Hu Htrip), list_elem_of_filter. tauto.
  - unfold visibleVehicles. rewrite Hr, Hall, Hb.
    apply list_elem_of_filter. split; [done|]. apply list_elem_of_filter. by auto.
Qed.

(** X23: without an active route and with "all vehicles" off, the page draws
    no vehicle, whatever the feed holds and wherever the map is, while the
    status line still tells the number of vehicles of the feed. *)
Theorem default_view_draws_nothing (st : View Bounds) :
  activeRoute st = None -> showAllVehicles st = false ->
  visibleVehicles pad contains st = [] /\
  (isApiConfigured st = Some true -> liveStatus st = App.ok ->
   getStatusText st
   = JS.String_of_int (Z.of_nat (List.length (vehicles st))) ++ " fordon i realtid").
Proof.
  intros Hr Hall. unfold visibleVehicles, getStatusText. rewrite Hr, Hall.
  split; [done|]. by intros -> ->.
Qed.
End AppViewClaims.

Section AppViewWitnesses.
Import AppView ViewExamples.

Lemma service_filter_within_view_filter_witness :
  Examples.vehicle_14
  ∈ visibleVehicles no_pad everywhere
      (sample_view [Examples.vehicle_14] (Some Examples.route_12)).
Proof.
  apply (service_filter_within_view_filter unit no_pad everywhere
           (sample_view [Examples.vehicle_14] (Some Examples.route_12))
           Examples.route_12 tt Examples.vehicle_14 eq_refl eq_refl eq_refl eq_refl).
  vm_compute. apply list_elem_of_here.
Defined.

Lemma view_filter_wider_than_service_witness :
  (Examples.vehicle_14
   ∉ SLService.filterByRoute [vehicle_99; Examples.vehicle_14] Examples.route_12) /\
  Examples.vehicle_14
  ∈ visibleVehicles no_pad everywhere
      (sample_view [vehicle_99; Examples.vehicle_14] (Some Examples.route_12)).
Proof.
  apply (view_filter_wider_than_service unit no_pad everywhere
           (sample_view [vehicle_99; Examples.vehicle_14] (Some Examples.route_12))
           Examples.route_12 tt vehicle_99 Examples.vehicle_14 eq_refl eq_refl eq_refl).
  - apply list_elem_of_here.
  - apply list_elem_of_here.
  - apply list_elem_of_further, list_elem_of_here.
  - reflexivity.
  - intros Hin. apply list_elem_of_singleton in Hin. discriminate Hin.
  - reflexivity.
Defined.

Lemma default_view_draws_nothing_witness :
  visibleVehicles no_pad everywhere (sample_view [Examples.vehicle_14] None) = [] /\
  getStatusText (sample_view [Examples.vehicle_14] None) = "1 fordon i realtid".
Proof.
  pose proof (default_view_draws_nothing unit no_pad everywhere
                (sample_view [Examples.vehicle_14] None) eq_refl eq_refl) as [Hnone Htext].
  split; [exact Hnone|exact (Htext eq_refl eq_refl)].
Defined.
End AppViewWitnesses.
